(** * CRJ engine web client: capture, submission and rendering

    A shallow embedding of the browser client of the CRJ engine
    (the api client, the audio recorder, the UI controller and the
    notation renderer) together with the properties its design
    document states about it.

    JavaScript numbers are IEEE binary64 values and are modelled by
    Rocq's primitive floats, so that a literal such as [0.2] denotes
    the same double as in the source and comparisons behave as in the
    source (including on NaN).  Integral quantities that the code only
    compares or counts (file sizes, clock readings in milliseconds,
    loop counters) are modelled by [Z] and [nat]. *)

From Stdlib Require Import Floats Uint63 ZArith List String Ascii DecimalString Bool Lia Arith.
Import ListNotations.

Set Warnings "-inexact-float".
Local Open Scope string_scope.

(* ================================================================== *)
(** * JavaScript values used by the client *)
(* ================================================================== *)

Module JS.

(** ToBoolean on a number: [0], [-0] and [NaN] are falsy. *)
Definition truthy_num (x : float) : bool :=
  negb (PrimFloat.eqb x 0%float || PrimFloat.is_nan x).

(** ToBoolean on a string: only the empty string is falsy. *)
Definition truthy_str (s : string) : bool :=
  match s with EmptyString => false | _ => true end.

(** [v || d] where [v] is a possibly missing numeric property. *)
Definition or_num (v : option float) (d : float) : float :=
  match v with
  | Some x => if truthy_num x then x else d
  | None => d
  end.

(** [v || d] where [v] is a possibly missing string property. *)
Definition or_str (v : option string) (d : string) : string :=
  match v with
  | Some s => if truthy_str s then s else d
  | None => d
  end.

(** [v || d] where [v] is a possibly missing boolean property. *)
Definition or_bool (v : option bool) (d : bool) : bool :=
  match v with
  | Some b => if b then b else d
  | None => d
  end.

(** [s.includes(t)] *)
Definition includes (s t : string) : bool :=
  match String.index 0 t s with Some _ => true | None => false end.

(** A [Blob]: its byte length and its media type. *)
Record Blob := mkBlob { blob_size : Z; blob_type : string }.

(** A [File] picked in a file input. *)
Record File := mkFile { file_name : string; file_size : Z; file_type : string }.

End JS.

(* ================================================================== *)
(** * api-client.js: [CRJApi] *)
(* ================================================================== *)

Module CRJApi.
Import JS.

(** The [options] argument of [analyze] and [analyzeFile]; [None] is a
    property that is absent (or [undefined]).  Each property has the
    type the callers give it. *)
Record Options := mkOptions {
  referenceSaHz : option float;
  algorithm : option string;
  script : option string;
  toleranceCents : option float;
  includeContour : option bool;
}.

(** [options = {}] *)
Definition no_options : Options := mkOptions None None None None None.

(** A value appended to a [FormData]. *)
Inductive FormValue :=
| FBlob (b : Blob) (filename : string)
| FFile (f : File)
| FNumber (x : float)
| FString (s : string)
| FBool (b : bool).

Definition FormData := list (string * FormValue).

(** The argument of [fetch]. *)
Record Request := mkRequest {
  req_url : string;
  req_method : string;
  req_body : FormData;
}.

Definition baseUrl : string := "/api/v1".

(** The five configuration fields, appended in the same way by
    [analyze] and [analyzeFile]. *)
Definition option_fields (options : Options) : FormData :=
  [ ("reference_sa_hz", FNumber (or_num (referenceSaHz options) 261.63%float));
    ("algorithm", FString (or_str (algorithm options) "pyin"));
    ("script", FString (or_str (script options) "iast"));
    ("tolerance_cents", FNumber (or_num (toleranceCents options) 40%float));
    ("include_contour", FBool (or_bool (includeContour options) false)) ].

(** [(blob.type || '').includes('webm') ? '.webm' : ...] *)
Definition ext (b : Blob) : string :=
  let ty := or_str (Some (blob_type b)) "" in
  if includes ty "webm" then ".webm"
  else if includes ty "ogg" then ".ogg"
  else if includes ty "mp4" then ".m4a"
  else ".webm".

(** The request [analyze(blob, options)] hands to [fetch]. *)
Definition analyze (blob : Blob) (options : Options) : Request :=
  let formData :=
    ([("file", FBlob blob ("recording" ++ ext blob))] ++ option_fields options)%list in
  mkRequest (baseUrl ++ "/analyze") "POST" formData.

(** The request [analyzeFile(file, options)] hands to [fetch]. *)
Definition analyzeFile (file : File) (options : Options) : Request :=
  let formData := ([("file", FFile file)] ++ option_fields options)%list in
  mkRequest (baseUrl ++ "/analyze") "POST" formData.

(** The value of the first form field called [k] (the [FormData.get]
    reading of a request body). *)
Fixpoint form_get (k : string) (fd : FormData) : option FormValue :=
  match fd with
  | [] => None
  | (k', v) :: fd' => if String.eqb k k' then Some v else form_get k fd'
  end.

End CRJApi.

(* ================================================================== *)
(** * ui.js: the session controller *)
(* ================================================================== *)

Module UI.
Import JS.

(** The repository carries two copies of the controller: the primary
    one (tabbed results, pitch-contour view) and the simpler legacy
    one under [web/js].  They differ in [getOptions], in the progress
    messages and in what [displayResults] draws. *)
Inductive Variant := Primary | Legacy.

Inductive SessionState := idle | recording | processing | results.

(** The current values of the configuration controls. *)
Record Controls := mkControls {
  saPreset_value : string;
  saCustom_value : string;
  algorithm_value : string;
  script_value : string;
}.

Section Controller.

(** [parseFloat] is the platform's; the result document is opaque to
    the controller. *)
Variable parseFloat : string -> float.
Variable Result : Type.

(** What the controller and the page hold between two events. *)
Record Page := mkPage {
  state : SessionState;
  recordingStatus_text : string;
  recordingStatus_class : string;
  progressFill_width : string;
  processingMsg_text : string;
  lastResult : option Result;
  displayed : option Result;     (* the argument of the last [displayResults] *)
  fetches : list CRJApi.Request; (* the calls to [fetch], oldest first *)
}.

Definition getOptions (v : Variant) (c : Controls) : CRJApi.Options :=
  let saHz := parseFloat (saPreset_value c) in
  let saHz :=
    if String.eqb (saPreset_value c) "custom"
    then or_num (Some (parseFloat (saCustom_value c))) 261.63%float
    else saHz in
  match v with
  | Primary =>
      CRJApi.mkOptions (Some saHz) (Some (algorithm_value c))
        (Some (script_value c)) None
        (Some true)   (* always request contour for visualization *)
  | Legacy =>
      CRJApi.mkOptions (Some saHz) (Some (algorithm_value c))
        (Some (script_value c)) None None
  end.

Definition setState (s : SessionState) (p : Page) : Page :=
  match s with
  | idle =>
      mkPage idle (recordingStatus_text p) (recordingStatus_class p)
        "0%" "" (lastResult p) (displayed p) (fetches p)
  | _ =>
      mkPage s (recordingStatus_text p) (recordingStatus_class p)
        (progressFill_width p) (processingMsg_text p)
        (lastResult p) (displayed p) (fetches p)
  end.

Definition showError (msg : string) (p : Page) : Page :=
  setState idle
    (mkPage (state p) msg "recording-status error-msg"
       (progressFill_width p) (processingMsg_text p)
       (lastResult p) (displayed p) (fetches p)).

Definition clearError (p : Page) : Page :=
  mkPage (state p) "" "recording-status"
    (progressFill_width p) (processingMsg_text p)
    (lastResult p) (displayed p) (fetches p).

Definition set_progress (msg width : string) (p : Page) : Page :=
  mkPage (state p) (recordingStatus_text p) (recordingStatus_class p)
    width msg (lastResult p) (displayed p) (fetches p).

Definition fetch (r : CRJApi.Request) (p : Page) : Page :=
  mkPage (state p) (recordingStatus_text p) (recordingStatus_class p)
    (progressFill_width p) (processingMsg_text p)
    (lastResult p) (displayed p) (fetches p ++ [r]).

(** What is submitted: a recorded blob ([isFile = false]) or a picked
    file ([isFile = true]). *)
Inductive Clip := Recorded (b : Blob) | Picked (f : File).

(** [runAnalysis] up to its first [await]: the state change, the
    progress display and the call of the api client, which builds
    the request from the controls as they are now and fetches.  The
    page is taken to hold the elements the script looks up. *)
Definition runAnalysis (v : Variant) (c : Controls) (clip : Clip) (p : Page) : Page :=
  let p := setState processing p in
  let p := set_progress "Uploading audio…" "20%" p in
  let p := set_progress
             match v with
             | Primary => "Detecting pitch contour…"
             | Legacy => "Analyzing pitch contour…"
             end "40%" p in
  let opts := getOptions v c in
  match clip with
  | Picked f => fetch (CRJApi.analyzeFile f opts) p
  | Recorded b => fetch (CRJApi.analyze b opts) p
  end.

(** How the rest of [runAnalysis] goes, all of it inside one [try]:
    the api call throws; or it returns a document and
    [displayResults], called with it, throws; or the document is
    rendered.  A message is the [err.message] of what was thrown. *)
Inductive Outcome :=
| ApiThrew (message : string)
| RenderThrew (result : Result) (message : string)
| Rendered (result : Result).

(** [runAnalysis] after the api call has settled: the progress
    display, [displayResults] and the final state, or the [catch]
    branch. *)
Definition runAnalysis_settled (v : Variant) (outcome : Outcome) (p : Page) : Page :=
  let rendering (result : Result) (p : Page) : Page :=
    match v with
    | Primary =>
        let p := set_progress "Rendering results…" "80%" p in
        let p := set_progress "Complete!" "100%" p in
        (* lastResult = result; displayResults(result, opts.referenceSaHz) *)
        mkPage (state p) (recordingStatus_text p) (recordingStatus_class p)
          (progressFill_width p) (processingMsg_text p)
          (Some result) (Some result) (fetches p)
    | Legacy =>
        let p := set_progress "Done!" "100%" p in
        (* displayResults(result) *)
        mkPage (state p) (recordingStatus_text p) (recordingStatus_class p)
          (progressFill_width p) (processingMsg_text p)
          (lastResult p) (Some result) (fetches p)
    end in
  match outcome with
  | ApiThrew message => showError ("Analysis failed: " ++ message) p
  | RenderThrew result message =>
      showError ("Analysis failed: " ++ message) (rendering result p)
  | Rendered result => setState results (rendering result p)
  end.

(** The [change] handler of the file input; [file] is
    [e.target.files[0]]. *)
Definition fileInput_change (v : Variant) (c : Controls) (file : option File) (p : Page) : Page :=
  match file with
  | None => p
  | Some file =>
      let p := clearError p in
      if (10 * 1024 * 1024 <? file_size file)%Z
      then showError "File too large (max 10 MB)." p
      else runAnalysis v c (Picked file) p
  end.

(** The [click] handler of the new-analysis button. *)
Definition btnNew_click (p : Page) : Page :=
  let p := clearError (setState idle p) in
  mkPage (state p) (recordingStatus_text p) (recordingStatus_class p)
    (progressFill_width p) (processingMsg_text p)
    None (displayed p) (fetches p).

(** The page once the script has run: [setState('idle')]. *)
Definition init : Page :=
  mkPage idle "" "recording-status" "0%" "" None None [].

End Controller.

Arguments state {Result} _.
Arguments recordingStatus_text {Result} _.
Arguments recordingStatus_class {Result} _.
Arguments fetches {Result} _.
Arguments lastResult {Result} _.
Arguments displayed {Result} _.

End UI.

(* ================================================================== *)
(** * recorder.js: [AudioRecorder] *)
(* ================================================================== *)

Module AudioRecorder.
Import JS.

(** [MediaRecorder.state]; the recorder is never paused by this code. *)
Inductive RecordingState := inactive | recording.

(** Who waits for the promise [stop()] returned: the interval callback
    of [start] (which then calls [onMaxReached]) or an outside caller. *)
Inductive Waiter := ByTimer | ByCaller.

(** The platform's [MediaRecorder]: its state, the [onstop] handler
    the code installed (identified by the promise it resolves), and
    whether a [stop] event is queued and not yet fired. *)
Record MediaRecorder := mkMR {
  mr_state : RecordingState;
  mr_onstop : option Waiter;
  mr_stop_queued : bool;
}.

(** A granted input stream (one audio track) and an audio context,
    named by the platform. *)
Definition MediaStream := nat.
Definition AudioContext := nat.

Record Recorder := mkRecorder {
  maxDurationMs : Z;
  mimeType : string;
  mediaRecorder : option MediaRecorder;
  audioChunks : list Blob;
  stream : option MediaStream;
  analyserNode : bool;               (* [false] is [null] *)
  audioCtx : option AudioContext;
  startTime : option Z;
  timerInterval : bool;              (* [true]: an interval is set *)
  frameRequested : bool;             (* a [requestAnimationFrame] is outstanding *)
}.

(** What the recorder does to the outside: to the hardware, to the
    audio graph, to its three callbacks and to the promises of
    [stop()].  The callbacks are the caller's; they are taken to
    return. *)
Inductive Effect :=
| Acquire (s : MediaStream)          (* [getUserMedia] granted a device *)
| Release (s : MediaStream)          (* [track.stop()] on its track *)
| ContextOpen (c : AudioContext)
| ContextClose (c : AudioContext)
| OnDurationUpdate (elapsed : Z)
| OnMaxReached (blob : Blob)
| OnWaveformData
| StopResolved (w : Waiter) (blob : option Blob).

(** ** A state-and-output monad for the methods *)

Definition M (A : Type) : Type := Recorder -> A * Recorder * list Effect.

Definition ret {A} (a : A) : M A := fun r => (a, r, []).

Definition bind {A B} (m : M A) (k : A -> M B) : M B :=
  fun r =>
    let '(a, r1, o1) := m r in
    let '(b, r2, o2) := k a r1 in
    (b, r2, (o1 ++ o2)%list).

Definition this : M Recorder := fun r => (r, r, []).
Definition assign (f : Recorder -> Recorder) : M unit := fun r => (tt, f r, []).
Definition emit (e : Effect) : M unit := fun r => (tt, r, [e]).
Definition when (b : bool) (m : M unit) : M unit := if b then m else ret tt.

Notation "x <- m ;; k" := (bind m (fun x => k))
  (at level 61, m at next level, right associativity).
Notation "m ;; k" := (bind m (fun _ => k))
  (at level 61, right associativity).

(** Field assignments. *)
Definition set_mediaRecorder (v : option MediaRecorder) (r : Recorder) : Recorder :=
  mkRecorder (maxDurationMs r) (mimeType r) v (audioChunks r) (stream r)
    (analyserNode r) (audioCtx r) (startTime r) (timerInterval r) (frameRequested r).
Definition set_audioChunks (v : list Blob) (r : Recorder) : Recorder :=
  mkRecorder (maxDurationMs r) (mimeType r) (mediaRecorder r) v (stream r)
    (analyserNode r) (audioCtx r) (startTime r) (timerInterval r) (frameRequested r).
Definition set_stream (v : option MediaStream) (r : Recorder) : Recorder :=
  mkRecorder (maxDurationMs r) (mimeType r) (mediaRecorder r) (audioChunks r) v
    (analyserNode r) (audioCtx r) (startTime r) (timerInterval r) (frameRequested r).
Definition set_analyserNode (v : bool) (r : Recorder) : Recorder :=
  mkRecorder (maxDurationMs r) (mimeType r) (mediaRecorder r) (audioChunks r) (stream r)
    v (audioCtx r) (startTime r) (timerInterval r) (frameRequested r).
Definition set_audioCtx (v : option AudioContext) (r : Recorder) : Recorder :=
  mkRecorder (maxDurationMs r) (mimeType r) (mediaRecorder r) (audioChunks r) (stream r)
    (analyserNode r) v (startTime r) (timerInterval r) (frameRequested r).
Definition set_startTime (v : option Z) (r : Recorder) : Recorder :=
  mkRecorder (maxDurationMs r) (mimeType r) (mediaRecorder r) (audioChunks r) (stream r)
    (analyserNode r) (audioCtx r) v (timerInterval r) (frameRequested r).
Definition set_timerInterval (v : bool) (r : Recorder) : Recorder :=
  mkRecorder (maxDurationMs r) (mimeType r) (mediaRecorder r) (audioChunks r) (stream r)
    (analyserNode r) (audioCtx r) (startTime r) v (frameRequested r).
Definition set_frameRequested (v : bool) (r : Recorder) : Recorder :=
  mkRecorder (maxDurationMs r) (mimeType r) (mediaRecorder r) (audioChunks r) (stream r)
    (analyserNode r) (audioCtx r) (startTime r) (timerInterval r) v.

(** ** The methods *)

(** [_selectMimeType]; [supported] is [MediaRecorder.isTypeSupported],
    [None] where [MediaRecorder] is undefined. *)
Definition _selectMimeType (supported : option (string -> bool)) : string :=
  let types :=
    [ "audio/webm;codecs=opus"; "audio/webm"; "audio/ogg;codecs=opus"; "audio/mp4" ] in
  match supported with
  | None => ""
  | Some isTypeSupported =>
      match find isTypeSupported types with
      | Some t => t
      | None => ""
      end
  end.

(** [new AudioRecorder(options)]; [maxDuration] is
    [options.maxDurationMs], [None] when absent. *)
Definition constructor (maxDuration : option Z)
    (supported : option (string -> bool)) : Recorder :=
  mkRecorder
    (match maxDuration with
     | Some d => if (d =? 0)%Z then 30000%Z else d
     | None => 30000%Z
     end)
    (_selectMimeType supported)
    None [] None false None None false false.

Definition is_recording (r : Recorder) : bool :=
  match mediaRecorder r with
  | Some mr => match mr_state mr with recording => true | inactive => false end
  | None => false
  end.

Definition _drawLoop : M unit :=
  r <- this ;;
  if negb (analyserNode r) || negb (is_recording r) then ret tt
  else
    emit OnWaveformData ;;
    assign (set_frameRequested true).

Definition _cleanup : M unit :=
  r <- this ;;
  match stream r with
  | Some s => emit (Release s) ;; assign (set_stream None)
  | None => ret tt
  end ;;
  r <- this ;;
  match audioCtx r with
  | Some c => emit (ContextClose c) ;; assign (set_audioCtx None)
  | None => ret tt
  end.

(** [stop()], called on behalf of [w].  It returns at once; its
    promise resolves here with [null] when nothing is recording, and
    otherwise when the stop event fires (see [onstop]). *)
Definition stop (w : Waiter) : M unit :=
  r <- this ;;
  when (timerInterval r) (assign (set_timerInterval false)) ;;
  r <- this ;;
  match mediaRecorder r with
  | Some (mkMR recording _ _) =>
      (* this.mediaRecorder.onstop = ...; this.mediaRecorder.stop() *)
      assign (set_mediaRecorder (Some (mkMR inactive (Some w) true)))
  | _ =>
      _cleanup ;;
      emit (StopResolved w None)
  end.

Definition blob_of_chunks (chunks : list Blob) (type : string) : Blob :=
  mkBlob (fold_right Z.add 0%Z (map blob_size chunks)) type.

(** The [onstop] handler installed by [stop()] for [w], followed by
    what the waiter does with the blob. *)
Definition onstop (w : Waiter) : M unit :=
  r <- this ;;
  let blob := blob_of_chunks (audioChunks r) (or_str (Some (mimeType r)) "audio/webm") in
  _cleanup ;;
  emit (StopResolved w (Some blob)) ;;
  match w with
  | ByTimer => emit (OnMaxReached blob)     (* if (blob) this.onMaxReached(blob) *)
  | ByCaller => ret tt
  end.

(** The interval callback installed by [start()]; [now] is
    [Date.now()]. *)
Definition timer_callback (now : Z) : M unit :=
  r <- this ;;
  let elapsed := (now - match startTime r with Some t => t | None => 0 end)%Z in
  emit (OnDurationUpdate elapsed) ;;
  when (maxDurationMs r <=? elapsed)%Z (stop ByTimer).

(** [ondataavailable] *)
Definition ondataavailable (data : Blob) : M unit :=
  r <- this ;;
  when (0 <? blob_size data)%Z (assign (set_audioChunks (audioChunks r ++ [data])%list)).

(** Where [start()] may throw once the device is granted: the
    platform call on that line fails.  [start()] catches nothing, so
    it rejects there and the statements after it do not run. *)
Inductive Fault :=
| AtAudioContext      (* [new AudioContext()] *)
| AtSource            (* [createMediaStreamSource], [createAnalyser] *)
| AtConnect           (* [source.connect] *)
| AtMediaRecorder     (* [new MediaRecorder] *)
| AtRecorderStart.    (* [mediaRecorder.start(250)] *)

Definition Fault_eqb (f g : Fault) : bool :=
  match f, g with
  | AtAudioContext, AtAudioContext | AtSource, AtSource | AtConnect, AtConnect
  | AtMediaRecorder, AtMediaRecorder | AtRecorderStart, AtRecorderStart => true
  | _, _ => false
  end.

Definition throws (fault : option Fault) (f : Fault) : bool :=
  match fault with
  | Some g => Fault_eqb g f
  | None => false
  end.

(** How [start()] ends: it resolves, [getUserMedia] rejected, or a
    later call threw. *)
Inductive StartResult := Started | DeviceUnavailable | Threw (f : Fault).

(** [start()].  [defined] tells whether [MediaRecorder] is defined
    ([new MediaRecorder] throws where it is not); [granted] is what
    [getUserMedia] resolved with ([None]: it rejected, and so does
    [start]); [fault] is the platform call that fails, if one does;
    [ctx] names the audio context created; [now] is [Date.now()]. *)
Definition start (defined : bool) (granted : option MediaStream) (fault : option Fault)
    (ctx : AudioContext) (now : Z) : M StartResult :=
  match granted with
  | None => ret DeviceUnavailable
  | Some s =>
      emit (Acquire s) ;;
      assign (set_stream (Some s)) ;;
      if throws fault AtAudioContext then ret (Threw AtAudioContext) else
      emit (ContextOpen ctx) ;;
      assign (set_audioCtx (Some ctx)) ;;
      if throws fault AtSource then ret (Threw AtSource) else
      assign (set_analyserNode true) ;;
      if throws fault AtConnect then ret (Threw AtConnect) else
      assign (set_audioChunks []) ;;
      if negb defined || throws fault AtMediaRecorder then ret (Threw AtMediaRecorder) else
      (* this.mediaRecorder = new MediaRecorder(...); ondataavailable = ... *)
      assign (set_mediaRecorder (Some (mkMR inactive None false))) ;;
      if throws fault AtRecorderStart then ret (Threw AtRecorderStart) else
      assign (set_mediaRecorder (Some (mkMR recording None false))) ;;
      assign (set_startTime (Some now)) ;;
      assign (set_timerInterval true) ;;
      _drawLoop ;;
      ret Started
  end.

(** ** Sessions: what the platform and the controller deliver *)

Inductive Event :=
| Tick (now : Z)                  (* the interval elapsed *)
| StopCall                        (* somebody calls [stop()] *)
| StopEvent                       (* the [MediaRecorder] fires [stop] *)
| DataAvailable (data : Blob)     (* the [MediaRecorder] fires [dataavailable] *)
| AnimationFrame.                 (* the display refreshes *)

(** The platform delivers an event only to a handler that is
    installed: a cleared interval does not fire, a stop event fires
    once for each [MediaRecorder.stop()], a frame callback runs once
    for each request. *)
Definition deliver (e : Event) : M unit :=
  r <- this ;;
  match e with
  | Tick now => when (timerInterval r) (timer_callback now)
  | StopCall => stop ByCaller
  | StopEvent =>
      match mediaRecorder r with
      | Some (mkMR st (Some w) true) =>
          assign (set_mediaRecorder (Some (mkMR st (Some w) false))) ;;
          onstop w
      | _ => ret tt
      end
  | DataAvailable data =>
      match mediaRecorder r with
      | Some _ => ondataavailable data
      | None => ret tt
      end
  | AnimationFrame =>
      when (frameRequested r) (assign (set_frameRequested false) ;; _drawLoop)
  end.

Fixpoint deliver_all (evs : list Event) : M unit :=
  match evs with
  | [] => ret tt
  | e :: evs' => deliver e ;; deliver_all evs'
  end.

(** Whether [MediaRecorder] is defined, from what [supported] stands
    for. *)
Definition defined (supported : option (string -> bool)) : bool :=
  match supported with Some _ => true | None => false end.

(** One capture session: a recorder is constructed, [start()] is
    called once, and events follow. *)
Definition session (maxDuration : option Z) (supported : option (string -> bool))
    (granted : option MediaStream) (fault : option Fault) (ctx : AudioContext) (now : Z)
    (evs : list Event) : StartResult * Recorder * list Effect :=
  (res <- start (defined supported) granted fault ctx now ;; deliver_all evs ;; ret res)
    (constructor maxDuration supported).

(** Counting effects in a trace. *)
Definition is_acquire (e : Effect) : bool :=
  match e with Acquire _ => true | _ => false end.
Definition is_release (e : Effect) : bool :=
  match e with Release _ => true | _ => false end.
Definition is_context_open (e : Effect) : bool :=
  match e with ContextOpen _ => true | _ => false end.
Definition is_context_close (e : Effect) : bool :=
  match e with ContextClose _ => true | _ => false end.
Definition is_max_reached (e : Effect) : bool :=
  match e with OnMaxReached _ => true | _ => false end.
Definition is_stop_resolved (e : Effect) : bool :=
  match e with StopResolved _ _ => true | _ => false end.

Definition count (p : Effect -> bool) (tr : list Effect) : nat :=
  List.length (filter p tr).

End AudioRecorder.

(* ================================================================== *)
(** * The 2D drawing context, as far as the renderer uses it *)
(* ================================================================== *)

Module Canvas.

(** What the renderer does to a [CanvasRenderingContext2D]: property
    assignments and method calls, in program order. *)
Inductive Call :=
| fillStyle (s : string)
| strokeStyle (s : string)
| font (s : string)
| textAlign (s : string)
| lineWidth (w : float)
| lineJoin (s : string)
| setLineDash (segments : list float)
| fillRect (x y w h : float)
| fillText (text : string) (x y : float)
| beginPath
| moveTo (x y : float)
| lineTo (x y : float)
| stroke
| fill.

Definition Point : Type := float * float.

(** A path is a list of sub-paths, oldest first; a sub-path is the
    list of its points, joined by straight segments in order. *)
Definition Subpath := list Point.
Definition Path := list Subpath.

(** What has been painted. *)
Inductive Painted :=
| Stroked (style : string) (p : Path)
| Filled (style : string) (p : Path)
| Rect (style : string) (x y w h : float)
| Text (style : string) (text : string) (x y : float).

Record Context := mkContext {
  ctx_fillStyle : string;
  ctx_strokeStyle : string;
  ctx_path : Path;
  ctx_painted : list Painted;   (* oldest first *)
}.

(** A fresh context: both styles are black and the path is empty. *)
Definition fresh : Context := mkContext "#000000" "#000000" [] [].

(** [lineTo] on a path: with no sub-path it starts one at the point;
    otherwise it extends the newest sub-path.  Coordinates are taken
    as they are passed: a path here is the path of the calls made, and
    the rule by which a canvas ignores a call with a coordinate that is
    not finite is left out. *)
Fixpoint extend (p : Path) (pt : Point) : Path :=
  match p with
  | [] => [[pt]]
  | [s] => [(s ++ [pt])%list]
  | s :: p' => s :: extend p' pt
  end.

Definition exec (c : Call) (k : Context) : Context :=
  match c with
  | fillStyle s => mkContext s (ctx_strokeStyle k) (ctx_path k) (ctx_painted k)
  | strokeStyle s => mkContext (ctx_fillStyle k) s (ctx_path k) (ctx_painted k)
  | font _ | textAlign _ | lineWidth _ | lineJoin _ | setLineDash _ => k
  | fillRect x y w h =>
      mkContext (ctx_fillStyle k) (ctx_strokeStyle k) (ctx_path k)
        (ctx_painted k ++ [Rect (ctx_fillStyle k) x y w h])%list
  | fillText t x y =>
      mkContext (ctx_fillStyle k) (ctx_strokeStyle k) (ctx_path k)
        (ctx_painted k ++ [Text (ctx_fillStyle k) t x y])%list
  | beginPath => mkContext (ctx_fillStyle k) (ctx_strokeStyle k) [] (ctx_painted k)
  | moveTo x y =>
      mkContext (ctx_fillStyle k) (ctx_strokeStyle k)
        (ctx_path k ++ [[(x, y)]])%list (ctx_painted k)
  | lineTo x y =>
      mkContext (ctx_fillStyle k) (ctx_strokeStyle k)
        (extend (ctx_path k) (x, y)) (ctx_painted k)
  | stroke =>
      mkContext (ctx_fillStyle k) (ctx_strokeStyle k) (ctx_path k)
        (ctx_painted k ++ [Stroked (ctx_strokeStyle k) (ctx_path k)])%list
  | fill =>
      mkContext (ctx_fillStyle k) (ctx_strokeStyle k) (ctx_path k)
        (ctx_painted k ++ [Filled (ctx_fillStyle k) (ctx_path k)])%list
  end.

Definition run (cs : list Call) (k : Context) : Context :=
  fold_left (fun k c => exec c k) cs k.

(** What a list of calls paints on a fresh context. *)
Definition painted (cs : list Call) : list Painted := ctx_painted (run cs fresh).

(** The paths stroked, and the paths filled, in a given style. *)
Fixpoint stroked_in (style : string) (ps : list Painted) : list Path :=
  match ps with
  | [] => []
  | Stroked s p :: ps' =>
      if String.eqb s style then p :: stroked_in style ps' else stroked_in style ps'
  | _ :: ps' => stroked_in style ps'
  end.

Fixpoint filled_in (style : string) (ps : list Painted) : list Path :=
  match ps with
  | [] => []
  | Filled s p :: ps' =>
      if String.eqb s style then p :: filled_in style ps' else filled_in style ps'
  | _ :: ps' => filled_in style ps'
  end.

Definition is_fillText (c : Call) : bool :=
  match c with fillText _ _ _ => true | _ => false end.

(** The segments of a sub-path: consecutive points. *)
Fixpoint segments (s : Subpath) : list (Point * Point) :=
  match s with
  | a :: (b :: _) as s' => (a, b) :: segments s'
  | _ => []
  end.

End Canvas.

(* ================================================================== *)
(** * notation.js: [NotationRenderer] *)
(* ================================================================== *)

Module NotationRenderer.
Import Canvas.

(** ** The inbound result document *)

Record Frame := mkFrame {
  timestamp_ms : float;
  frequency_hz : float;
  confidence : float;
}.

Record Candidate := mkCandidate {
  raga_name : string;
  raga_number : float;
  raga_confidence : float;
  arohana : list string;
  avarohana : list string;
}.

Record Gamaka := mkGamaka { gamaka_type : string }.

Record Result := mkResult {
  duration_s : float;
  reference_sa_hz : float;
  algorithm : string;
  unique_swaras : list string;
}.

(** The [<canvas>] element: its pixel size. *)
Record CanvasElement := mkCanvas { width : float; height : float }.

(** An element the renderer creates and fills through [innerHTML]. *)
Record Element := mkElement { className : string; innerHTML : string }.

(** What a container holds after a render: markup assigned to its
    [innerHTML], or the elements appended to it. *)
Inductive Content :=
| Markup (html : string)
| Children (nodes : list Element).

(** ** Strings *)

(** The double quote, for markup with quoted attributes. *)
Definition dq : string := String (ascii_of_nat 34) EmptyString.

(** [name="value"] *)
Definition attr (name value : string) : string :=
  name ++ "=" ++ dq ++ value ++ dq.

Definition string_of_nat (n : nat) : string :=
  NilEmpty.string_of_uint (Nat.to_uint n).

(** [l.join(sep)] *)
Definition join (sep : string) (l : list string) : string := String.concat sep l.

(** Upper-casing, on ASCII letters (strings are byte strings). *)
Definition upper_ascii (c : ascii) : ascii :=
  let n := nat_of_ascii c in
  if (97 <=? n)%nat && (n <=? 122)%nat then ascii_of_nat (n - 32) else c.

Fixpoint upper_all (s : string) : string :=
  match s with
  | EmptyString => EmptyString
  | String c s' => String (upper_ascii c) (upper_all s')
  end.

Definition is_ascii (c : ascii) : bool := (nat_of_ascii c <? 128)%nat.

Fixpoint all_ascii (s : string) : bool :=
  match s with
  | EmptyString => true
  | String c s' => is_ascii c && all_ascii s'
  end.

(** [s.toUpperCase()].  On ASCII text the letters [a] to [z] are
    replaced, one by one; text with a character outside ASCII goes
    through the platform's case mapping, [upperCase]. *)
Definition toUpperCase (upperCase : string -> string) (s : string) : string :=
  if all_ascii s then upper_all s else upperCase s.

(** The number of bytes of the character that a byte begins. *)
Definition lead_length (c : ascii) : nat :=
  let n := nat_of_ascii c in
  if (n <? 128)%nat then 1 else if (n <? 224)%nat then 2 else if (n <? 240)%nat then 3 else 4.

(** [type.charAt(0).toUpperCase() + type.slice(1)].  [charAt(0)] is the
    first character; for one beyond U+FFFF (four bytes here) it is a
    lone surrogate, which has no upper case. *)
Definition capitalize (upperCase : string -> string) (s : string) : string :=
  match s with
  | EmptyString => EmptyString
  | String c s' =>
      match lead_length c with
      | 1 => String (upper_ascii c) s'
      | 4 => s
      | n => upperCase (substring 0 n s) ++ substring n (String.length s - n) s
      end
  end.

(** [_esc]: the text is stored in a fresh element's [textContent] and
    read back through [innerHTML].  The platform serialises a text
    node by replacing [&], [<], [>] and the no-break space (U+00A0,
    bytes C2 A0 in a byte string). *)
Fixpoint _esc (str : string) : string :=
  match str with
  | EmptyString => EmptyString
  | String c rest =>
      if Ascii.eqb c "&" then "&amp;" ++ _esc rest
      else if Ascii.eqb c "<" then "&lt;" ++ _esc rest
      else if Ascii.eqb c ">" then "&gt;" ++ _esc rest
      else
        match rest with
        | String c' rest' =>
            if Ascii.eqb c (ascii_of_nat 194) && Ascii.eqb c' (ascii_of_nat 160)
            then "&nbsp;" ++ _esc rest'
            else String c (_esc rest)
        | EmptyString => String c EmptyString
        end
  end.

Section Render.

(** Number formatting is the platform's: [x.toFixed(d)] and the
    conversion of a number concatenated to a string. *)
Variable toFixed : float -> nat -> string.
Variable toString : float -> string.

(** So is the upper case of text that is not ASCII. *)
Variable upperCase : string -> string.

Local Open Scope float_scope.

(** ** Raga candidates *)

Definition rankClass (i : nat) : string :=
  match i with
  | 0%nat => "raga-rank--1"
  | 1%nat => "raga-rank--2"
  | 2%nat => "raga-rank--3"
  | _ => "raga-rank--default"
  end.

Definition raga_candidate (i : nat) (c : Candidate) : Element :=
  let pct := toFixed (raga_confidence c * 100) 0 in
  mkElement "raga-candidate"
    ("<span " ++ attr "class" ("raga-rank " ++ rankClass i) ++ ">"
       ++ string_of_nat (i + 1) ++ "</span>" ++
     "<div><span " ++ attr "class" "raga-name" ++ ">" ++ _esc (raga_name c) ++ "</span>" ++
     " <span " ++ attr "class" "raga-number" ++ ">Melakarta "
       ++ toString (raga_number c) ++ "</span></div>" ++
     "<div " ++ attr "class" "confidence-bar" ++ "><div "
       ++ attr "class" "confidence-fill" ++ " " ++ attr "style" "width:0%" ++
     " " ++ attr "data-target-width" (pct ++ "%") ++ "></div></div>" ++
     "<span " ++ attr "class" "confidence-pct" ++ ">" ++ pct ++ "%</span>" ++
     "<div " ++ attr "class" "raga-scale" ++ ">↑ " ++ join " " (arohana c) ++
     "  |  ↓ " ++ join " " (avarohana c) ++ "</div>").

Fixpoint raga_candidates_from (i : nat) (cs : list Candidate) : list Element :=
  match cs with
  | [] => []
  | c :: cs' => raga_candidate i c :: raga_candidates_from (S i) cs'
  end.

(** [renderRagas]: what the container holds afterwards (the width
    animation scheduled at the end is cosmetic and left out). *)
Definition renderRagas (candidates : list Candidate) : Content :=
  match candidates with
  | [] =>
      Markup ("<p " ++ attr "style" "color:var(--text-muted)"
                ++ ">No raga candidates identified.</p>")
  | _ => Children (raga_candidates_from 0 candidates)
  end.

(** ** Gamaka distribution *)

Definition GAMAKA_COLORS : list (string * string) :=
  [ ("kampita", "#dbb978"); ("jaru", "#66bb6a");
    ("sphuritham", "#e0a840"); ("steady", "#6b7394") ].

Fixpoint lookup {A} (k : string) (m : list (string * A)) : option A :=
  match m with
  | [] => None
  | (k', v) :: m' => if String.eqb k k' then Some v else lookup k m'
  end.

(** [counts[k] = (counts[k] || 0) + 1] on an object whose keys are
    enumerated in the order of their first insertion (labels are
    names; a key that is an array index would be enumerated first). *)
Fixpoint increment (k : string) (counts : list (string * nat)) : list (string * nat) :=
  match counts with
  | [] => [(k, 1%nat)]
  | (k', n) :: counts' =>
      if String.eqb k k' then (k', S n) :: counts'
      else (k', n) :: increment k counts'
  end.

Definition tally (gamakas : list Gamaka) : list (string * nat) :=
  fold_left (fun counts g => increment (gamaka_type g) counts) gamakas [].

Definition gamaka_item (entry : string * nat) : Element :=
  let (type, count) := entry in
  let color := match lookup type GAMAKA_COLORS with Some c => c | None => "#6b7394" end in
  mkElement "gamaka-item"
    ("<span " ++ attr "class" "gamaka-dot" ++ " "
       ++ attr "style" ("background:" ++ color ++ "; box-shadow: 0 0 8px " ++ color)
       ++ "></span>" ++
     "<div " ++ attr "class" "gamaka-info" ++ ">" ++
     "<span " ++ attr "class" "gamaka-name" ++ ">" ++ capitalize upperCase type ++ "</span>" ++
     "<span " ++ attr "class" "gamaka-count" ++ ">" ++ string_of_nat count
       ++ " segment" ++ (if Nat.eqb count 1 then "" else "s") ++ "</span>" ++
     "</div>").

(** [renderGamakas]: the items appended to the row. *)
Definition renderGamakas (gamakas : list Gamaka) : list Element :=
  map gamaka_item (tally gamakas).

(** ** Summary *)

Definition _summaryItem (label value : string) : string :=
  "<div " ++ attr "class" "summary-item" ++ ">" ++
  "<span " ++ attr "class" "summary-label" ++ ">" ++ label ++ "</span>" ++
  "<span " ++ attr "class" "summary-value" ++ ">" ++ _esc value ++ "</span></div>".

Definition renderSummary (result : Result) : string :=
  "<div " ++ attr "class" "summary-grid" ++ ">" ++
  _summaryItem "Duration" (toFixed (duration_s result) 1 ++ "s") ++
  _summaryItem "Reference Sa" (toString (reference_sa_hz result) ++ " Hz") ++
  _summaryItem "Algorithm" (toUpperCase upperCase (algorithm result)) ++
  _summaryItem "Swaras" (join ", " (unique_swaras result)) ++
  "</div>".

(** ** Pitch contour *)

Definition float_of_nat (n : nat) : float :=
  PrimFloat.of_uint63 (Uint63.of_Z (Z.of_nat n)).

Definition is_neg_zero (x : float) : bool :=
  match classify x with NZero => true | _ => false end.

(** [Math.min(...l)] and [Math.max(...l)]: a NaN argument makes the
    result NaN, and [-0] is below [+0]. *)
Definition min_step (lowest x : float) : float :=
  if is_nan lowest || is_nan x then nan
  else if x <? lowest then x
  else if is_neg_zero x && (lowest =? 0) then x
  else lowest.

Definition max_step (highest x : float) : float :=
  if is_nan highest || is_nan x then nan
  else if highest <? x then x
  else if is_neg_zero highest && (x =? 0) then x
  else highest.

Definition Math_min (l : list float) : float := fold_left min_step l infinity.
Definition Math_max (l : list float) : float := fold_left max_step l neg_infinity.

(** [f.frequency_hz > 0 && f.confidence > 0.2], the filter that
    selects the voiced frames. *)
Definition voiced (f : Frame) : bool :=
  (0 <? frequency_hz f) && (0.2 <? confidence f).

(** [f.frequency_hz <= 0 || f.confidence < 0.2], the test on which
    both drawing loops break the curve. *)
Definition unvoiced (f : Frame) : bool :=
  (frequency_hz f <=? 0) || (confidence f <? 0.2).

Definition padding_top : float := 20.
Definition padding_bottom : float := 30.
Definition padding_left : float := 55.
Definition padding_right : float := 15.

Definition nTicks : nat := 6.
Definition nYTicks : nat := 4.

Definition contour_style : string := "#5cc8d4".
Definition shading_style : string := "rgba(92, 200, 212, 0.08)".
Definition label_style : string := "#786e60".

(** The placeholder drawn for a missing or empty series. *)
Definition no_contour (canvas : CanvasElement) : list Call :=
  [ fillStyle "#0d1624";
    fillRect 0 0 (width canvas) (height canvas);
    fillStyle label_style;
    font "14px Inter, sans-serif";
    textAlign "center";
    fillText ("No contour data (enable " ++ dq ++ "include contour" ++ dq ++ " to see this)")
      (width canvas / 2) (height canvas / 2) ].

Section Plot.

Variable contour : list Frame.
Variable referenceSaHz : float.
Variable canvas : CanvasElement.

Definition W : float := width canvas.
Definition H : float := height canvas.
Definition plotW : float := W - padding_left - padding_right.
Definition plotH : float := H - padding_top - padding_bottom.

Definition freqs : list float := map frequency_hz (filter voiced contour).
Definition fMin : float := Math_min freqs * 0.9.
Definition fMax : float := Math_max freqs * 1.1.
Definition tMin : float := timestamp_ms (hd (mkFrame nan nan nan) contour).
Definition tMax : float := timestamp_ms (last contour (mkFrame nan nan nan)).

Definition xScale (ms : float) : float :=
  padding_left + ((ms - tMin) / (tMax - tMin)) * plotW.
Definition yScale (hz : float) : float :=
  padding_top + plotH - ((hz - fMin) / (fMax - fMin)) * plotH.

(** Where a frame is plotted. *)
Definition point (f : Frame) : Point :=
  (xScale (timestamp_ms f), yScale (frequency_hz f)).

Definition reference_line : list Call :=
  if (fMin <=? referenceSaHz) && (referenceSaHz <=? fMax) then
    let saY := yScale referenceSaHz in
    [ strokeStyle "rgba(197, 160, 89, 0.25)";
      setLineDash [6; 4];
      lineWidth 1;
      beginPath;
      moveTo padding_left saY;
      lineTo (W - padding_right) saY;
      stroke;
      setLineDash [];
      fillStyle "rgba(197, 160, 89, 0.5)";
      font "10px JetBrains Mono, monospace";
      textAlign "left";
      fillText ("Sa " ++ toString referenceSaHz ++ " Hz") (padding_left + 4) (saY - 4) ]
  else [].

Definition octave_line (hz : float) : list Call :=
  if (fMin <=? hz) && (hz <=? fMax) then
    let y := yScale hz in
    [ strokeStyle "rgba(197, 160, 89, 0.1)";
      setLineDash [3; 5];
      lineWidth 1;
      beginPath;
      moveTo padding_left y;
      lineTo (W - padding_right) y;
      stroke;
      setLineDash [] ]
  else [].

Definition octave_lines : list Call :=
  flat_map octave_line [referenceSaHz * 1.5; referenceSaHz * 2].

(** The first loop over the frames; [started] is the loop's flag. *)
Fixpoint line_loop (frames : list Frame) (started : bool) : list Call :=
  match frames with
  | [] => []
  | f :: frames' =>
      if unvoiced f then line_loop frames' false
      else
        let x := xScale (timestamp_ms f) in
        let y := yScale (frequency_hz f) in
        (if started then lineTo x y else moveTo x y) :: line_loop frames' true
  end.

Definition contour_line : list Call :=
  ([ strokeStyle contour_style; lineWidth 2; lineJoin "round"; beginPath ]
     ++ line_loop contour false ++ [ stroke ])%list.

(** The second loop, with its flag and [lastX], and the closing
    step after it. *)
Fixpoint shading_loop (frames : list Frame) (started : bool) (lastX : float)
    : list Call :=
  match frames with
  | [] =>
      if started then [ lineTo lastX (padding_top + plotH); fill ] else []
  | f :: frames' =>
      if unvoiced f then
        if started then
          ([ lineTo lastX (padding_top + plotH); fill; beginPath ]
             ++ shading_loop frames' false lastX)%list
        else shading_loop frames' started lastX
      else
        let x := xScale (timestamp_ms f) in
        let y := yScale (frequency_hz f) in
        ((if started then [ lineTo x y ]
          else [ moveTo x (padding_top + plotH); lineTo x y ])
           ++ shading_loop frames' true x)%list
  end.

Definition shading : list Call :=
  ([ fillStyle shading_style; beginPath ] ++ shading_loop contour false 0)%list.

Definition time_tick (i : nat) : list Call :=
  let t := tMin + (tMax - tMin) * (float_of_nat i / float_of_nat nTicks) in
  let x := xScale t in
  [ fillText (toFixed (t / 1000) 1 ++ "s") x (H - 6);
    strokeStyle "rgba(197, 160, 89, 0.06)";
    lineWidth 1;
    beginPath;
    moveTo x padding_top;
    lineTo x (padding_top + plotH);
    stroke ].

(** [for (let i = 0; i <= nTicks; i++)] *)
Definition time_axis : list Call :=
  ([ fillStyle label_style; font "10px JetBrains Mono, monospace"; textAlign "center" ]
     ++ flat_map time_tick (seq 0 (nTicks + 1)))%list.

Definition frequency_tick (i : nat) : list Call :=
  let hz := fMin + (fMax - fMin) * (float_of_nat i / float_of_nat nYTicks) in
  let y := yScale hz in
  [ fillStyle label_style;
    fillText (toFixed hz 0 ++ " Hz") (padding_left - 6) (y + 3) ].

(** [for (let i = 0; i <= nYTicks; i++)] *)
Definition frequency_axis : list Call :=
  ([ textAlign "right" ] ++ flat_map frequency_tick (seq 0 (nYTicks + 1)))%list.

(** The body of [renderContour] for a non-empty series. *)
Definition plot : list Call :=
  let clear := [ fillStyle "#0d1624"; fillRect 0 0 W H ] in
  match filter voiced contour with
  | [] => clear
  | _ =>
      (clear ++ reference_line ++ octave_lines ++ contour_line ++ shading
         ++ time_axis ++ frequency_axis)%list
  end.

End Plot.

(** [renderContour(contour, referenceSaHz, canvas)]: the calls made
    on the canvas context; [None] is a missing series. *)
Definition renderContour (contour : option (list Frame)) (referenceSaHz : float)
    (canvas : CanvasElement) : list Call :=
  match contour with
  | None | Some [] => no_contour canvas
  | Some frames => plot frames referenceSaHz canvas
  end.

End Render.

End NotationRenderer.

(* ================================================================== *)
(** * Vocabulary of the properties *)
(* ================================================================== *)

Section SubmissionVocabulary.
Import JS CRJApi.

(** The values of a possibly missing option that [||] replaces: a
    number that is zero or NaN, the empty string, [false]. *)
Definition falsy_num (v : option float) : Prop :=
  match v with Some x => truthy_num x = false | None => True end.

Definition falsy_str (v : option string) : Prop :=
  match v with Some s => s = "" | None => True end.

Definition falsy_bool (v : option bool) : Prop :=
  match v with Some b => b = false | None => True end.

(** The five fields as [option_fields] sends them. *)
Definition sent (options : Options) (fd : FormData) : Prop :=
  form_get "reference_sa_hz" fd = Some (FNumber (or_num (referenceSaHz options) 261.63%float)) /\
  form_get "algorithm" fd = Some (FString (or_str (algorithm options) "pyin")) /\
  form_get "script" fd = Some (FString (or_str (script options) "iast")) /\
  form_get "tolerance_cents" fd = Some (FNumber (or_num (toleranceCents options) 40%float)) /\
  form_get "include_contour" fd = Some (FBool (or_bool (includeContour options) false)).

(** Every falsy option is sent as its default, and neither the
    reference frequency nor the tolerance is sent as zero. *)
Definition defaults_replace_falsy (options : Options) (fd : FormData) : Prop :=
  (falsy_num (referenceSaHz options) ->
     form_get "reference_sa_hz" fd = Some (FNumber 261.63%float)) /\
  (falsy_str (algorithm options) -> form_get "algorithm" fd = Some (FString "pyin")) /\
  (falsy_str (script options) -> form_get "script" fd = Some (FString "iast")) /\
  (falsy_num (toleranceCents options) ->
     form_get "tolerance_cents" fd = Some (FNumber 40%float)) /\
  (falsy_bool (includeContour options) ->
     form_get "include_contour" fd = Some (FBool false)) /\
  (exists hz cents,
     form_get "reference_sa_hz" fd = Some (FNumber hz) /\
     form_get "tolerance_cents" fd = Some (FNumber cents) /\
     PrimFloat.eqb hz 0%float = false /\ PrimFloat.eqb cents 0%float = false).

End SubmissionVocabulary.

Section ControllerVocabulary.
Import JS UI.

Variable parseFloat : string -> float.

(** The request that [runAnalysis] fetches for a clip. *)
Definition request_for (v : Variant) (c : Controls) (clip : Clip) : CRJApi.Request :=
  match clip with
  | Picked f => CRJApi.analyzeFile f (getOptions parseFloat v c)
  | Recorded b => CRJApi.analyze b (getOptions parseFloat v c)
  end.

End ControllerVocabulary.

Section RecorderVocabulary.
Import JS AudioRecorder.

(** The recorder and the effects of a computation. *)
Definition recorder_of {A} (x : A * Recorder * list Effect) : Recorder := snd (fst x).
Definition effects_of {A} (x : A * Recorder * list Effect) : list Effect := snd x.

(** Device handles and audio contexts the recorder still holds. *)
Definition held (r : Recorder) : nat :=
  match stream r with Some _ => 1 | None => 0 end.
Definition open_contexts (r : Recorder) : nat :=
  match audioCtx r with Some _ => 1 | None => 0 end.

(** A stop event is queued whose handler resolves the promise the
    interval callback waits for. *)
Definition awaited_by_timer (r : Recorder) : bool :=
  match mediaRecorder r with
  | Some (mkMR _ (Some ByTimer) true) => true
  | _ => false
  end.

(** How many more times [onMaxReached] can be called: once while the
    interval is set, once while its stop event is queued. *)
Definition armed (r : Recorder) : nat :=
  (if timerInterval r then 1 else 0) + (if awaited_by_timer r then 1 else 0).

(** A tick at which the elapsed time has reached the maximum. *)
Definition expires (r : Recorder) (e : Event) : bool :=
  match e with
  | Tick now =>
      (maxDurationMs r <=? now - match startTime r with Some t => t | None => 0 end)%Z
  | _ => false
  end.

(** A call of [stop()] from outside. *)
Definition is_StopCall (e : Event) : bool :=
  match e with StopCall => true | _ => false end.

(** The states a recorder is in between events: never started,
    capturing, stopping (stop event queued) and stopped. *)
Definition consistent (r : Recorder) : Prop :=
  match mediaRecorder r with
  | None => stream r = None /\ audioCtx r = None /\ timerInterval r = false
  | Some (mkMR recording _ q) => timerInterval r = true /\ q = false
  | Some (mkMR inactive (Some _) true) => timerInterval r = false
  | Some (mkMR inactive None true) => False
  | Some (mkMR inactive _ false) =>
      timerInterval r = false /\ stream r = None /\ audioCtx r = None
  end.

(** The maximum duration of a session, from the arguments of
    [session]. *)
Definition session_max (maxDuration : option Z) (supported : option (string -> bool)) : Z :=
  maxDurationMs (constructor maxDuration supported).

(** A tick at which a session started at [start] has lasted [max]. *)
Definition expires_in_session (max start : Z) (e : Event) : bool :=
  match e with
  | Tick now => (max <=? now - start)%Z
  | _ => false
  end.

(** From then on [onMaxReached] is either still to come or has been
    called once. *)
Definition pending_or_fired (r : Recorder) (n : nat) : Prop :=
  (awaited_by_timer r = true /\ timerInterval r = false /\ n = 0) \/
  (armed r = 0 /\ n = 1).

(** A stop event is queued. *)
Definition stop_queued (r : Recorder) : bool :=
  match mediaRecorder r with
  | Some mr => mr_stop_queued mr
  | None => false
  end.

(** The result of [start()] in a session. *)
Definition result_of {A} (x : A * Recorder * list Effect) : A := fst (fst x).

(** A stop is under way or over: either the recorder still captures,
    or its stop event is queued, or a promise of [stop()] has resolved
    ([resolved]). *)
Definition stop_accounted (r : Recorder) (resolved : bool) : Prop :=
  mediaRecorder r <> None /\
  (is_recording r = true \/ stop_queued r = true \/ resolved = true).

(** Nothing is held any more, and as many devices were released (and
    contexts closed) as were acquired (and opened). *)
Definition all_released {A} (x : A * Recorder * list Effect) : Prop :=
  stream (recorder_of x) = None /\
  audioCtx (recorder_of x) = None /\
  count is_release (effects_of x) = count is_acquire (effects_of x) /\
  count is_context_close (effects_of x) = count is_context_open (effects_of x).

(** Nothing records, no interval is set and no stop event is queued:
    the recorder before [start()], after a [start()] that was denied
    or threw, and after a stop has completed. *)
Definition dormant (r : Recorder) : Prop :=
  is_recording r = false /\ timerInterval r = false /\ stop_queued r = false.

(** The recorder a [start()] that resolves leaves behind. *)
Definition capturing (maxDuration : option Z) (supported : option (string -> bool))
    (s : MediaStream) (ctx : AudioContext) (now : Z) : Recorder :=
  mkRecorder (session_max maxDuration supported) (_selectMimeType supported)
    (Some (mkMR recording None false)) [] (Some s) true (Some ctx) (Some now) true true.

End RecorderVocabulary.

Section RendererVocabulary.
Import Canvas NotationRenderer.

(** [r :: rs], unless [r] is empty. *)
Definition cons_nonempty (r : list Frame) (rs : list (list Frame)) : list (list Frame) :=
  match r with [] => rs | _ => r :: rs end.

(** [split_runs frames = (r, rs)]: [r] is the run of frames that are not
    unvoiced at the head of [frames] (empty when the head is unvoiced),
    [rs] are the later runs. *)
Fixpoint split_runs (frames : list Frame) : list Frame * list (list Frame) :=
  match frames with
  | [] => ([], [])
  | f :: rest =>
      let (r, rs) := split_runs rest in
      if unvoiced f then ([], cons_nonempty r rs) else (f :: r, rs)
  end.

(** The maximal runs of consecutive frames that are not unvoiced. *)
Definition runs (frames : list Frame) : list (list Frame) :=
  let (r, rs) := split_runs frames in cons_nonempty r rs.

(** The same, said without an algorithm: the series is cut at its
    unvoiced frames; each run is non-empty, holds no unvoiced frame,
    and is followed by an unvoiced frame or by the end of the series. *)
Inductive Segmented : list Frame -> list (list Frame) -> Prop :=
| Segmented_nil : Segmented [] []
| Segmented_gap f frames rs :
    unvoiced f = true -> Segmented frames rs -> Segmented (f :: frames) rs
| Segmented_run r frames rs :
    r <> [] ->
    Forall (fun f => unvoiced f = false) r ->
    (frames = [] \/ exists g frames', frames = g :: frames' /\ unvoiced g = true) ->
    Segmented frames rs ->
    Segmented (r ++ frames) (r :: rs).

Section Shapes.

Variable contour : list Frame.
Variable canvas : CanvasElement.

(** The bottom edge of the plotting rectangle. *)
Definition bottom : float := (padding_top + plotH canvas)%float.

(** The points of a run, then the point on the bottom edge below the
    last of them ([lastX] for an empty run). *)
Fixpoint shape_tail (lastX : float) (r : list Frame) : Subpath :=
  match r with
  | [] => [(lastX, bottom)]
  | f :: r' =>
      point contour canvas f :: shape_tail (xScale contour canvas (timestamp_ms f)) r'
  end.

(** The outline filled under a run: up from the bottom edge, along the
    run, and down to the bottom edge. *)
Definition shape (r : list Frame) : Subpath :=
  match r with
  | [] => []
  | f :: _ => (xScale contour canvas (timestamp_ms f), bottom) :: shape_tail 0%float r
  end.

End Shapes.

(** The [fillText] calls among a list of calls. *)
Definition texts (cs : list Call) : list Call := filter is_fillText cs.

(** Paint other than the pitch curve and its shading. *)
Definition other_paint (p : Painted) : bool :=
  match p with
  | Stroked s _ => negb (String.eqb s contour_style)
  | Filled s _ => negb (String.eqb s shading_style)
  | _ => true
  end.

(** Calls that paint nothing in the styles of the curve and of its
    shading, whatever the context they run in. *)
Definition harmless (cs : list Call) : Prop :=
  forall k, exists out,
    ctx_painted (run cs k) = (ctx_painted k ++ out)%list /\
    forallb other_paint out = true.

(** The text of a [fillText] call. *)
Definition text_of (c : Call) : string :=
  match c with fillText t _ _ => t | _ => "" end.

(** The value at tick [i] of [n] between [lo] and [hi]. *)
Definition tick_value (lo hi : float) (n i : nat) : float :=
  (lo + (hi - lo) * (float_of_nat i / float_of_nat n))%float.

(** Ten frames, 10 ms apart, at 220 Hz; the fourth to sixth have
    confidence 0.1, the others 0.9. *)
Definition ten_frames : list Frame :=
  [ mkFrame 0 220 0.9; mkFrame 10 220 0.9; mkFrame 20 220 0.9;
    mkFrame 30 220 0.1; mkFrame 40 220 0.1; mkFrame 50 220 0.1;
    mkFrame 60 220 0.9; mkFrame 70 220 0.9; mkFrame 80 220 0.9;
    mkFrame 90 220 0.9 ]%float.

(** Two voiced frames one second apart. *)
Definition two_frames : list Frame :=
  [ mkFrame 0 220 0.9; mkFrame 1000 230 0.9 ]%float.

(** A voiced frame at 200 Hz followed by a frame at 1000 Hz whose
    confidence is exactly 0.2. *)
Definition boundary_frames : list Frame :=
  [ mkFrame 0 200 0.9; mkFrame 10 1000 0.2 ]%float.

(** Whether a character occurs in a string. *)
Fixpoint has_char (a : ascii) (s : string) : bool :=
  match s with
  | EmptyString => false
  | String c s' => Ascii.eqb c a || has_char a s'
  end.

(** Text that is markup: an image tag with a handler. *)
Definition injected : string := "<img src=x onerror=alert(1)>".

(** The markup [renderRagas] builds for one candidate. *)
Definition raga_markup (toFixed : float -> nat -> string) (toString : float -> string)
    (c : Candidate) : string :=
  match renderRagas toFixed toString [c] with
  | Children [e] => innerHTML e
  | _ => ""
  end.

(** A context with another path. *)
Definition with_path (k : Context) (p : Path) : Context :=
  mkContext (ctx_fillStyle k) (ctx_strokeStyle k) p (ctx_painted k).

End RendererVocabulary.

(* ================================================================== *)
(** * api-client.js: what [analyze] makes of the response *)
(* ================================================================== *)

Module ApiResponse.
Import JS.

Section Response.

(** A parsed response body: any JSON value.  [is_null] tells the value
    [null]; [detail] reads the property of that name ([None]: the
    value has none). *)
Variable Doc : Type.
Variable is_null : Doc -> bool.

(** The values a [detail] property may hold, whether one is truthy,
    and the string [new Error(v)] makes of it. *)
Variable Value : Type.
Variable truthy : Value -> bool.
Variable to_string : Value -> string.
Variable detail : Doc -> option Value.

(** What [fetch] resolved with: [r.ok], [r.status], and the body as
    [r.json()] parses it ([None]: it does not parse). *)
Record Response := mkResponse {
  ok : bool;
  status : nat;
  json : option Doc;
}.

(** What [analyze] may throw: an [Error] of its own with a message,
    the [TypeError] of reading a property of [null], or the
    [SyntaxError] with which [r.json()] rejects. *)
Inductive Thrown :=
| Error (message : string)
| TypeError
| SyntaxError.

(** The end of [analyze] and of [analyzeFile]: the document returned,
    or what is thrown. *)
Definition settle (r : Response) : Doc + Thrown :=
  if negb (ok r) then
    (* err = await r.json().catch(() => ({ detail: 'Server error' })) *)
    match json r with
    | None => inr (Error "Server error")
    | Some err =>
        if is_null err then inr TypeError
        else
          (* throw new Error(err.detail || 'HTTP ' + r.status) *)
          let http := ("HTTP " ++ NotationRenderer.string_of_nat (status r))%string in
          match detail err with
          | Some v => inr (Error (if truthy v then to_string v else http))
          | None => inr (Error http)
          end
    end
  else
    match json r with
    | Some doc => inl doc
    | None => inr SyntaxError
    end.

End Response.

End ApiResponse.

(* ================================================================== *)
(** * ui.js: the handlers around a capture, and the live waveform *)
(* ================================================================== *)

Module Capture.
Import JS UI.

Section Handlers.

Variable parseFloat : string -> float.
Variable Result : Type.

(** [(ms / 1000).toFixed(1)] *)
Variable seconds : Z -> string.

Definition set_recordingStatus (text class : string) (p : Page Result) : Page Result :=
  mkPage Result (state p) text class
    (progressFill_width Result p) (processingMsg_text Result p)
    (lastResult p) (displayed p) (fetches p).

(** The [click] handler of the record button, once [recorder.start()]
    has settled; [failure] is the message of the error it threw, if
    any. *)
Definition btnRecord_click (v : Variant) (failure : option string) (p : Page Result)
    : Page Result :=
  let p := clearError Result p in
  match failure with
  | None =>
      let p := setState Result recording p in
      match v with
      | Primary => p
      | Legacy => set_recordingStatus "Recording…" (recordingStatus_class p) p
      end
  | Some message => showError Result ("Microphone error: " ++ message) p
  end.

(** The [onDurationUpdate] callback given to the recorder.  The primary
    controller writes to the timer display, which the page model does
    not hold. *)
Definition onDurationUpdate (v : Variant) (ms : Z) (p : Page Result) : Page Result :=
  match v with
  | Primary => p
  | Legacy =>
      set_recordingStatus ("Recording: " ++ seconds ms ++ "s / 30s") "recording-status" p
  end.

(** The [onMaxReached] callback given to the recorder. *)
Definition onMaxReached (v : Variant) (c : Controls) (blob : Blob) (p : Page Result)
    : Page Result :=
  let p :=
    set_recordingStatus
      match v with
      | Primary => "Max duration reached."
      | Legacy => "Max duration reached. Processing…"
      end (recordingStatus_class p) p in
  runAnalysis parseFloat Result v c (Recorded blob) p.

(** The [click] handler of the stop button, once [recorder.stop()] has
    resolved with [blob] ([None] is [null]). *)
Definition btnStop_click (v : Variant) (c : Controls) (blob : option Blob) (p : Page Result)
    : Page Result :=
  match blob with
  | Some b =>
      if (0 <? blob_size b)%Z
      then runAnalysis parseFloat Result v c (Recorded b) p
      else showError Result "No audio recorded." p
  | None => showError Result "No audio recorded." p
  end.

(** What the controller does on an effect of its recorder: the three
    callbacks it passed, and the continuation of its own [stop()]
    calls.  ([onWaveformData] draws on the waveform canvas only.) *)
Definition react (v : Variant) (c : Controls) (e : AudioRecorder.Effect) (p : Page Result)
    : Page Result :=
  match e with
  | AudioRecorder.OnDurationUpdate ms => onDurationUpdate v ms p
  | AudioRecorder.OnMaxReached blob => onMaxReached v c blob p
  | AudioRecorder.StopResolved AudioRecorder.ByCaller blob => btnStop_click v c blob p
  | _ => p
  end.

Definition react_all (v : Variant) (c : Controls) (tr : list AudioRecorder.Effect)
    (p : Page Result) : Page Result :=
  fold_left (fun p e => react v c e p) tr p.

End Handlers.

(** [drawWaveform] of the legacy controller ([web/js/ui.js]); [data] is
    the byte array of the analyser, [canvas] the waveform canvas. *)
Fixpoint waveform_loop (data : list nat) (i : nat) (x slice h : float)
    : list Canvas.Call :=
  match data with
  | [] => []
  | d :: data' =>
      let y := (NotationRenderer.float_of_nat d / 128.0 * (h / 2))%float in
      (if Nat.eqb i 0 then Canvas.moveTo x y else Canvas.lineTo x y)
        :: waveform_loop data' (S i) (x + slice)%float slice h
  end.

Definition waveform_style : string := "#4CAF50".

Definition drawWaveform (data : list nat) (canvas : NotationRenderer.CanvasElement)
    : list Canvas.Call :=
  let w := NotationRenderer.width canvas in
  let h := NotationRenderer.height canvas in
  let slice := (w / NotationRenderer.float_of_nat (List.length data))%float in
  ([ Canvas.fillStyle "#0d1b2a";
     Canvas.fillRect 0 0 w h;
     Canvas.strokeStyle waveform_style;
     Canvas.lineWidth 1.5;
     Canvas.beginPath ]
     ++ waveform_loop data 0 0%float slice h
     ++ [ Canvas.stroke ])%list.

End Capture.

(* ================================================================== *)
(** * Vocabulary of further properties *)
(* ================================================================== *)

Section CaptureVocabulary.
Import JS AudioRecorder.

Definition is_duration_update (e : Effect) : bool :=
  match e with OnDurationUpdate _ => true | _ => false end.

Definition is_waveform (e : Effect) : bool :=
  match e with OnWaveformData => true | _ => false end.

(** The clip leaves the recorder: to [onMaxReached], or to the caller
    of [stop()]. *)
Definition hands_over_clip (e : Effect) : bool :=
  match e with
  | OnMaxReached _ => true
  | StopResolved ByCaller (Some _) => true
  | _ => false
  end.

(** The stop event is queued and has a handler. *)
Definition handler_queued (r : Recorder) : bool :=
  match mediaRecorder r with
  | Some (mkMR _ (Some _) true) => true
  | _ => false
  end.

(** How many clips the recorder can still hand over. *)
Definition clips_due (r : Recorder) : nat :=
  (if is_recording r then 1 else 0) + (if handler_queued r then 1 else 0).

(** The chunks [ondataavailable] keeps of those the events deliver. *)
Definition kept_chunks (evs : list Event) : list Blob :=
  flat_map (fun e =>
              match e with
              | DataAvailable data => if (0 <? blob_size data)%Z then [data] else []
              | _ => []
              end) evs.

(** The media type a recorder gives its clip. *)
Definition clip_type (supported : option (string -> bool)) : string :=
  or_str (Some (_selectMimeType supported)) "audio/webm".

End CaptureVocabulary.

Section WaveformVocabulary.
Import Canvas.

(** The points of a waveform: sample [d] at height [d / 128 * (h / 2)],
    the samples [slice] apart from [x] on. *)
Fixpoint waveform_points (data : list nat) (x slice h : float) : Subpath :=
  match data with
  | [] => []
  | d :: data' =>
      (x, (NotationRenderer.float_of_nat d / 128.0 * (h / 2))%float)
        :: waveform_points data' (x + slice)%float slice h
  end.

End WaveformVocabulary.

Section MarkupVocabulary.
Import NotationRenderer.

(** The labels of a tally, in its order. *)
Definition labels (counts : list (string * nat)) : list string := map fst counts.

(** How often a label occurs among gamakas. *)
Definition occurrences (label : string) (gamakas : list Gamaka) : nat :=
  count_occ string_dec (map gamaka_type gamakas) label.

(** Whether the no-break space (bytes C2 A0) occurs in a string. *)
Fixpoint has_nbsp (s : string) : bool :=
  match s with
  | EmptyString => false
  | String c s' =>
      match s' with
      | String c' _ =>
          (Ascii.eqb c (ascii_of_nat 194) && Ascii.eqb c' (ascii_of_nat 160)) || has_nbsp s'
      | EmptyString => false
      end
  end.

(** The property names that every object inherits from
    [Object.prototype]: on the tally object they read as the inherited
    value, not as a missing count. *)
Definition inherited_keys : list string :=
  [ "constructor"; "hasOwnProperty"; "isPrototypeOf"; "propertyIsEnumerable";
    "toLocaleString"; "toString"; "valueOf"; "__proto__";
    "__defineGetter__"; "__defineSetter__"; "__lookupGetter__"; "__lookupSetter__" ].

Definition is_digit (c : ascii) : bool :=
  ((48 <=? nat_of_ascii c) && (nat_of_ascii c <=? 57))%nat.

(** Whether a string is a non-empty run of decimal digits; the array
    indices, which an object enumerates before its other keys, are
    among these. *)
Fixpoint digits_only (s : string) : bool :=
  match s with
  | EmptyString => false
  | String c EmptyString => is_digit c
  | String c s' => is_digit c && digits_only s'
  end.

(** A label on which the tally object behaves as a map that keeps the
    order of insertion: no inherited property name, and not a run of
    digits. *)
Definition plain_label (s : string) : bool :=
  negb (existsb (String.eqb s) inherited_keys) && negb (digits_only s).

Definition plain_labels (gamakas : list Gamaka) : Prop :=
  Forall (fun g => plain_label (gamaka_type g) = true) gamakas.

End MarkupVocabulary.


Section PlotVocabulary.
Import Canvas NotationRenderer.
Local Open Scope list_scope.

Variable toFixed : float -> nat -> string.
Variable toString : float -> string.
Variable contour : list Frame.
Variable referenceSaHz : float.
Variable canvas : CanvasElement.

Definition background_style : string := "#0d1624".
Definition reference_style : string := "rgba(197, 160, 89, 0.25)".
Definition reference_label_style : string := "rgba(197, 160, 89, 0.5)".
Definition octave_style : string := "rgba(197, 160, 89, 0.1)".
Definition grid_style : string := "rgba(197, 160, 89, 0.06)".

(** [hz >= fMin && hz <= fMax] *)
Definition in_bounds (hz : float) : bool :=
  ((fMin contour <=? hz) && (hz <=? fMax contour))%float.

(** The horizontal line across the plotting rectangle at a frequency. *)
Definition level (hz : float) : Path :=
  [[ (padding_left, yScale contour canvas hz);
     ((W canvas - padding_right)%float, yScale contour canvas hz) ]].

(** The vertical line through the plotting rectangle at an abscissa. *)
Definition upright (x : float) : Path :=
  [[ (x, padding_top); (x, bottom canvas) ]].

(** The whole canvas in the background colour. *)
Definition background : Painted :=
  Rect background_style 0 0 (W canvas) (H canvas).

(** The message shown in place of a plot. *)
Definition no_contour_message : Painted :=
  Text label_style
    ("No contour data (enable " ++ dq ++ "include contour" ++ dq ++ " to see this)")%string
    (W canvas / 2) (H canvas / 2).

Definition reference_mark : list Painted :=
  if in_bounds referenceSaHz then
    [ Stroked reference_style (level referenceSaHz);
      Text reference_label_style ("Sa " ++ toString referenceSaHz ++ " Hz")%string
        (padding_left + 4) (yScale contour canvas referenceSaHz - 4) ]
  else [].

Definition octave_mark (hz : float) : list Painted :=
  if in_bounds hz then [ Stroked octave_style (level hz) ] else [].

Definition curve : list Painted :=
  Stroked contour_style (map (map (point contour canvas)) (runs contour))
    :: map (fun r => Filled shading_style [shape contour canvas r]) (runs contour).

Definition time_mark (i : nat) : list Painted :=
  let t := tick_value (tMin contour) (tMax contour) nTicks i in
  [ Text label_style (toFixed (t / 1000) 1 ++ "s")%string
      (xScale contour canvas t) (H canvas - 6);
    Stroked grid_style (upright (xScale contour canvas t)) ].

Definition frequency_mark (i : nat) : list Painted :=
  let hz := tick_value (fMin contour) (fMax contour) nYTicks i in
  [ Text label_style (toFixed hz 0 ++ " Hz")%string
      (padding_left - 6) (yScale contour canvas hz + 3) ].

(** Everything a plot paints, oldest first. *)
Definition layers : list Painted :=
  background
    :: reference_mark
    ++ flat_map octave_mark [ (referenceSaHz * 1.5)%float; (referenceSaHz * 2)%float ]
    ++ curve
    ++ flat_map time_mark (seq 0 7)
    ++ flat_map frequency_mark (seq 0 5).

End PlotVocabulary.
(* ================================================================== *)
(** * Properties of the api client and of the controller *)
(* ================================================================== *)

Section Submission.
Import JS CRJApi.

Lemma or_num_falsy v d : falsy_num v -> or_num v d = d.
Proof. destruct v as [x|]; simpl; [intros ->|]; reflexivity. Qed.

Lemma or_str_falsy v d : falsy_str v -> or_str v d = d.
Proof. destruct v as [s|]; simpl; [intros ->|]; reflexivity. Qed.

Lemma or_bool_falsy v d : falsy_bool v -> or_bool v d = d.
Proof. destruct v as [b|]; simpl; [intros ->|]; reflexivity. Qed.

(** Whatever the option, a number sent after [|| d] with a truthy
    default is truthy: it is neither zero nor NaN. *)
Lemma or_num_truthy v d : truthy_num d = true -> truthy_num (or_num v d) = true.
Proof.
  intros Hd. destruct v as [x|]; simpl; [|exact Hd].
  destruct (truthy_num x) eqn:Hx; [exact Hx | exact Hd].
Qed.

Lemma analyze_fields blob options k :
  k <> "file" ->
  form_get k (req_body (analyze blob options)) = form_get k (option_fields options).
Proof.
  intros Hk. unfold analyze. cbn [req_body app form_get].
  destruct (String.eqb_spec k "file"); [contradiction | reflexivity].
Qed.

Lemma analyzeFile_fields file options k :
  k <> "file" ->
  form_get k (req_body (analyzeFile file options)) = form_get k (option_fields options).
Proof.
  intros Hk. unfold analyzeFile. cbn [req_body app form_get].
  destruct (String.eqb_spec k "file"); [contradiction | reflexivity].
Qed.

Lemma option_fields_sent options : sent options (option_fields options).
Proof. repeat split. Qed.

Lemma analyze_sent blob options : sent options (req_body (analyze blob options)).
Proof.
  unfold sent. rewrite !analyze_fields by discriminate. apply option_fields_sent.
Qed.

Lemma analyzeFile_sent file options : sent options (req_body (analyzeFile file options)).
Proof.
  unfold sent. rewrite !analyzeFile_fields by discriminate. apply option_fields_sent.
Qed.

Lemma truthy_num_nonzero x : truthy_num x = true -> PrimFloat.eqb x 0%float = false.
Proof.
  unfold truthy_num. destruct (PrimFloat.eqb x 0%float); [discriminate | reflexivity].
Qed.

Lemma sent_defaults options fd : sent options fd -> defaults_replace_falsy options fd.
Proof.
  intros (Hsa & Halg & Hscr & Htol & Hinc). unfold defaults_replace_falsy.
  repeat split.
  - intros H. rewrite Hsa, (or_num_falsy _ _ H). reflexivity.
  - intros H. rewrite Halg, (or_str_falsy _ _ H). reflexivity.
  - intros H. rewrite Hscr, (or_str_falsy _ _ H). reflexivity.
  - intros H. rewrite Htol, (or_num_falsy _ _ H). reflexivity.
  - intros H. rewrite Hinc, (or_bool_falsy _ _ H). reflexivity.
  - exists (or_num (referenceSaHz options) 261.63%float),
           (or_num (toleranceCents options) 40%float).
    repeat split; try assumption;
      apply truthy_num_nonzero, or_num_truthy; reflexivity.
Qed.

(** C10.  In the request of [analyze] and in that of [analyzeFile],
    every option whose value is falsy (a zero or NaN number, the
    empty string, [false], or a missing property) is sent as its
    default (261.63, "pyin", "iast", 40, false); hence neither the
    reference frequency nor the tolerance is ever sent as zero. *)
Theorem falsy_options_sent_as_defaults :
  forall (blob : Blob) (file : File) (options : Options),
    defaults_replace_falsy options (req_body (analyze blob options)) /\
    defaults_replace_falsy options (req_body (analyzeFile file options)).
Proof.
  intros. split; apply sent_defaults; [apply analyze_sent | apply analyzeFile_sent].
Qed.

(** The theorem at a request for zero tolerance and zero reference
    frequency, with empty selectors. *)
Lemma falsy_options_sent_as_defaults_witness :
  let options := mkOptions (Some 0%float) (Some "") (Some "") (Some 0%float) (Some false) in
  let fd := req_body (analyze (mkBlob 1 "audio/webm") options) in
  form_get "reference_sa_hz" fd = Some (FNumber 261.63%float) /\
  form_get "tolerance_cents" fd = Some (FNumber 40%float) /\
  form_get "algorithm" fd = Some (FString "pyin").
Proof.
  intros options fd.
  destruct (falsy_options_sent_as_defaults (mkBlob 1 "audio/webm")
              (mkFile "a.wav" 1 "audio/wav") options)
    as [(Hsa & Halg & _ & Htol & _) _].
  split; [apply Hsa; reflexivity | split; [apply Htol | apply Halg]; reflexivity].
Defined.

End Submission.

Section ControllerFacts.
Import JS UI.

Variable parseFloat : string -> float.
Variable Result : Type.

Local Abbreviation Page := (Page Result).
Local Abbreviation getOptions := (getOptions parseFloat).
Local Abbreviation runAnalysis := (runAnalysis parseFloat Result).
Local Abbreviation fileInput_change := (fileInput_change parseFloat Result).
Local Abbreviation request_for := (request_for parseFloat).

Lemma runAnalysis_state v c clip (p : Page) :
  state (runAnalysis v c clip p) = processing.
Proof. destruct clip; reflexivity. Qed.

Lemma runAnalysis_fetches v c clip (p : Page) :
  fetches (runAnalysis v c clip p) = (fetches p ++ [request_for v c clip])%list.
Proof. destruct clip; reflexivity. Qed.

Lemma showError_state msg (p : Page) : state (showError Result msg p) = idle.
Proof. reflexivity. Qed.

Lemma showError_fetches msg (p : Page) : fetches (showError Result msg p) = fetches p.
Proof. reflexivity. Qed.

Lemma fileInput_change_within v c f (p : Page) :
  (file_size f <= 10485760)%Z ->
  fileInput_change v c (Some f) p = runAnalysis v c (Picked f) (clearError Result p).
Proof.
  intros H. unfold UI.fileInput_change.
  destruct (Z.ltb_spec (10 * 1024 * 1024) (file_size f)); [lia | reflexivity].
Qed.

Lemma fileInput_change_above v c f (p : Page) :
  (10485760 < file_size f)%Z ->
  fileInput_change v c (Some f) p
  = showError Result "File too large (max 10 MB)." (clearError Result p).
Proof.
  intros H. unfold UI.fileInput_change.
  destruct (Z.ltb_spec (10 * 1024 * 1024) (file_size f)); [reflexivity | lia].
Qed.

(** C6.  In either copy of the controller, selecting a file of exactly
    10 485 760 bytes moves the controller to Processing and fetches one
    request carrying that file; selecting a file of 10 485 761 bytes or
    more fetches nothing, shows the file-too-large message and leaves
    the controller in Idle. *)
Theorem file_size_limit :
  forall (v : Variant) (c : Controls) (p : Page) (name type : string),
    (let f := mkFile name 10485760 type in
     let p' := fileInput_change v c (Some f) p in
     state p' = processing /\
     fetches p' = (fetches p ++ [CRJApi.analyzeFile f (getOptions v c)])%list) /\
    (forall size : Z,
        (10485761 <= size)%Z ->
        let p' := fileInput_change v c (Some (mkFile name size type)) p in
        state p' = idle /\
        fetches p' = fetches p /\
        recordingStatus_text p' = "File too large (max 10 MB)." /\
        recordingStatus_class p' = "recording-status error-msg").
Proof.
  intros v c p name type. split.
  - cbv zeta. rewrite fileInput_change_within by (simpl; lia).
    rewrite runAnalysis_state, runAnalysis_fetches. split; reflexivity.
  - intros size Hsize. cbv zeta.
    rewrite fileInput_change_above by (simpl; lia).
    repeat split.
Qed.

(** C7 (as amended).  The primary controller builds every request with
    [include_contour] true, whatever the controls hold; the legacy copy
    passes no contour option and its requests carry [false]. *)
Theorem include_contour_by_variant :
  forall (c : Controls) (clip : Clip) (p : Page),
    (exists r,
        fetches (runAnalysis Primary c clip p) = (fetches p ++ [r])%list /\
        CRJApi.form_get "include_contour" (CRJApi.req_body r) = Some (CRJApi.FBool true)) /\
    (exists r,
        fetches (runAnalysis Legacy c clip p) = (fetches p ++ [r])%list /\
        CRJApi.form_get "include_contour" (CRJApi.req_body r) = Some (CRJApi.FBool false)).
Proof.
  intros c clip p. split.
  - exists (request_for Primary c clip). split; [apply runAnalysis_fetches|].
    destruct clip; reflexivity.
  - exists (request_for Legacy c clip). split; [apply runAnalysis_fetches|].
    destruct clip; reflexivity.
Qed.

End ControllerFacts.

(** The size limit at a page in Results, for a file one byte over. *)
Lemma file_size_limit_witness :
  UI.state
    (UI.fileInput_change (fun _ => 261.63%float) unit UI.Legacy
       (UI.mkControls "261.63" "" "pyin" "iast")
       (Some (JS.mkFile "a.wav" 10485761 "audio/wav"))
       (UI.setState unit UI.results (UI.init unit))) = UI.idle.
Proof.
  exact (proj1 (proj2 (file_size_limit (fun _ => 261.63%float) unit UI.Legacy
                         (UI.mkControls "261.63" "" "pyin" "iast")
                         (UI.setState unit UI.results (UI.init unit))
                         "a.wav" "audio/wav") 10485761%Z ltac:(lia))).
Defined.

(** C7 fails as stated: the request the legacy controller builds for a
    recorded clip carries [include_contour] false. *)
Lemma legacy_request_without_contour :
  map (fun r => CRJApi.form_get "include_contour" (CRJApi.req_body r))
    (UI.fetches
       (UI.runAnalysis (fun _ => 261.63%float) unit UI.Legacy
          (UI.mkControls "261.63" "" "pyin" "iast")
          (UI.Recorded (JS.mkBlob 4096 "audio/webm;codecs=opus"))
          (UI.init unit)))
  = [Some (CRJApi.FBool false)].
Proof. reflexivity. Qed.

(* ================================================================== *)
(** * Properties of the recorder *)
(* ================================================================== *)

Section RecorderFacts.
Import JS AudioRecorder.

(** Case analysis on everything a method inspects, then evaluation. *)
Ltac unfold_methods :=
  cbv [deliver when timer_callback stop _cleanup onstop ondataavailable _drawLoop
       start deliver_all bind ret this assign emit is_recording
       set_mediaRecorder set_audioChunks set_stream set_analyserNode set_audioCtx
       set_startTime set_timerInterval set_frameRequested
       effects_of recorder_of held open_contexts armed awaited_by_timer expires
       consistent stop_queued stop_accounted
       maxDurationMs mimeType mediaRecorder audioChunks stream analyserNode audioCtx
       startTime timerInterval frameRequested mr_state mr_onstop mr_stop_queued
       fst snd negb orb andb].

Ltac inspect :=
  repeat (match goal with
          | |- context [match ?x with _ => _ end] => is_var x; destruct x
          | |- context [if ?b then _ else _] => is_var b; destruct b
          | |- context [(?a <=? ?b)%Z] => destruct (a <=? b)%Z eqn:?
          | |- context [(?a <? ?b)%Z] => destruct (a <? b)%Z eqn:?
          end; cbn).

Ltac step_cases e r :=
  destruct r as [max mime mr chunks st an ctx t0 timer frame];
  destruct e as [now| | |data|];
  unfold_methods; cbn; inspect.

Lemma deliver_release_balance e r :
  count is_release (effects_of (deliver e r)) + held (recorder_of (deliver e r)) = held r
  /\ count is_acquire (effects_of (deliver e r)) = 0.
Proof. step_cases e r; split; reflexivity. Qed.

Lemma deliver_context_balance e r :
  count is_context_close (effects_of (deliver e r)) + open_contexts (recorder_of (deliver e r))
  = open_contexts r
  /\ count is_context_open (effects_of (deliver e r)) = 0.
Proof. step_cases e r; split; reflexivity. Qed.

(** [deliver] never changes the configured maximum or the start time. *)
Lemma deliver_clock e r :
  maxDurationMs (recorder_of (deliver e r)) = maxDurationMs r /\
  startTime (recorder_of (deliver e r)) = startTime r.
Proof. step_cases e r; split; reflexivity. Qed.

(** Every resolution of a [stop()] promise comes after [_cleanup]. *)
Lemma deliver_resolved_released e r :
  (existsb is_stop_resolved (effects_of (deliver e r)) = true \/
   (stream r = None /\ audioCtx r = None)) ->
  stream (recorder_of (deliver e r)) = None /\ audioCtx (recorder_of (deliver e r)) = None.
Proof.
  step_cases e r; intros [H | [H1 H2]];
    try discriminate; try (split; reflexivity); try (split; assumption).
Qed.

Lemma deliver_consistent e r : consistent r -> consistent (recorder_of (deliver e r)).
Proof.
  step_cases e r; intros H; repeat split;
    try tauto; try discriminate; try (destruct H; discriminate).
Qed.

(** Each call of [onMaxReached] uses up one of the (at most two) ways it
    can still be called. *)
Lemma deliver_armed e r :
  count is_max_reached (effects_of (deliver e r)) + armed (recorder_of (deliver e r))
  <= armed r.
Proof. step_cases e r; lia. Qed.

(** Before the maximum nothing waits on behalf of the interval. *)
Lemma deliver_not_awaited e r :
  awaited_by_timer r = false ->
  expires r e = false ->
  awaited_by_timer (recorder_of (deliver e r)) = false /\
  count is_max_reached (effects_of (deliver e r)) = 0.
Proof.
  step_cases e r; intros H1 H2; try discriminate; split; reflexivity.
Qed.

(** An outside [stop()] leaves nothing for the interval to do. *)
Lemma deliver_StopCall_disarms r :
  awaited_by_timer r = false ->
  armed (recorder_of (deliver StopCall r)) = 0.
Proof.
  destruct r as [max mime mr chunks st an ctx t0 timer frame].
  unfold_methods; cbn; inspect; intros H; try discriminate; reflexivity.
Qed.

Lemma deliver_not_recording e r :
  is_recording r = false -> is_recording (recorder_of (deliver e r)) = false.
Proof. step_cases e r; intros H; try discriminate; reflexivity. Qed.

Lemma deliver_StopCall_not_recording r :
  is_recording (recorder_of (deliver StopCall r)) = false.
Proof.
  destruct r as [max mime mr chunks st an ctx t0 timer frame].
  unfold_methods; cbn; inspect; reflexivity.
Qed.

Lemma deliver_expiry_not_recording now r :
  consistent r -> expires r (Tick now) = true ->
  is_recording (recorder_of (deliver (Tick now) r)) = false.
Proof.
  destruct r as [max mime mr chunks st an ctx t0 timer frame].
  unfold_methods; cbn; inspect; intros H1 H2;
    try reflexivity; try discriminate; try (destruct H1; discriminate).
Qed.

(** Once nothing records, the stop event (if one is still queued)
    releases the device and closes the audio context. *)
Lemma deliver_StopEvent_releases r :
  consistent r -> is_recording r = false ->
  stream (recorder_of (deliver StopEvent r)) = None /\
  audioCtx (recorder_of (deliver StopEvent r)) = None.
Proof.
  destruct r as [max mime mr chunks st an ctx t0 timer frame].
  unfold_methods; cbn; inspect; intros H1 H2;
    try discriminate; try (split; reflexivity); tauto.
Qed.

(** While capturing, an event other than a [stop()] call or an expiring
    tick leaves the recorder capturing. *)
Lemma deliver_keeps_recording e r :
  consistent r -> is_recording r = true ->
  is_StopCall e = false -> expires r e = false ->
  is_recording (recorder_of (deliver e r)) = true.
Proof.
  step_cases e r; intros H1 H2 H3 H4;
    try reflexivity; try discriminate; try (destruct H1; discriminate).
Qed.

(** The expiring tick of a capturing recorder queues the stop event on
    behalf of the interval. *)
Lemma deliver_expiry_awaited now r :
  consistent r -> is_recording r = true -> expires r (Tick now) = true ->
  awaited_by_timer (recorder_of (deliver (Tick now) r)) = true /\
  timerInterval (recorder_of (deliver (Tick now) r)) = false /\
  count is_max_reached (effects_of (deliver (Tick now) r)) = 0.
Proof.
  destruct r as [max mime mr chunks st an ctx t0 timer frame].
  unfold_methods; cbn; inspect; intros H1 H2 H3;
    try discriminate; try (destruct H1; discriminate); repeat split.
Qed.

Lemma deliver_pending_or_fired e r n :
  consistent r ->
  pending_or_fired r n ->
  pending_or_fired (recorder_of (deliver e r))
    (n + count is_max_reached (effects_of (deliver e r))).
Proof.
  unfold pending_or_fired.
  step_cases e r; intros Hc [(H1 & H2 & H3) | (H1 & H2)]; subst;
    try discriminate; try (destruct Hc; discriminate);
    try (left; repeat split; fail); try (right; split; reflexivity).
Qed.

Lemma deliver_StopEvent_fires r n :
  pending_or_fired r n ->
  n + count is_max_reached (effects_of (deliver StopEvent r)) = 1.
Proof.
  unfold pending_or_fired.
  destruct r as [max mime mr chunks st an ctx t0 timer frame].
  unfold_methods; cbn; inspect; intros [(H1 & H2 & H3) | (H1 & H2)]; subst;
    try discriminate; reflexivity.
Qed.

Lemma deliver_stop_accounted e r b :
  consistent r ->
  stop_accounted r b ->
  stop_accounted (recorder_of (deliver e r))
    (b || existsb is_stop_resolved (effects_of (deliver e r))).
Proof.
  step_cases e r; intros Hc [Hm H]; (split; [discriminate || congruence|]);
    try tauto;
    destruct H as [H | [H | H]];
    try discriminate; try tauto; try (destruct Hc; discriminate).
Qed.

Lemma deliver_StopEvent_unqueues r :
  consistent r -> stop_queued (recorder_of (deliver StopEvent r)) = false.
Proof.
  destruct r as [max mime mr chunks st an ctx t0 timer frame].
  unfold_methods; cbn; inspect; intros H;
    try reflexivity; try (destruct H; discriminate); try contradiction; tauto.
Qed.

(** ** From one event to a list of events *)

Lemma count_app p (a b : list Effect) : count p (a ++ b) = count p a + count p b.
Proof. unfold count. rewrite filter_app, length_app. reflexivity. Qed.

Lemma deliver_all_cons e evs r :
  recorder_of (deliver_all (e :: evs) r)
  = recorder_of (deliver_all evs (recorder_of (deliver e r))) /\
  effects_of (deliver_all (e :: evs) r)
  = (effects_of (deliver e r)
       ++ effects_of (deliver_all evs (recorder_of (deliver e r))))%list.
Proof.
  cbn [deliver_all]. unfold bind, recorder_of, effects_of.
  destruct (deliver e r) as [[[] r1] o1]. cbn [fst snd].
  destruct (deliver_all evs r1) as [[[] r2] o2]. split; reflexivity.
Qed.

Lemma deliver_all_app evs1 evs2 r :
  recorder_of (deliver_all (evs1 ++ evs2) r)
  = recorder_of (deliver_all evs2 (recorder_of (deliver_all evs1 r))) /\
  effects_of (deliver_all (evs1 ++ evs2) r)
  = (effects_of (deliver_all evs1 r)
       ++ effects_of (deliver_all evs2 (recorder_of (deliver_all evs1 r))))%list.
Proof.
  revert r. induction evs1 as [|e evs1 IH]; intros r.
  - split; reflexivity.
  - cbn [app]. destruct (deliver_all_cons e (evs1 ++ evs2) r) as [-> ->].
    destruct (deliver_all_cons e evs1 r) as [-> ->].
    destruct (IH (recorder_of (deliver e r))) as [-> ->].
    rewrite app_assoc. split; reflexivity.
Qed.

Lemma deliver_all_one e r :
  recorder_of (deliver_all [e] r) = recorder_of (deliver e r) /\
  effects_of (deliver_all [e] r) = effects_of (deliver e r).
Proof.
  destruct (deliver_all_cons e [] r) as [-> ->]. cbn. rewrite app_nil_r. split; reflexivity.
Qed.

(** Induction over the events of a session, one event at a time. *)
Ltac by_events evs r :=
  revert r; induction evs as [|e evs IH]; intros r;
  [ cbn
  | let Hr := fresh in
    let He := fresh in
    destruct (deliver_all_cons e evs r) as [Hr He];
    rewrite ?Hr, ?He; clear Hr He ].

Lemma deliver_all_release_balance evs r :
  count is_release (effects_of (deliver_all evs r)) + held (recorder_of (deliver_all evs r))
  = held r
  /\ count is_acquire (effects_of (deliver_all evs r)) = 0.
Proof.
  by_events evs r; [split; reflexivity|].
  rewrite !count_app.
  destruct (deliver_release_balance e r) as [H1 H2].
  destruct (IH (recorder_of (deliver e r))) as [H3 H4]. lia.
Qed.

Lemma deliver_all_context_balance evs r :
  count is_context_close (effects_of (deliver_all evs r))
    + open_contexts (recorder_of (deliver_all evs r)) = open_contexts r
  /\ count is_context_open (effects_of (deliver_all evs r)) = 0.
Proof.
  by_events evs r; [split; reflexivity|].
  rewrite !count_app.
  destruct (deliver_context_balance e r) as [H1 H2].
  destruct (IH (recorder_of (deliver e r))) as [H3 H4]. lia.
Qed.

Lemma deliver_all_clock evs r :
  maxDurationMs (recorder_of (deliver_all evs r)) = maxDurationMs r /\
  startTime (recorder_of (deliver_all evs r)) = startTime r.
Proof.
  by_events evs r; [split; reflexivity|].
  destruct (IH (recorder_of (deliver e r))) as [-> ->]. apply deliver_clock.
Qed.

Lemma deliver_all_consistent evs r :
  consistent r -> consistent (recorder_of (deliver_all evs r)).
Proof.
  by_events evs r; [tauto|]. intros H. apply IH, deliver_consistent, H.
Qed.

Lemma deliver_all_resolved_released evs r :
  (existsb is_stop_resolved (effects_of (deliver_all evs r)) = true \/
   (stream r = None /\ audioCtx r = None)) ->
  stream (recorder_of (deliver_all evs r)) = None /\
  audioCtx (recorder_of (deliver_all evs r)) = None.
Proof.
  by_events evs r.
  - intros [H | H]; [discriminate | exact H].
  - rewrite existsb_app. intros [H | H].
    + apply orb_true_iff in H. destruct H as [H | H].
      * apply IH. right. apply deliver_resolved_released. left. exact H.
      * apply IH. left. exact H.
    + apply IH. right. apply deliver_resolved_released. right. exact H.
Qed.

Lemma deliver_all_armed evs r :
  count is_max_reached (effects_of (deliver_all evs r))
    + armed (recorder_of (deliver_all evs r)) <= armed r.
Proof.
  by_events evs r; [lia|].
  rewrite count_app.
  pose proof (deliver_armed e r). pose proof (IH (recorder_of (deliver e r))). lia.
Qed.

Lemma expires_after e' e r : expires (recorder_of (deliver e' r)) e = expires r e.
Proof.
  destruct (deliver_clock e' r) as [H1 H2]. unfold expires.
  destruct e; try reflexivity. rewrite H1, H2. reflexivity.
Qed.

Lemma deliver_all_not_awaited evs r :
  awaited_by_timer r = false ->
  Forall (fun e => expires r e = false) evs ->
  awaited_by_timer (recorder_of (deliver_all evs r)) = false /\
  count is_max_reached (effects_of (deliver_all evs r)) = 0.
Proof.
  by_events evs r; [intros Ha _; split; [exact Ha | reflexivity]|].
  intros Ha Hx. inversion Hx as [|? ? He Hevs]; subst.
  destruct (deliver_not_awaited e r Ha He) as [Ha' Hn].
  destruct (IH (recorder_of (deliver e r)) Ha') as [H1 H2].
  - eapply Forall_impl; [|exact Hevs]. intros e0 H0. cbn beta.
    rewrite expires_after. exact H0.
  - rewrite count_app. split; [exact H1 | lia].
Qed.

Lemma deliver_all_not_recording evs r :
  is_recording r = false -> is_recording (recorder_of (deliver_all evs r)) = false.
Proof.
  by_events evs r; [tauto|]. intros H. apply IH, deliver_not_recording, H.
Qed.

Lemma deliver_all_keeps_recording evs r :
  consistent r -> is_recording r = true ->
  Forall (fun e => is_StopCall e = false /\ expires r e = false) evs ->
  is_recording (recorder_of (deliver_all evs r)) = true.
Proof.
  by_events evs r; [tauto|].
  intros Hc Hr Hx. inversion Hx as [|? ? [He1 He2] Hevs]; subst.
  apply IH.
  - apply deliver_consistent, Hc.
  - apply deliver_keeps_recording; assumption.
  - eapply Forall_impl; [|exact Hevs]. intros e0 [H0 H1]. cbn beta.
    rewrite expires_after. split; assumption.
Qed.

Lemma deliver_all_pending_or_fired evs r n :
  consistent r ->
  pending_or_fired r n ->
  pending_or_fired (recorder_of (deliver_all evs r))
    (n + count is_max_reached (effects_of (deliver_all evs r))).
Proof.
  revert n. by_events evs r; intros n Hc H.
  - rewrite Nat.add_0_r. exact H.
  - rewrite count_app, Nat.add_assoc. apply IH.
    + apply deliver_consistent, Hc.
    + apply deliver_pending_or_fired; assumption.
Qed.

Lemma deliver_all_stop_accounted evs r b :
  consistent r ->
  stop_accounted r b ->
  stop_accounted (recorder_of (deliver_all evs r))
    (b || existsb is_stop_resolved (effects_of (deliver_all evs r))).
Proof.
  revert b. by_events evs r; intros b Hc H.
  - rewrite orb_false_r. exact H.
  - rewrite existsb_app, orb_assoc. apply IH.
    + apply deliver_consistent, Hc.
    + apply deliver_stop_accounted; assumption.
Qed.
(** ** Sessions *)

Lemma started_or_not (res : StartResult) : res = Started \/ res <> Started.
Proof. destruct res; [left; reflexivity | right; discriminate | right; discriminate]. Qed.

Lemma deliver_never_started e r :
  mediaRecorder r = None ->
  mediaRecorder (recorder_of (deliver e r)) = None /\
  (is_StopCall e = true -> existsb is_stop_resolved (effects_of (deliver e r)) = true).
Proof.
  destruct r as [max mime mr chunks st an ctx t0 timer frame]. cbn. intros ->.
  destruct e as [now| | |data|]; unfold_methods; cbn; inspect;
    (split; [reflexivity | intros Hs; first [discriminate | reflexivity]]).
Qed.

Lemma deliver_all_never_started evs r :
  mediaRecorder r = None -> mediaRecorder (recorder_of (deliver_all evs r)) = None.
Proof.
  by_events evs r; [tauto|]. intros H. apply IH, deliver_never_started, H.
Qed.

(** A session is its [start()], then its events. *)
Lemma session_unfold md sup granted fault ctx now evs :
  let x := session md sup granted fault ctx now evs in
  let y := start (defined sup) granted fault ctx now (constructor md sup) in
  result_of x = result_of y /\
  recorder_of x = recorder_of (deliver_all evs (recorder_of y)) /\
  effects_of x = (effects_of y ++ effects_of (deliver_all evs (recorder_of y)))%list.
Proof.
  cbv zeta. unfold session, bind.
  destruct (start (defined sup) granted fault ctx now (constructor md sup)) as [[res r0] tr0].
  unfold recorder_of, effects_of, result_of. cbn [fst snd].
  destruct (deliver_all evs r0) as [[[] r] tr].
  cbn. rewrite app_nil_r. repeat split.
Qed.

(** [start()] resolves exactly when the device is granted,
    [MediaRecorder] is defined and no platform call fails; it then
    leaves the recorder capturing. *)
Lemma start_resolves md sup granted fault ctx now :
  let y := start (defined sup) granted fault ctx now (constructor md sup) in
  (result_of y = Started <-> granted <> None /\ sup <> None /\ fault = None) /\
  (result_of y = Started ->
   exists s, granted = Some s /\
     recorder_of y = capturing md sup s ctx now /\
     effects_of y = [Acquire s; ContextOpen ctx; OnWaveformData]).
Proof.
  cbv zeta. destruct granted as [s|], fault as [[]|], sup as [f|]; cbn;
    (split; [split; [intros H; first [discriminate | repeat split; discriminate]
                    | intros (H1 & H2 & H3); first [congruence | reflexivity]]
            | intros H; first [discriminate | exists s; repeat split]]).
Qed.

(** A [start()] that does not resolve leaves the recorder dormant,
    holding what it had acquired by then. *)
Lemma start_fails md sup granted fault ctx now :
  let y := start (defined sup) granted fault ctx now (constructor md sup) in
  let r0 := recorder_of y in
  result_of y <> Started ->
  dormant r0 /\ armed r0 = 0 /\ frameRequested r0 = false /\
  stream r0 = granted /\
  match result_of y with
  | DeviceUnavailable => granted = None /\ r0 = constructor md sup /\ effects_of y = []
  | Threw AtAudioContext =>
      exists s, granted = Some s /\ audioCtx r0 = None /\ effects_of y = [Acquire s]
  | Threw _ =>
      exists s, granted = Some s /\ audioCtx r0 = Some ctx /\
        effects_of y = [Acquire s; ContextOpen ctx]
  | Started => False
  end.
Proof.
  cbv zeta. destruct granted as [s|], fault as [[]|], sup as [f|]; cbn; intros H;
    try (exfalso; apply H; reflexivity);
    unfold dormant; cbn; repeat split; exists s; repeat split.
Qed.

(** Where [MediaRecorder] is undefined, [start()] throws once the
    device is granted. *)
Lemma start_undefined md granted fault ctx now s :
  granted = Some s ->
  exists f, result_of (start (defined None) granted fault ctx now (constructor md None))
            = Threw f.
Proof. intros ->. destruct fault as [[]|]; cbn; eexists; reflexivity. Qed.

Lemma capturing_facts md sup s ctx now :
  let r0 := capturing md sup s ctx now in
  consistent r0 /\ is_recording r0 = true /\ held r0 = 1 /\ open_contexts r0 = 1 /\
  armed r0 = 1 /\ awaited_by_timer r0 = false /\ stop_accounted r0 false /\
  maxDurationMs r0 = session_max md sup /\ startTime r0 = Some now.
Proof. cbv zeta. repeat split; try reflexivity. discriminate. left. reflexivity. Qed.

(** ** Dormant recorders *)

(** On a dormant recorder an event changes nothing but what [stop()]
    releases: the recorder stays dormant, [onMaxReached] is not
    called, a [stop()] call resolves at once, and any other event
    leaves what is held as it is. *)
Lemma deliver_dormant e r :
  dormant r ->
  let r' := recorder_of (deliver e r) in
  dormant r' /\
  count is_max_reached (effects_of (deliver e r)) = 0 /\
  (is_StopCall e = true -> existsb is_stop_resolved (effects_of (deliver e r)) = true) /\
  (is_StopCall e = false ->
   stream r' = stream r /\ audioCtx r' = audioCtx r /\
   count is_release (effects_of (deliver e r)) = 0 /\
   count is_context_close (effects_of (deliver e r)) = 0).
Proof.
  unfold dormant.
  destruct r as [max mime mr chunks st an ctx t0 timer frame].
  destruct e as [now| | |data|]; unfold_methods; cbn; inspect;
    intros (H1 & H2 & H3); try discriminate;
    repeat split; try reflexivity; try assumption; try (intros Hs; discriminate);
    congruence.
Qed.

Lemma deliver_all_dormant evs r :
  dormant r ->
  let r' := recorder_of (deliver_all evs r) in
  dormant r' /\
  count is_max_reached (effects_of (deliver_all evs r)) = 0 /\
  (Forall (fun e => is_StopCall e = false) evs ->
   stream r' = stream r /\ audioCtx r' = audioCtx r /\
   count is_release (effects_of (deliver_all evs r)) = 0 /\
   count is_context_close (effects_of (deliver_all evs r)) = 0).
Proof.
  cbv zeta. by_events evs r; intros Hd.
  - repeat split; try apply Hd.
  - destruct (deliver_dormant e r Hd) as (Hd' & Hm & _ & Hq).
    destruct (IH _ Hd') as (Hd'' & Hm' & Hq').
    rewrite !count_app. split; [exact Hd''|]. split; [lia|].
    intros Hx. inversion Hx as [|? ? He Hevs]; subst.
    destruct (Hq' Hevs) as (-> & -> & -> & ->).
    destruct (Hq He) as (-> & -> & -> & ->). repeat split.
Qed.

Lemma dormant_not_armed r : dormant r -> armed r = 0 /\ awaited_by_timer r = false.
Proof.
  unfold dormant, armed, awaited_by_timer, stop_queued.
  destruct r as [max mime [[st [w|] q]|] chunks s an ctx t0 timer frame]; cbn;
    intros (H1 & -> & H3); try subst q; try (destruct w); split; reflexivity.
Qed.

(** After a [stop()] call on a dormant recorder nothing is held, and
    events do not change that. *)
Lemma dormant_stopped evs1 evs2 r :
  dormant r ->
  let x := deliver_all (evs1 ++ StopCall :: evs2) r in
  dormant (recorder_of x) /\
  stream (recorder_of x) = None /\ audioCtx (recorder_of x) = None /\
  existsb is_stop_resolved (effects_of x) = true.
Proof.
  intros Hd. cbv zeta.
  destruct (deliver_all_app evs1 (StopCall :: evs2) r) as [-> ->].
  destruct (deliver_all_cons StopCall evs2 (recorder_of (deliver_all evs1 r))) as [-> ->].
  destruct (deliver_all_dormant evs1 r Hd) as (Hd1 & _).
  destruct (deliver_dormant StopCall _ Hd1) as (Hd2 & _ & Hres & _).
  destruct (deliver_all_dormant evs2 _ Hd2) as (Hd3 & _).
  split; [exact Hd3|].
  rewrite !existsb_app, (Hres eq_refl), orb_true_r.
  destruct (deliver_all_resolved_released evs2
              (recorder_of (deliver StopCall (recorder_of (deliver_all evs1 r)))))
    as [H1 H2].
  { right. apply deliver_resolved_released. left. apply Hres. reflexivity. }
  repeat split; assumption.
Qed.

(** ** The shape of a session *)

(** The recorder and the effects of a session: those of the events
    delivered to the recorder that [start()] left, after the effects
    of [start()]. *)
Lemma session_shape md sup granted fault ctx now evs :
  let x := session md sup granted fault ctx now evs in
  exists r0 tr0,
    recorder_of x = recorder_of (deliver_all evs r0) /\
    effects_of x = (tr0 ++ effects_of (deliver_all evs r0))%list /\
    count is_acquire tr0 = held r0 /\ count is_release tr0 = 0 /\
    count is_context_open tr0 = open_contexts r0 /\ count is_context_close tr0 = 0 /\
    count is_max_reached tr0 = 0 /\ existsb is_stop_resolved tr0 = false /\
    held r0 = match granted with Some _ => 1 | None => 0 end /\
    armed r0 <= 1 /\ awaited_by_timer r0 = false /\
    maxDurationMs r0 = session_max md sup /\
    (result_of x = Started ->
     consistent r0 /\ is_recording r0 = true /\ startTime r0 = Some now /\
     stop_accounted r0 false) /\
    (result_of x <> Started -> dormant r0).
Proof.
  cbv zeta.
  destruct (session_unfold md sup granted fault ctx now evs) as (-> & -> & ->).
  eexists. eexists. split; [reflexivity|]. split; [reflexivity|].
  destruct granted as [s|], fault as [[]|], sup as [f|]; cbn;
    repeat split; try reflexivity; try discriminate; try lia;
    try (intros H; exfalso; apply H; reflexivity);
    try (left; reflexivity); congruence.
Qed.

Lemma expires_after_all evs e r : expires (recorder_of (deliver_all evs r)) e = expires r e.
Proof.
  destruct (deliver_all_clock evs r) as [H1 H2]. unfold expires.
  destruct e; try reflexivity. rewrite H1, H2. reflexivity.
Qed.

(** Once nothing records, the next stop event leaves nothing held and
    nothing queued. *)
Lemma wound_down evs r :
  consistent r -> is_recording r = false ->
  let r' := recorder_of (deliver_all (evs ++ [StopEvent]) r) in
  stream r' = None /\ audioCtx r' = None /\ stop_queued r' = false /\
  is_recording r' = false.
Proof.
  intros Hc Hr. cbv zeta.
  destruct (deliver_all_app evs [StopEvent] r) as [-> _].
  destruct (deliver_all_one StopEvent (recorder_of (deliver_all evs r))) as [-> _].
  pose proof (deliver_all_consistent evs r Hc) as Hc'.
  pose proof (deliver_all_not_recording evs r Hr) as Hr'.
  destruct (deliver_StopEvent_releases _ Hc' Hr') as [H1 H2].
  repeat split; try assumption.
  - apply deliver_StopEvent_unqueues, Hc'.
  - apply deliver_not_recording, Hr'.
Qed.

(** A [stop()] call or an expiring tick, followed later by the stop
    event, leaves nothing held and nothing queued. *)
Lemma stopped_after evs1 e evs2 r :
  consistent r ->
  is_StopCall e = true \/ expires r e = true ->
  let r' := recorder_of (deliver_all (evs1 ++ e :: evs2 ++ [StopEvent]) r) in
  stream r' = None /\ audioCtx r' = None /\ stop_queued r' = false /\
  is_recording r' = false.
Proof.
  intros Hc He. cbv zeta.
  destruct (deliver_all_app evs1 (e :: evs2 ++ [StopEvent]) r) as [-> _].
  destruct (deliver_all_cons e (evs2 ++ [StopEvent]) (recorder_of (deliver_all evs1 r)))
    as [-> _].
  pose proof (deliver_all_consistent evs1 r Hc) as Hc1.
  apply wound_down.
  - apply deliver_consistent, Hc1.
  - destruct He as [He | He].
    + destruct e; try discriminate. apply deliver_StopCall_not_recording.
    + rewrite <- (expires_after_all evs1) in He.
      destruct e; try discriminate. apply deliver_expiry_not_recording; assumption.
Qed.

Lemma consistent_idle r :
  consistent r -> is_recording r = false -> timerInterval r = false.
Proof.
  destruct r as [max mime [[[] [w|] []]|] chunks s an ctx t0 timer frame]; cbn;
    intros H1 H2; try discriminate; try contradiction; tauto.
Qed.

Lemma session_balance md sup granted fault ctx now evs :
  let x := session md sup granted fault ctx now evs in
  count is_release (effects_of x) + held (recorder_of x) = count is_acquire (effects_of x) /\
  count is_context_close (effects_of x) + open_contexts (recorder_of x)
  = count is_context_open (effects_of x).
Proof.
  cbv zeta.
  destruct (session_shape md sup granted fault ctx now evs)
    as (r0 & tr0 & -> & -> & Ha & Hr & Hco & Hcc & _).
  rewrite !count_app.
  destruct (deliver_all_release_balance evs r0).
  destruct (deliver_all_context_balance evs r0). lia.
Qed.

Lemma released_when_not_held md sup granted fault ctx now evs :
  let x := session md sup granted fault ctx now evs in
  stream (recorder_of x) = None -> audioCtx (recorder_of x) = None -> all_released x.
Proof.
  cbv zeta. intros H1 H2.
  destruct (session_balance md sup granted fault ctx now evs) as [Hb1 Hb2].
  unfold all_released. unfold held, open_contexts in *.
  rewrite H1 in Hb1. rewrite H2 in Hb2. repeat split; try assumption; lia.
Qed.

Lemma session_resolved_released md sup granted fault ctx now evs :
  let x := session md sup granted fault ctx now evs in
  existsb is_stop_resolved (effects_of x) = true -> all_released x.
Proof.
  cbv zeta. intros H.
  destruct (session_shape md sup granted fault ctx now evs)
    as (r0 & tr0 & Er & Ee & _ & _ & _ & _ & _ & Hres & _).
  rewrite Ee, existsb_app, Hres in H. cbn [orb] in H.
  destruct (deliver_all_resolved_released evs r0 (or_introl H)) as [H1 H2].
  apply released_when_not_held; rewrite Er; assumption.
Qed.

(** The state a session is in after a [stop()] call, or after an
    expiring tick when [start()] had resolved, once the stop event
    has come. *)
Lemma session_wound_down md sup granted fault ctx now evs1 e evs2 :
  let x := session md sup granted fault ctx now (evs1 ++ e :: evs2 ++ [StopEvent]) in
  is_StopCall e = true \/
  (expires_in_session (session_max md sup) now e = true /\ result_of x = Started) ->
  let r' := recorder_of x in
  stream r' = None /\ audioCtx r' = None /\ stop_queued r' = false /\
  is_recording r' = false /\ timerInterval r' = false /\
  existsb is_stop_resolved (effects_of x) = true.
Proof.
  cbv zeta. intros He.
  destruct (session_shape md sup granted fault ctx now (evs1 ++ e :: evs2 ++ [StopEvent]))
    as (r0 & tr0 & Er & Ee & _ & _ & _ & _ & _ & Hres & _ & _ & _ & Hmax & Hyes & Hno).
  destruct (started_or_not
              (result_of (session md sup granted fault ctx now
                            (evs1 ++ e :: evs2 ++ [StopEvent])))) as [Hs | Hs].
  - destruct (Hyes Hs) as (Hc & Hrec & Hst & Hacc).
    destruct (stopped_after evs1 e evs2 r0 Hc) as (H1 & H2 & H3 & H4).
    { destruct He as [He | [He _]]; [left; exact He | right].
      destruct e; try discriminate. cbn in He |- *. rewrite Hmax, Hst. exact He. }
    rewrite Er, Ee. repeat split; try assumption.
    + apply consistent_idle; [apply deliver_all_consistent, Hc | exact H4].
    + rewrite existsb_app, Hres. cbn [orb].
      pose proof (deliver_all_stop_accounted (evs1 ++ e :: evs2 ++ [StopEvent]) _ _ Hc Hacc)
        as [_ Hd].
      rewrite H3, H4 in Hd. cbn [orb] in Hd.
      destruct Hd as [Hd | [Hd | Hd]]; try discriminate. exact Hd.
  - destruct He as [He | [_ He]]; [|contradiction].
    destruct e; try discriminate.
    rewrite Er, Ee.
    destruct (dormant_stopped evs1 (evs2 ++ [StopEvent]) r0 (Hno Hs))
      as ((H1 & H2 & H3) & H4 & H5 & H6).
    repeat split; try assumption.
    rewrite existsb_app, H6. apply orb_true_r.
Qed.

Lemma session_stopped md sup granted fault ctx now evs1 e evs2 :
  let x := session md sup granted fault ctx now (evs1 ++ e :: evs2 ++ [StopEvent]) in
  is_StopCall e = true \/
  (expires_in_session (session_max md sup) now e = true /\ result_of x = Started) ->
  all_released x /\ existsb is_stop_resolved (effects_of x) = true.
Proof.
  cbv zeta. intros He.
  destruct (session_wound_down md sup granted fault ctx now evs1 e evs2 He)
    as (H1 & H2 & _ & _ & _ & H3).
  split; [apply released_when_not_held; assumption | exact H3].
Qed.

Lemma session_acquires md sup granted fault ctx now evs :
  count is_acquire (effects_of (session md sup granted fault ctx now evs))
  = match granted with Some _ => 1 | None => 0 end.
Proof.
  destruct (session_shape md sup granted fault ctx now evs)
    as (r0 & tr0 & _ & -> & Ha & _ & _ & _ & _ & _ & Hh & _).
  rewrite count_app, Ha, Hh.
  destruct (deliver_all_release_balance evs r0) as [_ ->]. lia.
Qed.

Lemma session_denied_released md sup fault ctx now evs :
  let x := session md sup None fault ctx now evs in
  result_of x = DeviceUnavailable /\ all_released x.
Proof.
  cbv zeta.
  destruct (session_unfold md sup None fault ctx now evs) as (Hres & Hr & _).
  split; [rewrite Hres; reflexivity|].
  apply released_when_not_held; rewrite Hr;
    apply deliver_all_resolved_released; right; split; reflexivity.
Qed.

(** A session whose [start()] threw: the device is held, and stays held
    through every event that is not a call of [stop()]. *)
Lemma session_threw md sup granted fault ctx now evs f :
  let x := session md sup granted fault ctx now evs in
  result_of x = Threw f ->
  Forall (fun e => is_StopCall e = false) evs ->
  exists s,
    granted = Some s /\
    stream (recorder_of x) = Some s /\
    count is_release (effects_of x) = 0 /\
    count is_context_close (effects_of x) = 0 /\
    audioCtx (recorder_of x)
    = (match f with AtAudioContext => None | _ => Some ctx end) /\
    count is_context_open (effects_of x)
    = (match f with AtAudioContext => 0 | _ => 1 end).
Proof.
  cbv zeta. intros Hres Hq.
  destruct (session_unfold md sup granted fault ctx now evs) as (E1 & E2 & E3).
  rewrite E1 in Hres. rewrite E2, E3.
  destruct (start_fails md sup granted fault ctx now) as (Hd & _ & _ & Hst & Hcase).
  { rewrite Hres. discriminate. }
  destruct (deliver_all_dormant evs _ Hd) as (_ & _ & Hkeep).
  destruct (Hkeep Hq) as (Ks & Kc & Kr & Kcc).
  destruct (deliver_all_context_balance evs
              (recorder_of (start (defined sup) granted fault ctx now (constructor md sup))))
    as [_ Kco].
  rewrite Ks, Kc, !count_app, Kr, Kcc, Kco, !Nat.add_0_r.
  rewrite Hres in Hcase.
  destruct f; destruct Hcase as (s & -> & Hctx & Heff); exists s;
    rewrite Hst, Hctx, Heff; repeat split.
Qed.

(** C2.  In every capture session -- a recorder is constructed,
    [start()] is called once, and any events follow -- the devices
    released plus the one still held are exactly the devices acquired,
    and likewise for audio contexts.  When [getUserMedia] rejects,
    nothing is acquired and nothing is held.  Whenever a promise of
    [stop()] has resolved, nothing is held.  An explicit [stop()]
    followed by the stop event resolves such a promise, and so does
    the expiring tick of a session whose [start()] resolved.  But a
    [start()] that throws after the device was granted releases
    nothing: the recorder goes on holding the device (and the audio
    context, when one was opened) through every later event that is
    not a call of [stop()], so that the session shows an acquisition
    and no release.  This is what happens whenever [MediaRecorder] is
    undefined. *)
Theorem handles_held_after_start_throws :
  forall (maxDuration : option Z) (supported : option (string -> bool))
         (granted : option MediaStream) (fault : option Fault)
         (ctx : AudioContext) (now : Z) (evs : list Event),
    let x := session maxDuration supported granted fault ctx now evs in
    (count is_release (effects_of x) + held (recorder_of x)
     = count is_acquire (effects_of x) /\
     count is_context_close (effects_of x) + open_contexts (recorder_of x)
     = count is_context_open (effects_of x) /\
     count is_acquire (effects_of x) = match granted with Some _ => 1 | None => 0 end) /\
    (granted = None -> result_of x = DeviceUnavailable /\ all_released x) /\
    (result_of x = Started <-> granted <> None /\ supported <> None /\ fault = None) /\
    (existsb is_stop_resolved (effects_of x) = true -> all_released x) /\
    (forall evs1 evs2,
        evs = (evs1 ++ StopCall :: evs2 ++ [StopEvent])%list ->
        existsb is_stop_resolved (effects_of x) = true /\ all_released x) /\
    (forall evs1 t evs2,
        evs = (evs1 ++ Tick t :: evs2 ++ [StopEvent])%list ->
        (session_max maxDuration supported <= t - now)%Z ->
        result_of x = Started ->
        existsb is_stop_resolved (effects_of x) = true /\ all_released x) /\
    (forall f,
        result_of x = Threw f ->
        Forall (fun e => is_StopCall e = false) evs ->
        exists s,
          granted = Some s /\
          stream (recorder_of x) = Some s /\
          count is_acquire (effects_of x) = 1 /\
          count is_release (effects_of x) = 0 /\
          count is_context_close (effects_of x) = 0 /\
          audioCtx (recorder_of x)
          = (match f with AtAudioContext => None | _ => Some ctx end) /\
          ~ all_released x).
Proof.
  intros md sup granted fault ctx now evs x. subst x.
  split; [|split; [|split; [|split; [|split; [|split]]]]].
  - destruct (session_balance md sup granted fault ctx now evs) as [H1 H2].
    repeat split; try assumption. apply session_acquires.
  - intros ->. apply session_denied_released.
  - destruct (session_unfold md sup granted fault ctx now evs) as (-> & _).
    apply start_resolves.
  - apply session_resolved_released.
  - intros evs1 evs2 ->.
    destruct (session_stopped md sup granted fault ctx now evs1 StopCall evs2) as [H1 H2].
    + left. reflexivity.
    + split; assumption.
  - intros evs1 t evs2 -> Ht Hs.
    destruct (session_stopped md sup granted fault ctx now evs1 (Tick t) evs2) as [H1 H2].
    + right. split; [cbn; apply Z.leb_le; exact Ht | exact Hs].
    + split; assumption.
  - intros f Hres Hq.
    destruct (session_threw md sup granted fault ctx now evs f Hres Hq)
      as (s & Hg & Hs & Hr & Hcc & Hctx & _).
    exists s. subst granted. rewrite session_acquires.
    split; [reflexivity|]. split; [exact Hs|]. split; [reflexivity|].
    split; [exact Hr|]. split; [exact Hcc|]. split; [exact Hctx|].
    intros (Hnone & _). rewrite Hs in Hnone. discriminate.
Qed.

Lemma stop_idle w r :
  timerInterval r = false -> is_recording r = false ->
  stream r = None -> audioCtx r = None ->
  stop w r = (tt, r, [StopResolved w None]).
Proof.
  destruct r as [max mime mr chunks st an ctx t0 timer frame].
  unfold_methods; cbn; inspect; intros H1 H2 H3 H4;
    try discriminate; reflexivity.
Qed.

Lemma stop_not_recording w r :
  is_recording r = false ->
  is_recording (recorder_of (stop w r)) = false /\
  exists tr,
    effects_of (stop w r) = (tr ++ [StopResolved w None])%list /\
    Forall (fun e => is_release e || is_context_close e = true) tr.
Proof.
  destruct r as [max mime mr chunks st an ctx t0 timer frame].
  unfold_methods; cbn; inspect; intros H; try discriminate; (split; [reflexivity|]);
    first [ exists []; split; [reflexivity | repeat constructor]
          | eexists [_]; split; [reflexivity | repeat constructor]
          | eexists [_; _]; split; [reflexivity | repeat constructor] ].
Qed.

(** C8.  [stop()] on a recorder that was never started resolves with
    [null] and changes nothing.  More generally, whenever nothing is
    recording, [stop()] resolves with [null], and all it does besides
    is release what is still held.  After a capture has been stopped
    (a [stop()] call, then the stop event), a further [stop()]
    resolves with [null] and changes nothing; this holds as well when
    [start()] was denied or threw. *)
Theorem stop_is_idempotent :
  (forall maxDuration supported w,
      stop w (constructor maxDuration supported)
      = (tt, constructor maxDuration supported, [StopResolved w None])) /\
  (forall r w,
      is_recording r = false ->
      is_recording (recorder_of (stop w r)) = false /\
      exists tr,
        effects_of (stop w r) = (tr ++ [StopResolved w None])%list /\
        Forall (fun e => is_release e || is_context_close e = true) tr) /\
  (forall maxDuration supported granted fault ctx now evs1 evs2 w,
      let r := recorder_of (session maxDuration supported granted fault ctx now
                              (evs1 ++ StopCall :: evs2 ++ [StopEvent])) in
      stop w r = (tt, r, [StopResolved w None])).
Proof.
  split; [|split].
  - reflexivity.
  - intros r w. apply stop_not_recording.
  - intros md sup granted fault ctx now evs1 evs2 w. cbv zeta.
    destruct (session_wound_down md sup granted fault ctx now evs1 StopCall evs2
                (or_introl eq_refl)) as (H1 & H2 & _ & H4 & H5 & _).
    apply stop_idle; assumption.
Qed.

(** The theorem at a recorder whose stop event is still queued: a second
    [stop()] resolves with [null]. *)
Lemma stop_is_idempotent_witness :
  exists tr,
    effects_of (stop ByCaller
                  (recorder_of (deliver StopCall
                                  (capturing None (Some (fun _ => false)) 7 1 0))))
    = (tr ++ [StopResolved ByCaller None])%list.
Proof.
  destruct (proj1 (proj2 stop_is_idempotent)
              (recorder_of (deliver StopCall
                              (capturing None (Some (fun _ => false)) 7 1 0)))
              ByCaller eq_refl) as (_ & tr & Htr & _).
  exists tr. exact Htr.
Defined.

Lemma expires_session md sup now r0 e :
  maxDurationMs r0 = session_max md sup ->
  startTime r0 = Some now ->
  expires r0 e = expires_in_session (session_max md sup) now e.
Proof. intros H1 H2. destruct e; cbn; try reflexivity. rewrite H1, H2. reflexivity. Qed.

Lemma Forall_expires md sup now r0 (P : Event -> Prop) evs :
  maxDurationMs r0 = session_max md sup ->
  startTime r0 = Some now ->
  Forall (fun e => P e /\ expires_in_session (session_max md sup) now e = false) evs ->
  Forall (fun e => P e /\ expires r0 e = false) evs.
Proof.
  intros H1 H2. apply Forall_impl. intros e [Hp He]. split; [exact Hp|].
  rewrite (expires_session md sup now r0 e H1 H2). exact He.
Qed.

Lemma session_fired_le md sup granted fault ctx now evs :
  count is_max_reached (effects_of (session md sup granted fault ctx now evs)) <= 1.
Proof.
  destruct (session_shape md sup granted fault ctx now evs)
    as (r0 & tr0 & _ & -> & _ & _ & _ & _ & Hm & _ & _ & Ha & _).
  rewrite count_app, Hm. pose proof (deliver_all_armed evs r0). lia.
Qed.

(** From a recorder as [start()] left it: no expiring tick, no call. *)
Lemma quiet_not_fired md sup now evs r0 :
  awaited_by_timer r0 = false ->
  maxDurationMs r0 = session_max md sup ->
  startTime r0 = Some now \/ armed r0 = 0 ->
  Forall (fun e => expires_in_session (session_max md sup) now e = false) evs ->
  awaited_by_timer (recorder_of (deliver_all evs r0)) = false /\
  count is_max_reached (effects_of (deliver_all evs r0)) = 0.
Proof.
  intros Ha Hmax [Hstart | Harm] Hq.
  - apply deliver_all_not_awaited; [exact Ha|].
    eapply Forall_impl; [|exact Hq]. intros e He. cbn beta.
    rewrite (expires_session md sup now r0 e Hmax Hstart). exact He.
  - pose proof (deliver_all_armed evs r0) as H. rewrite Harm in H.
    unfold armed in H.
    destruct (awaited_by_timer (recorder_of (deliver_all evs r0))).
    + destruct (timerInterval (recorder_of (deliver_all evs r0))); lia.
    + split; [reflexivity | lia].
Qed.

(** C3.  In every capture session [onMaxReached] is called at most
    once.  It is not called unless some tick found the elapsed time at
    or over the maximum, nor when [stop()] was called before any such
    tick (however shortly before).  In a session whose [start()]
    resolved, the first such tick, when no [stop()] call came before
    it, does lead to the call once the stop event arrives; in a
    session whose [start()] did not resolve no interval is set and
    the call is never made. *)
Theorem max_reached_at_most_once :
  forall (maxDuration : option Z) (supported : option (string -> bool))
         (granted : option MediaStream) (fault : option Fault)
         (ctx : AudioContext) (now : Z) (evs : list Event),
    let x := session maxDuration supported granted fault ctx now evs in
    let fired := count is_max_reached (effects_of x) in
    let expiring := expires_in_session (session_max maxDuration supported) now in
    fired <= 1 /\
    (Forall (fun e => expiring e = false) evs -> fired = 0) /\
    (forall evs1 evs2,
        evs = (evs1 ++ StopCall :: evs2)%list ->
        Forall (fun e => expiring e = false) evs1 ->
        fired = 0) /\
    (forall evs1 t evs2,
        result_of x = Started ->
        evs = (evs1 ++ Tick t :: evs2 ++ [StopEvent])%list ->
        Forall (fun e => is_StopCall e = false /\ expiring e = false) evs1 ->
        expiring (Tick t) = true ->
        fired = 1) /\
    (result_of x <> Started -> fired = 0).
Proof.
  intros md sup granted fault ctx now evs x fired expiring. subst x fired expiring.
  split; [apply session_fired_le|].
  destruct (session_shape md sup granted fault ctx now evs)
    as (r0 & tr0 & _ & -> & _ & _ & _ & _ & Hm & _ & _ & Harm & Ha & Hmax & Hyes & Hno).
  rewrite count_app, Hm. cbn [Nat.add].
  assert (Hclock : startTime r0 = Some now \/ armed r0 = 0).
  { destruct (started_or_not (result_of (session md sup granted fault ctx now evs)))
      as [Hs | Hs].
    - left. apply (Hyes Hs).
    - right. apply dormant_not_armed, Hno, Hs. }
  split; [|split; [|split]].
  - intros Hq.
    apply (quiet_not_fired md sup now evs r0); assumption.
  - intros evs1 evs2 -> Hq.
    destruct (deliver_all_app evs1 (StopCall :: evs2) r0) as [_ ->].
    destruct (deliver_all_cons StopCall evs2 (recorder_of (deliver_all evs1 r0))) as [_ ->].
    rewrite !count_app.
    destruct (quiet_not_fired md sup now evs1 r0) as [Ha1 ->]; try assumption.
    destruct (deliver_not_awaited StopCall _ Ha1 eq_refl) as [_ ->].
    pose proof (deliver_StopCall_disarms _ Ha1) as Hd.
    pose proof (deliver_all_armed evs2
                  (recorder_of (deliver StopCall (recorder_of (deliver_all evs1 r0))))) as Hle.
    rewrite Hd in Hle. lia.
  - intros evs1 t evs2 Hs -> Hq Ht.
    destruct (Hyes Hs) as (Hc & Hrec & Hst & _).
    destruct (deliver_all_app evs1 (Tick t :: evs2 ++ [StopEvent]) r0) as [_ ->].
    destruct (deliver_all_cons (Tick t) (evs2 ++ [StopEvent])
                (recorder_of (deliver_all evs1 r0))) as [_ ->].
    destruct (deliver_all_app evs2 [StopEvent]
                (recorder_of (deliver (Tick t) (recorder_of (deliver_all evs1 r0)))))
      as [_ ->].
    rewrite !count_app.
    set (r1 := recorder_of (deliver_all evs1 r0)).
    set (r2 := recorder_of (deliver (Tick t) r1)).
    set (r3 := recorder_of (deliver_all evs2 r2)).
    destruct (deliver_all_one StopEvent r3) as [_ ->].
    destruct (quiet_not_fired md sup now evs1 r0) as [_ ->]; try assumption.
    { eapply Forall_impl; [|exact Hq]. intros e [_ He]. exact He. }
    assert (Hc1 : consistent r1) by (apply deliver_all_consistent, Hc).
    assert (Hrec1 : is_recording r1 = true).
    { apply deliver_all_keeps_recording; [exact Hc | exact Hrec |].
      apply (Forall_expires md sup now r0 (fun e => is_StopCall e = false)); assumption. }
    assert (Hx1 : expires r1 (Tick t) = true).
    { unfold r1. rewrite expires_after_all.
      rewrite (expires_session md sup now r0 (Tick t) Hmax Hst). exact Ht. }
    destruct (deliver_expiry_awaited t r1 Hc1 Hrec1 Hx1) as (Haw & Htm & ->).
    assert (Hp2 : pending_or_fired r2 0) by (left; repeat split; assumption).
    assert (Hc2 : consistent r2) by (apply deliver_consistent, Hc1).
    pose proof (deliver_all_pending_or_fired evs2 r2 0 Hc2 Hp2) as Hp3.
    fold r3 in Hp3.
    pose proof (deliver_StopEvent_fires r3 _ Hp3) as Hf. lia.
  - intros Hs. apply deliver_all_dormant, Hno, Hs.
Qed.

(** The theorem at a session where [MediaRecorder] is undefined: the
    device granted at [start()] is still held after the tick at 30 s
    and a stop event. *)
Lemma handles_held_after_start_throws_witness :
  exists s,
    stream (recorder_of (session (Some 30000%Z) None (Some 1) None 1 0%Z
                           [Tick 30000%Z; StopEvent; AnimationFrame])) = Some s /\
    count is_release
      (effects_of (session (Some 30000%Z) None (Some 1) None 1 0%Z
                     [Tick 30000%Z; StopEvent; AnimationFrame])) = 0.
Proof.
  destruct (proj2 (proj2 (proj2 (proj2 (proj2 (proj2
              (handles_held_after_start_throws (Some 30000%Z) None (Some 1) None 1 0%Z
                 [Tick 30000%Z; StopEvent; AnimationFrame]))))))
              AtMediaRecorder eq_refl ltac:(repeat constructor))
    as (s & _ & Hs & _ & Hr & _).
  exists s. split; assumption.
Defined.

(** The theorem at two sessions of a recorder that supports every
    type: one is stopped by hand after the tick at 29.9 s, so that the
    tick at 30 s is never delivered to a callback and [onMaxReached] is
    not called; the other runs to the tick at 30 s, and [onMaxReached]
    is called once. *)
Lemma max_reached_at_most_once_witness :
  count is_max_reached
    (effects_of (session (Some 30000%Z) (Some (fun _ => true)) (Some 1) None 1 0%Z
                   [Tick 29900%Z; StopCall; Tick 30000%Z; StopEvent; Tick 30100%Z])) = 0 /\
  count is_max_reached
    (effects_of (session (Some 30000%Z) (Some (fun _ => true)) (Some 1) None 1 0%Z
                   [Tick 29900%Z; Tick 30000%Z; DataAvailable (mkBlob 10 "audio/webm");
                    StopEvent])) = 1.
Proof.
  split.
  - exact (proj1 (proj2 (proj2
             (max_reached_at_most_once (Some 30000%Z) (Some (fun _ => true)) (Some 1) None
                1 0%Z
                [Tick 29900%Z; StopCall; Tick 30000%Z; StopEvent; Tick 30100%Z])))
             [Tick 29900%Z] [Tick 30000%Z; StopEvent; Tick 30100%Z] eq_refl
             ltac:(repeat constructor)).
  - exact (proj1 (proj2 (proj2 (proj2
             (max_reached_at_most_once (Some 30000%Z) (Some (fun _ => true)) (Some 1) None
                1 0%Z
                [Tick 29900%Z; Tick 30000%Z; DataAvailable (mkBlob 10 "audio/webm");
                 StopEvent]))))
             [Tick 29900%Z] 30000%Z [DataAvailable (mkBlob 10 "audio/webm")]
             eq_refl eq_refl ltac:(repeat constructor) eq_refl).
Defined.

End RecorderFacts.

Section FloatFacts.

Lemma SFcompare_antisym x y :
  SpecFloat.SFcompare y x = option_map CompOpp (SpecFloat.SFcompare x y).
Proof.
  destruct x as [sx|sx| |sx mx ex], y as [sy|sy| |sy my ey]; cbn;
    try reflexivity;
    try (destruct sx; reflexivity); try (destruct sy; reflexivity);
    try (destruct sx, sy; reflexivity).
  destruct sx, sy; cbn; try reflexivity;
    rewrite (Z.compare_antisym ex ey); destruct (ex ?= ey)%Z; cbn; try reflexivity;
    rewrite (Pos.compare_cont_antisym mx my Eq); cbn;
    destruct (Pos.compare_cont Eq mx my); reflexivity.
Qed.

(** [a < b] excludes [b < a] and [b <= a], also on NaN and infinities. *)
Lemma ltb_true_inv (a b : float) :
  PrimFloat.ltb a b = true -> PrimFloat.ltb b a = false /\ PrimFloat.leb b a = false.
Proof.
  rewrite !FloatAxioms.ltb_spec, FloatAxioms.leb_spec. unfold SpecFloat.SFltb, SpecFloat.SFleb.
  rewrite (SFcompare_antisym (Prim2SF a) (Prim2SF b)).
  destruct (SpecFloat.SFcompare (Prim2SF a) (Prim2SF b)) as [[| |]|]; cbn;
    intros H; try discriminate; split; reflexivity.
Qed.

End FloatFacts.

Section ContourFacts.
Import Canvas NotationRenderer.
Local Open Scope list_scope.

Variable contour : list Frame.
Variable canvas : CanvasElement.

Local Abbreviation pt := (point contour canvas).
Local Abbreviation xs := (fun f => xScale contour canvas (timestamp_ms f)).

(** ** Runs *)

Lemma split_runs_spec frames :
  let (r, rs) := split_runs frames in
  exists rest,
    frames = (r ++ rest)%list /\
    Forall (fun f => unvoiced f = false) r /\
    (rest = [] \/ exists g rest', rest = g :: rest' /\ unvoiced g = true) /\
    Segmented rest rs.
Proof.
  induction frames as [|f frames IH]; cbn [split_runs].
  - exists []. repeat split; [constructor | left; reflexivity | constructor].
  - destruct (split_runs frames) as [r rs]. destruct IH as (rest & -> & Hr & Hrest & Hseg).
    destruct (unvoiced f) eqn:Hf.
    + exists (f :: r ++ rest)%list. repeat split; [constructor | |].
      * right. exists f, (r ++ rest)%list. split; [reflexivity | exact Hf].
      * apply Segmented_gap; [exact Hf|].
        destruct r as [|g r]; [exact Hseg|].
        apply Segmented_run; [discriminate | assumption | assumption | assumption].
    + exists rest. repeat split; [constructor; assumption | assumption | assumption].
Qed.

Lemma runs_Segmented frames : Segmented frames (runs frames).
Proof.
  unfold runs. pose proof (split_runs_spec frames) as H.
  destruct (split_runs frames) as [r rs]. destruct H as (rest & -> & Hr & Hrest & Hseg).
  destruct r as [|g r]; [exact Hseg|].
  apply Segmented_run; [discriminate | assumption | assumption | assumption].
Qed.

(** A segmentation cuts the series into contiguous pieces. *)
Lemma Segmented_contiguous frames rs :
  Segmented frames rs ->
  forall r, In r rs ->
    r <> [] /\ Forall (fun f => unvoiced f = false) r /\
    exists before after, frames = (before ++ r ++ after)%list.
Proof.
  induction 1 as [|f frames rs Hf Hseg IH|r0 frames rs Hne Hr0 Hnext Hseg IH];
    intros r Hin.
  - destruct Hin.
  - destruct (IH r Hin) as (H1 & H2 & before & after & ->).
    repeat split; try assumption. exists (f :: before), after. reflexivity.
  - destruct Hin as [<- | Hin].
    + repeat split; try assumption. exists [], frames. reflexivity.
    + destruct (IH r Hin) as (H1 & H2 & before & after & ->).
      repeat split; try assumption. exists (r0 ++ before)%list, after.
      rewrite app_assoc. reflexivity.
Qed.

Lemma concat_runs frames :
  List.concat (runs frames) = filter (fun f => negb (unvoiced f)) frames.
Proof.
  unfold runs.
  assert (H : let (r, rs) := split_runs frames in
              (r ++ List.concat rs)%list = filter (fun f => negb (unvoiced f)) frames).
  { induction frames as [|f frames IH]; cbn [split_runs filter]; [reflexivity|].
    destruct (split_runs frames) as [r rs]. destruct (unvoiced f); cbn [negb app].
    - rewrite <- IH. destruct r; reflexivity.
    - rewrite <- IH. reflexivity. }
  destruct (split_runs frames) as [r rs]. rewrite <- H. destruct r; reflexivity.
Qed.

(** ** Running calls *)

Lemma run_app (a b : list Call) k : run (a ++ b) k = run b (run a k).
Proof. unfold run. apply fold_left_app. Qed.

Lemma run_cons c (cs : list Call) k : run (c :: cs) k = run cs (exec c k).
Proof. reflexivity. Qed.

Lemma extend_snoc (P : Path) (s : Subpath) p :
  extend (P ++ [s]) p = (P ++ [(s ++ [p])%list])%list.
Proof.
  induction P as [|s0 P IH]; [reflexivity|].
  cbn [app extend]. rewrite IH. destruct (P ++ [s])%list eqn:E; [|reflexivity].
  destruct P; discriminate.
Qed.

(** The first loop adds to the path one sub-path per run; a run that is
    under way when the loop is entered continues the newest sub-path. *)
Lemma line_loop_run frames :
  (forall k,
      run (line_loop contour canvas frames false) k
      = with_path k (ctx_path k ++ map (map pt) (runs frames))) /\
  (forall k P s,
      ctx_path k = (P ++ [s])%list ->
      run (line_loop contour canvas frames true) k
      = with_path k (P ++ (s ++ map pt (fst (split_runs frames)))
                          :: map (map pt) (snd (split_runs frames)))).
Proof.
  induction frames as [|f frames [IHf IHt]]; (split; [intros k | intros k P s Hk]).
  - cbn. rewrite app_nil_r. destruct k; reflexivity.
  - cbn. rewrite app_nil_r. destruct k; cbn in Hk |- *. rewrite Hk. reflexivity.
  - cbn [line_loop]. unfold runs. cbn [split_runs].
    destruct (unvoiced f).
    + rewrite IHf. unfold runs. destruct (split_runs frames) as [r rs]. reflexivity.
    + rewrite run_cons. rewrite (IHt _ (ctx_path k) [pt f]) by reflexivity.
      destruct (split_runs frames) as [r rs]. destruct k; reflexivity.
  - cbn [line_loop split_runs].
    destruct (unvoiced f).
    + rewrite IHf, Hk. unfold runs. destruct (split_runs frames) as [r rs].
      cbn [fst snd map]. rewrite app_nil_r.
      rewrite <- app_assoc. reflexivity.
    + rewrite run_cons. rewrite (IHt _ P (s ++ [pt f])%list).
      * destruct (split_runs frames) as [r rs]. cbn [fst snd map].
        rewrite <- app_assoc. destruct k; reflexivity.
      * cbn. rewrite Hk. apply extend_snoc.
Qed.

Local Abbreviation shape_of := (shape contour canvas).
Local Abbreviation tail_of := (shape_tail contour canvas).

(** The second loop fills one outline per run, each in a path of its
    own; a run that is under way when the loop is entered completes
    the outline begun. *)
Lemma shading_loop_run frames :
  (forall k lastX,
      ctx_path k = [] ->
      ctx_painted (run (shading_loop contour canvas frames false lastX) k)
      = ctx_painted k
          ++ map (fun r => Filled (ctx_fillStyle k) [shape_of r]) (runs frames)) /\
  (forall k lastX s,
      ctx_path k = [s] ->
      ctx_painted (run (shading_loop contour canvas frames true lastX) k)
      = ctx_painted k
          ++ Filled (ctx_fillStyle k) [s ++ tail_of lastX (fst (split_runs frames))]
          :: map (fun r => Filled (ctx_fillStyle k) [shape_of r]) (snd (split_runs frames))).
Proof.
  induction frames as [|f frames [IHf IHt]];
    (split; [intros k lastX Hk | intros k lastX s Hk]);
    destruct k as [fs ss path painted]; cbn in Hk; subst path.
  - cbn. rewrite app_nil_r. reflexivity.
  - reflexivity.
  - cbn [shading_loop]. unfold runs. cbn [split_runs].
    destruct (unvoiced f).
    + rewrite IHf by reflexivity. unfold runs.
      destruct (split_runs frames) as [r rs]. reflexivity.
    + rewrite run_app. cbn [run fold_left exec app extend ctx_path ctx_fillStyle
                            ctx_strokeStyle ctx_painted].
      erewrite (proj2 (conj IHf IHt)) by reflexivity.
      destruct (split_runs frames) as [r rs]. reflexivity.
  - cbn [shading_loop split_runs].
    destruct (unvoiced f).
    + rewrite run_app. cbn [run fold_left exec app extend ctx_path ctx_fillStyle
                            ctx_strokeStyle ctx_painted].
      rewrite IHf by reflexivity. unfold runs.
      destruct (split_runs frames) as [r rs]. cbn. rewrite <- app_assoc. reflexivity.
    + rewrite run_app. cbn [run fold_left exec app extend ctx_path ctx_fillStyle
                            ctx_strokeStyle ctx_painted].
      erewrite IHt by reflexivity.
      destruct (split_runs frames) as [r rs]. cbn. rewrite <- app_assoc. reflexivity.
Qed.

(** ** Calls that do not touch the curve *)

Lemma harmless_nil : harmless [].
Proof. intros k. exists []. rewrite app_nil_r. split; reflexivity. Qed.

Lemma harmless_app a b : harmless a -> harmless b -> harmless (a ++ b).
Proof.
  intros Ha Hb k. rewrite run_app.
  destruct (Ha k) as (o1 & E1 & F1). destruct (Hb (run a k)) as (o2 & E2 & F2).
  exists (o1 ++ o2). rewrite E2, E1, app_assoc. split; [reflexivity|].
  rewrite forallb_app, F1, F2. reflexivity.
Qed.

Lemma harmless_flat_map {A} (f : A -> list Call) l :
  (forall x, harmless (f x)) -> harmless (flat_map f l).
Proof.
  intros H. induction l as [|x l IH]; cbn [flat_map]; [apply harmless_nil|].
  apply harmless_app; [apply H | exact IH].
Qed.

Ltac paint_harmless :=
  intros k; destruct k as [fs ss path painted];
  cbn [run fold_left exec ctx_path ctx_fillStyle ctx_strokeStyle ctx_painted];
  rewrite <- ?app_assoc; cbn [app];
  first [ exists []; split; [rewrite app_nil_r; reflexivity | reflexivity]
        | eexists; split; [reflexivity | reflexivity] ].

Lemma harmless_clear : harmless [fillStyle "#0d1624"; fillRect 0 0 (W canvas) (H canvas)].
Proof. paint_harmless. Qed.

Lemma harmless_reference_line toString referenceSaHz :
  harmless (reference_line toString contour referenceSaHz canvas).
Proof.
  unfold reference_line.
  destruct ((fMin contour <=? referenceSaHz)%float && (referenceSaHz <=? fMax contour)%float);
    [paint_harmless | apply harmless_nil].
Qed.

Lemma harmless_octave_lines referenceSaHz : harmless (octave_lines contour referenceSaHz canvas).
Proof.
  unfold octave_lines. apply harmless_flat_map. intros hz. unfold octave_line.
  destruct ((fMin contour <=? hz)%float && (hz <=? fMax contour)%float);
    [paint_harmless | apply harmless_nil].
Qed.

Lemma harmless_time_axis toFixed : harmless (time_axis toFixed contour canvas).
Proof.
  unfold time_axis. apply harmless_app; [paint_harmless|].
  apply harmless_flat_map. intros i. unfold time_tick. paint_harmless.
Qed.

Lemma harmless_frequency_axis toFixed : harmless (frequency_axis toFixed contour canvas).
Proof.
  unfold frequency_axis. apply harmless_app; [paint_harmless|].
  apply harmless_flat_map. intros i. unfold frequency_tick. paint_harmless.
Qed.

Lemma stroked_in_app style a b :
  stroked_in style (a ++ b) = stroked_in style a ++ stroked_in style b.
Proof.
  induction a as [|p a IH]; [reflexivity|].
  destruct p; cbn [app stroked_in]; try exact IH.
  destruct (String.eqb style0 style); cbn [app]; rewrite IH; reflexivity.
Qed.

Lemma filled_in_app style a b :
  filled_in style (a ++ b) = filled_in style a ++ filled_in style b.
Proof.
  induction a as [|p a IH]; [reflexivity|].
  destruct p; cbn [app filled_in]; try exact IH.
  destruct (String.eqb style0 style); cbn [app]; rewrite IH; reflexivity.
Qed.

Lemma other_paint_no_curve out :
  forallb other_paint out = true ->
  stroked_in contour_style out = [] /\ filled_in shading_style out = [].
Proof.
  induction out as [|p out IH]; [split; reflexivity|].
  cbn [forallb]. intros H. apply andb_true_iff in H. destruct H as [Hp Ho].
  destruct (IH Ho) as [IH1 IH2].
  destruct p; cbn [stroked_in filled_in other_paint] in *; try (split; assumption).
  - apply negb_true_iff in Hp. rewrite Hp. split; assumption.
  - apply negb_true_iff in Hp. rewrite Hp. split; assumption.
Qed.

(** ** The two passes *)

Lemma contour_line_run k :
  ctx_painted (run (contour_line contour canvas) k)
  = ctx_painted k ++ [Stroked contour_style (map (map pt) (runs contour))].
Proof.
  unfold contour_line. rewrite run_app. rewrite run_app.
  rewrite (proj1 (line_loop_run contour)).
  destruct k; reflexivity.
Qed.

Lemma shading_run k :
  ctx_painted (run (shading contour canvas) k)
  = ctx_painted k ++ map (fun r => Filled shading_style [shape_of r]) (runs contour).
Proof.
  unfold shading. rewrite run_app.
  rewrite (proj1 (shading_loop_run contour)); destruct k; reflexivity.
Qed.

Lemma stroked_in_fills style (rs : list (list Frame)) fs :
  stroked_in style (map (fun r => Filled fs [shape_of r]) rs) = [].
Proof. induction rs; [reflexivity | exact IHrs]. Qed.

Lemma filled_in_fills (rs : list (list Frame)) :
  filled_in shading_style (map (fun r => Filled shading_style [shape_of r]) rs)
  = map (fun r => [shape_of r]) rs.
Proof. induction rs as [|r rs IH]; [reflexivity|]. cbn. rewrite IH. reflexivity. Qed.

Lemma filter_voiced_nil frames :
  filter voiced frames = [] <-> existsb voiced frames = false.
Proof.
  induction frames as [|f frames IH]; cbn; [tauto|].
  destruct (voiced f); cbn; [split; discriminate | exact IH].
Qed.

(** What [plot] paints in the styles of the curve and of its shading. *)
Lemma plot_paints toFixed toString referenceSaHz :
  let ps := painted (plot toFixed toString contour referenceSaHz canvas) in
  stroked_in contour_style ps
  = (if existsb voiced contour then [map (map pt) (runs contour)] else []) /\
  filled_in shading_style ps
  = (if existsb voiced contour then map (fun r => [shape_of r]) (runs contour) else []).
Proof.
  cbv zeta. unfold plot, painted.
  destruct (existsb voiced contour) eqn:Hv.
  - destruct (filter voiced contour) eqn:Hf.
    { apply filter_voiced_nil in Hf. congruence. }
    rewrite !run_app.
    set (k1 := run _ fresh).
    destruct (harmless_clear fresh) as (o1 & E1 & F1). fold k1 in E1.
    destruct (harmless_reference_line toString referenceSaHz k1) as (o2 & E2 & F2).
    set (k2 := run _ k1) in *.
    destruct (harmless_octave_lines referenceSaHz k2) as (o3 & E3 & F3).
    set (k3 := run _ k2) in *.
    pose proof (contour_line_run k3) as E4. set (k4 := run _ k3) in *.
    pose proof (shading_run k4) as E5. set (k5 := run _ k4) in *.
    destruct (harmless_time_axis toFixed k5) as (o6 & E6 & F6).
    set (k6 := run _ k5) in *.
    destruct (harmless_frequency_axis toFixed k6) as (o7 & E7 & F7).
    rewrite E7, E6, E5, E4, E3, E2, E1. cbn [ctx_painted fresh app].
    rewrite !stroked_in_app, !filled_in_app.
    destruct (other_paint_no_curve _ F1) as [-> ->].
    destruct (other_paint_no_curve _ F2) as [-> ->].
    destruct (other_paint_no_curve _ F3) as [-> ->].
    destruct (other_paint_no_curve _ F6) as [-> ->].
    destruct (other_paint_no_curve _ F7) as [-> ->].
    rewrite stroked_in_fills, filled_in_fills. cbn. rewrite !app_nil_r. split; reflexivity.
  - apply filter_voiced_nil in Hv. rewrite Hv. split; reflexivity.
Qed.

End ContourFacts.

Section ContourClaims.
Import Canvas NotationRenderer.
Local Open Scope list_scope.

Lemma voiced_not_unvoiced f : voiced f = true -> unvoiced f = false.
Proof.
  unfold voiced, unvoiced. intros H. apply andb_true_iff in H. destruct H as [H1 H2].
  destruct (ltb_true_inv _ _ H1) as [_ ->]. destruct (ltb_true_inv _ _ H2) as [-> _].
  reflexivity.
Qed.

Lemma low_confidence_unvoiced f : (confidence f <? 0.2)%float = true -> unvoiced f = true.
Proof. unfold unvoiced. intros ->. apply orb_true_r. Qed.

Lemma renderContour_paints toFixed toString contour referenceSaHz canvas :
  let ps := painted (renderContour toFixed toString (Some contour) referenceSaHz canvas) in
  stroked_in contour_style ps
  = (if existsb voiced contour
     then [map (map (point contour canvas)) (runs contour)] else []) /\
  filled_in shading_style ps
  = (if existsb voiced contour
     then map (fun r => [shape contour canvas r]) (runs contour) else []).
Proof.
  destruct contour as [|f contour].
  - split; reflexivity.
  - apply plot_paints.
Qed.

Lemma segments_map {A} (g : A -> Point) (r : list A) seg :
  In seg (segments (map g r)) ->
  exists r1 a b r2, r = r1 ++ a :: b :: r2 /\ seg = (g a, g b).
Proof.
  induction r as [|a r IH]; [intros []|].
  destruct r as [|b r]; [intros []|].
  cbn [map segments]. intros [<- | Hin].
  - exists [], a, b, r. split; reflexivity.
  - destruct (IH Hin) as (r1 & a' & b' & r2 & E & ->).
    exists (a :: r1), a', b', r2. rewrite E. split; reflexivity.
Qed.

(** Every segment of a run's sub-path joins two frames that follow one
    another in the series and are both not unvoiced. *)
Lemma run_segments contour canvas r seg :
  In r (runs contour) ->
  In seg (segments (map (point contour canvas) r)) ->
  exists before f g after,
    contour = before ++ f :: g :: after /\
    unvoiced f = false /\ unvoiced g = false /\
    seg = (point contour canvas f, point contour canvas g).
Proof.
  intros Hr Hseg.
  destruct (Segmented_contiguous _ _ (runs_Segmented contour) r Hr)
    as (_ & Hall & before & after & E).
  destruct (segments_map _ _ _ Hseg) as (r1 & f & g & r2 & -> & ->).
  exists (before ++ r1), f, g, (r2 ++ after).
  rewrite Forall_forall in Hall.
  repeat split.
  - rewrite E, <- !app_assoc. reflexivity.
  - apply Hall, in_or_app. right. left. reflexivity.
  - apply Hall, in_or_app. right. right. left. reflexivity.
Qed.

(** A series of ten frames of which the third to fifth have low
    confidence and the others are voiced has two runs; [first] is the
    number given to the first frame (0 or 1). *)
Lemma ten_frames_two_runs (first : nat) (contour : list Frame) :
  first <= 1 ->
  List.length contour = 10 ->
  (forall i f, nth_error contour i = Some f ->
     if ((3 <=? i + first) && (i + first <=? 5))%nat
     then (confidence f <? 0.2)%float = true
     else voiced f = true) ->
  existsb voiced contour = true /\
  exists run1 gap run2,
    contour = run1 ++ gap ++ run2 /\ List.length gap = 3 /\
    List.length run1 + first = 3 /\
    runs contour = [run1; run2].
Proof.
  intros Hfirst Hlen Hframes.
  do 10 (destruct contour as [|? contour]; [discriminate|]).
  destruct contour; [|discriminate].
  pose proof (Hframes 0 _ eq_refl) as H0. pose proof (Hframes 1 _ eq_refl) as H1.
  pose proof (Hframes 2 _ eq_refl) as H2. pose proof (Hframes 3 _ eq_refl) as H3.
  pose proof (Hframes 4 _ eq_refl) as H4. pose proof (Hframes 5 _ eq_refl) as H5.
  pose proof (Hframes 6 _ eq_refl) as H6. pose proof (Hframes 7 _ eq_refl) as H7.
  pose proof (Hframes 8 _ eq_refl) as H8. pose proof (Hframes 9 _ eq_refl) as H9.
  clear Hframes Hlen.
  assert (Hcases : first = 0 \/ first = 1) by lia. clear Hfirst.
  destruct Hcases; subst first; cbn in H0, H1, H2, H3, H4, H5, H6, H7, H8, H9;
    (split; [cbn [existsb]; rewrite H0; reflexivity|]);
    repeat match goal with
      | H : voiced ?f = true |- _ => apply voiced_not_unvoiced in H
      | H : (confidence ?f <? 0.2)%float = true |- _ => apply low_confidence_unvoiced in H
      end;
    unfold runs; cbn [split_runs];
    rewrite H0, H1, H2, H3, H4, H5, H6, H7, H8, H9; cbn [cons_nonempty].
  - exists [f; f0; f1], [f2; f3; f4], [f5; f6; f7; f8]. repeat split.
  - exists [f; f0], [f1; f2; f3], [f4; f5; f6; f7; f8]. repeat split.
Qed.

(** C1.  The pitch curve is stroked as one path whose sub-paths are the
    maximal runs of frames that are not unvoiced (frequency <= 0 or
    confidence < 0.2), in order, and the shading is filled as one
    outline per run (nothing is drawn when no frame is voiced).  So
    every segment of the curve joins two frames that follow one another
    in the series and are both not unvoiced: no segment bridges a gap.
    For ten frames of which the third to fifth have confidence < 0.2
    and the others are voiced, the stroked path has exactly two
    sub-paths and exactly two outlines are filled. *)
Theorem contour_breaks_at_unvoiced_frames :
  forall (toFixed : float -> nat -> string) (toString : float -> string)
         (contour : list Frame) (referenceSaHz : float) (canvas : CanvasElement),
    let ps := painted (renderContour toFixed toString (Some contour) referenceSaHz canvas) in
    let pt := point contour canvas in
    Segmented contour (runs contour) /\
    stroked_in contour_style ps
    = (if existsb voiced contour then [map (map pt) (runs contour)] else []) /\
    filled_in shading_style ps
    = (if existsb voiced contour
       then map (fun r => [shape contour canvas r]) (runs contour) else []) /\
    (forall path sub seg,
        In path (stroked_in contour_style ps) -> In sub path -> In seg (segments sub) ->
        exists before f g after,
          contour = before ++ f :: g :: after /\
          unvoiced f = false /\ unvoiced g = false /\ seg = (pt f, pt g)) /\
    (forall first : nat,
        first <= 1 ->
        List.length contour = 10 ->
        (forall i f, nth_error contour i = Some f ->
           if ((3 <=? i + first) && (i + first <=? 5))%nat
           then (confidence f <? 0.2)%float = true
           else voiced f = true) ->
        exists run1 gap run2,
          contour = run1 ++ gap ++ run2 /\ List.length gap = 3 /\
          List.length run1 + first = 3 /\
          stroked_in contour_style ps = [[map pt run1; map pt run2]] /\
          filled_in shading_style ps
          = [[shape contour canvas run1]; [shape contour canvas run2]]).
Proof.
  intros toFixed toString contour referenceSaHz canvas ps pt.
  destruct (renderContour_paints toFixed toString contour referenceSaHz canvas)
    as [Hstroke Hfill].
  fold ps in Hstroke, Hfill. fold pt in Hstroke.
  split; [apply runs_Segmented|]. split; [exact Hstroke|]. split; [exact Hfill|]. split.
  - intros path sub seg Hpath Hsub Hseg. rewrite Hstroke in Hpath.
    destruct (existsb voiced contour); [|destruct Hpath].
    destruct Hpath as [<- | []].
    apply in_map_iff in Hsub. destruct Hsub as (r & <- & Hr).
    apply (run_segments contour canvas r seg Hr Hseg).
  - intros first Hfirst Hlen Hframes.
    destruct (ten_frames_two_runs first contour Hfirst Hlen Hframes)
      as (Hv & run1 & gap & run2 & E & Hgap & Hrun1 & Hruns).
    exists run1, gap, run2. rewrite Hstroke, Hfill, Hv, Hruns.
    repeat split; assumption.
Qed.

(** The theorem at ten frames numbered from 0. *)
Lemma contour_breaks_at_unvoiced_frames_witness :
  exists run1 gap run2,
    ten_frames = run1 ++ gap ++ run2 /\ List.length gap = 3 /\
    List.length run1 + 0 = 3 /\
    stroked_in contour_style
      (painted (renderContour (fun _ _ => "") (fun _ => "") (Some ten_frames)
                  261.63%float (mkCanvas 800 300)))
    = [[map (point ten_frames (mkCanvas 800 300)) run1;
        map (point ten_frames (mkCanvas 800 300)) run2]] /\
    filled_in shading_style
      (painted (renderContour (fun _ _ => "") (fun _ => "") (Some ten_frames)
                  261.63%float (mkCanvas 800 300)))
    = [[shape ten_frames (mkCanvas 800 300) run1];
       [shape ten_frames (mkCanvas 800 300) run2]].
Proof.
  apply (proj2 (proj2 (proj2 (proj2
           (contour_breaks_at_unvoiced_frames (fun _ _ => "") (fun _ => "") ten_frames
              261.63%float (mkCanvas 800 300))))) 0).
  - lia.
  - reflexivity.
  - intros i f Hi.
    do 10 (destruct i as [|i]; [injection Hi as <-; vm_compute; reflexivity|]).
    destruct i; discriminate.
Defined.

(** ** Axes *)

Lemma time_axis_texts toFixed contour canvas :
  texts (time_axis toFixed contour canvas)
  = map (fun i =>
           let t := tick_value (tMin contour) (tMax contour) 6 i in
           fillText (toFixed (t / 1000)%float 1 ++ "s")%string
             (xScale contour canvas t) (H canvas - 6)%float)
        (seq 0 7).
Proof. reflexivity. Qed.

Lemma frequency_axis_texts toFixed contour canvas :
  texts (frequency_axis toFixed contour canvas)
  = map (fun i =>
           let hz := tick_value (fMin contour) (fMax contour) 4 i in
           fillText (toFixed hz 0 ++ " Hz")%string
             (padding_left - 6)%float (yScale contour canvas hz + 3)%float)
        (seq 0 5).
Proof. reflexivity. Qed.

Lemma renderContour_voiced toFixed toString contour referenceSaHz canvas :
  existsb voiced contour = true ->
  renderContour toFixed toString (Some contour) referenceSaHz canvas
  = ([fillStyle "#0d1624"; fillRect 0 0 (W canvas) (H canvas)]
       ++ reference_line toString contour referenceSaHz canvas
       ++ octave_lines contour referenceSaHz canvas
       ++ contour_line contour canvas ++ shading contour canvas)
      ++ time_axis toFixed contour canvas ++ frequency_axis toFixed contour canvas.
Proof.
  intros Hv. destruct contour as [|f contour]; [discriminate|].
  unfold renderContour, plot.
  destruct (filter voiced (f :: contour)) eqn:Hf.
  - apply (filter_voiced_nil (f :: contour)) in Hf. congruence.
  - rewrite <- !app_assoc. reflexivity.
Qed.

(** C5 (as amended).  For a series with a voiced frame the renderer
    ends with the time axis and the frequency axis.  The time axis has
    seven labels, at the seven values that divide the span from the
    first to the last timestamp into six equal parts (both ends
    labelled); the frequency axis has five labels, at the five values
    that divide the span between the frequency bounds into four equal
    parts. *)
Theorem axes_label_both_ends :
  forall (toFixed : float -> nat -> string) (toString : float -> string)
         (contour : list Frame) (referenceSaHz : float) (canvas : CanvasElement),
    existsb voiced contour = true ->
    (exists before,
        renderContour toFixed toString (Some contour) referenceSaHz canvas
        = before ++ time_axis toFixed contour canvas
            ++ frequency_axis toFixed contour canvas) /\
    texts (time_axis toFixed contour canvas)
    = map (fun i =>
             let t := tick_value (tMin contour) (tMax contour) 6 i in
             fillText (toFixed (t / 1000)%float 1 ++ "s")%string
               (xScale contour canvas t) (H canvas - 6)%float)
          (seq 0 7) /\
    texts (frequency_axis toFixed contour canvas)
    = map (fun i =>
             let hz := tick_value (fMin contour) (fMax contour) 4 i in
             fillText (toFixed hz 0 ++ " Hz")%string
               (padding_left - 6)%float (yScale contour canvas hz + 3)%float)
          (seq 0 5) /\
    List.length (texts (time_axis toFixed contour canvas)) = 7 /\
    List.length (texts (frequency_axis toFixed contour canvas)) = 5.
Proof.
  intros toFixed toString contour referenceSaHz canvas Hv.
  split; [|split; [|split; [|split]]].
  - eexists. apply renderContour_voiced, Hv.
  - apply time_axis_texts.
  - apply frequency_axis_texts.
  - reflexivity.
  - reflexivity.
Qed.

(** The theorem at two voiced frames. *)
Lemma axes_label_both_ends_witness :
  List.length (texts (time_axis (fun _ _ => "") two_frames (mkCanvas 800 300))) = 7 /\
  List.length (texts (frequency_axis (fun _ _ => "") two_frames (mkCanvas 800 300))) = 5.
Proof.
  exact (proj2 (proj2 (proj2
           (axes_label_both_ends (fun _ _ => "") (fun _ => "") two_frames 261.63%float
              (mkCanvas 800 300) eq_refl)))).
Defined.

(** C5 fails as stated: for two voiced frames the renderer writes
    seven time labels and five frequency labels, not six and four. *)
Lemma seven_and_five_labels :
  map text_of
    (texts (renderContour (fun _ _ => "") (fun _ => "") (Some two_frames) 261.63%float
              (mkCanvas 800 300)))
  = ["s"; "s"; "s"; "s"; "s"; "s"; "s"; " Hz"; " Hz"; " Hz"; " Hz"; " Hz"]%string /\
  List.length (texts (time_axis (fun _ _ => "") two_frames (mkCanvas 800 300))) <> 6 /\
  List.length (texts (frequency_axis (fun _ _ => "") two_frames (mkCanvas 800 300))) <> 4.
Proof. split; [vm_compute; reflexivity | split; discriminate]. Qed.

(** ** The frame whose confidence is exactly 0.2 *)

Lemma in_some_run contour f :
  In f contour -> unvoiced f = false -> exists r, In r (runs contour) /\ In f r.
Proof.
  intros Hin Hf.
  assert (H : In f (List.concat (runs contour))).
  { rewrite concat_runs. apply filter_In. split; [exact Hin|]. rewrite Hf. reflexivity. }
  apply in_concat in H. destruct H as (r & Hr & Hfr). exists r. split; assumption.
Qed.

Lemma in_shape_tail contour canvas lastX r f :
  In f r -> In (point contour canvas f) (shape_tail contour canvas lastX r).
Proof.
  revert lastX. induction r as [|g r IH]; intros lastX; [intros []|].
  cbn [shape_tail]. intros [-> | Hin]; [left; reflexivity | right; apply IH, Hin].
Qed.

Lemma in_shape contour canvas r f :
  In f r -> In (point contour canvas f) (shape contour canvas r).
Proof.
  destruct r as [|g r]; [intros []|]. intros Hin. cbn [shape].
  right. apply in_shape_tail, Hin.
Qed.

Lemma boundary_frame_tests f :
  (0 <? frequency_hz f)%float = true -> confidence f = 0.2%float ->
  voiced f = false /\ unvoiced f = false.
Proof.
  intros Hfreq Hconf. unfold voiced, unvoiced. rewrite Hconf, Hfreq.
  destruct (ltb_true_inv _ _ Hfreq) as [_ ->]. split; reflexivity.
Qed.

(** C9 (as amended).  A frame with positive frequency and confidence
    exactly 0.2 is not in the voiced set from which the frequency
    bounds are computed, and is not a break for the two drawing loops.
    When the series has a voiced frame, its point lies on a sub-path
    of the stroked curve and on a filled outline; when the series has
    no voiced frame, nothing but the background is painted.  The point
    can lie outside the frequency bounds: in
    [boundary_frames] it is above the upper bound and is plotted above
    the plotting rectangle. *)
Theorem boundary_confidence_frame_is_plotted :
  (forall (toFixed : float -> nat -> string) (toString : float -> string)
          (contour : list Frame) (referenceSaHz : float) (canvas : CanvasElement)
          (f : Frame),
      In f contour ->
      (0 <? frequency_hz f)%float = true ->
      confidence f = 0.2%float ->
      let ps := painted (renderContour toFixed toString (Some contour) referenceSaHz canvas) in
      voiced f = false /\ ~ In f (filter voiced contour) /\ unvoiced f = false /\
      (existsb voiced contour = true ->
       (exists path sub,
           stroked_in contour_style ps = [path] /\ In sub path /\
           In (point contour canvas f) sub) /\
       (exists outline,
           In [outline] (filled_in shading_style ps) /\
           In (point contour canvas f) outline)) /\
      (existsb voiced contour = false ->
       ps = [Rect "#0d1624" 0 0 (W canvas) (H canvas)])) /\
  (exists f,
      In f boundary_frames /\ existsb voiced boundary_frames = true /\
      (0 <? frequency_hz f)%float = true /\ confidence f = 0.2%float /\
      (fMax boundary_frames <? frequency_hz f)%float = true /\
      (yScale boundary_frames (mkCanvas 800 300) (frequency_hz f) <? padding_top)%float
      = true).
Proof.
  split.
  - intros toFixed toString contour referenceSaHz canvas f Hin Hfreq Hconf ps.
    destruct (boundary_frame_tests f Hfreq Hconf) as [Hv Hu].
    split; [exact Hv|]. split.
    { intros H. apply filter_In in H. destruct H as [_ H]. congruence. }
    split; [exact Hu|]. split.
    + intros Hsome.
      destruct (renderContour_paints toFixed toString contour referenceSaHz canvas)
        as [Hstroke Hfill].
      fold ps in Hstroke, Hfill. rewrite Hsome in Hstroke, Hfill.
      destruct (in_some_run contour f Hin Hu) as (r & Hr & Hfr).
      split.
      * exists (map (map (point contour canvas)) (runs contour)),
          (map (point contour canvas) r).
        split; [exact Hstroke|]. split; apply in_map; assumption.
      * exists (shape contour canvas r). split.
        -- rewrite Hfill. apply (in_map (fun r => [shape contour canvas r])), Hr.
        -- apply in_shape, Hfr.
    + intros Hnone. subst ps.
      destruct contour as [|g contour]; [destruct Hin|].
      apply filter_voiced_nil in Hnone.
      change (renderContour toFixed toString (Some (g :: contour)) referenceSaHz canvas)
        with (plot toFixed toString (g :: contour) referenceSaHz canvas).
      unfold plot. rewrite Hnone. reflexivity.
  - exists (mkFrame 10 1000 0.2)%float. repeat split.
    right. left. reflexivity.
Qed.

(** The theorem at [boundary_frames]. *)
Lemma boundary_confidence_frame_is_plotted_witness :
  unvoiced (mkFrame 10 1000 0.2)%float = false /\
  exists path sub,
    stroked_in contour_style
      (painted (renderContour (fun _ _ => "") (fun _ => "") (Some boundary_frames)
                  261.63%float (mkCanvas 800 300))) = [path] /\
    In sub path /\
    In (point boundary_frames (mkCanvas 800 300) (mkFrame 10 1000 0.2)%float) sub.
Proof.
  destruct (proj1 boundary_confidence_frame_is_plotted (fun _ _ => "") (fun _ => "")
              boundary_frames 261.63%float (mkCanvas 800 300) (mkFrame 10 1000 0.2)%float
              (or_intror (or_introl eq_refl)) eq_refl eq_refl)
    as (_ & _ & Hu & Hdrawn & _).
  split; [exact Hu|]. exact (proj1 (Hdrawn eq_refl)).
Defined.

(** C9 fails as stated: a series that consists of one frame with
    positive frequency and confidence exactly 0.2 has no voiced frame,
    and the renderer only clears the canvas; the frame is not plotted. *)
Lemma lone_boundary_frame_not_plotted :
  In (mkFrame 0 440 0.2)%float [mkFrame 0 440 0.2]%float /\
  (0 <? frequency_hz (mkFrame 0 440 0.2))%float = true /\
  confidence (mkFrame 0 440 0.2)%float = 0.2%float /\
  renderContour (fun _ _ => "") (fun _ => "") (Some [mkFrame 0 440 0.2]%float)
    261.63%float (mkCanvas 800 300)
  = [fillStyle "#0d1624"; fillRect 0 0 800 300] /\
  stroked_in contour_style
    (painted (renderContour (fun _ _ => "") (fun _ => "") (Some [mkFrame 0 440 0.2]%float)
                261.63%float (mkCanvas 800 300))) = [].
Proof. repeat split. left. reflexivity. Qed.

End ContourClaims.

Section MarkupFacts.
Import NotationRenderer.

Lemma has_char_append a s t : has_char a (s ++ t) = has_char a s || has_char a t.
Proof.
  induction s as [|c s IH]; [reflexivity|].
  cbn [append has_char]. rewrite IH. apply orb_assoc.
Qed.

(** [_esc] leaves no angle bracket. *)
Lemma esc_no_angle_bracket s :
  has_char "<" (_esc s) = false /\ has_char ">" (_esc s) = false.
Proof.
  assert (H : forall n s, String.length s <= n ->
              has_char "<" (_esc s) = false /\ has_char ">" (_esc s) = false).
  { clear s. induction n as [|n IH]; intros s Hlen.
    - destruct s; [split; reflexivity | cbn in Hlen; lia].
    - destruct s as [|c rest]; [split; reflexivity|].
      cbn [String.length] in Hlen.
      assert (Hrest : String.length rest <= n) by lia.
      destruct (IH rest Hrest) as [IH1 IH2].
      cbn [_esc].
      destruct (Ascii.eqb c "&") eqn:E1;
        [rewrite !has_char_append, IH1, IH2; split; reflexivity|].
      destruct (Ascii.eqb c "<") eqn:E2;
        [rewrite !has_char_append, IH1, IH2; split; reflexivity|].
      destruct (Ascii.eqb c ">") eqn:E3;
        [rewrite !has_char_append, IH1, IH2; split; reflexivity|].
      destruct rest as [|c' rest'].
      + cbn [has_char]. rewrite E2, E3. split; reflexivity.
      + destruct (Ascii.eqb c (ascii_of_nat 194) && Ascii.eqb c' (ascii_of_nat 160)).
        * cbn [String.length] in Hrest.
          destruct (IH rest' ltac:(lia)) as [IH3 IH4].
          rewrite !has_char_append, IH3, IH4. split; reflexivity.
        * cbn [has_char]. rewrite E2, E3, IH1, IH2. split; reflexivity. }
  apply (H (String.length s)). lia.
Qed.

(** C4.  What [_esc] returns holds no angle bracket, and the renderer
    passes raga names (and summary values) through it; but it inserts
    gamaka type labels and the symbols of arohana and avarohana as they
    are.  A label or a symbol that is an [img] tag reaches the markup
    as a tag, where the same text as a raga name arrives escaped. *)
Theorem labels_inserted_unescaped :
  (forall s, has_char "<" (_esc s) = false /\ has_char ">" (_esc s) = false) /\
  (forall upperCase : string -> string,
      map innerHTML (renderGamakas upperCase [mkGamaka injected])
      = [ "<span " ++ attr "class" "gamaka-dot" ++ " "
            ++ attr "style" "background:#6b7394; box-shadow: 0 0 8px #6b7394" ++ "></span>"
            ++ "<div " ++ attr "class" "gamaka-info" ++ ">"
            ++ "<span " ++ attr "class" "gamaka-name" ++ ">" ++ injected ++ "</span>"
            ++ "<span " ++ attr "class" "gamaka-count" ++ ">1 segment</span></div>" ]) /\
  JS.includes
    (raga_markup (fun _ _ => "50") (fun _ => "65")
       (mkCandidate "Kalyani" 65 0.5 ["Sa"; injected] ["Sa"]))
    injected = true /\
  JS.includes
    (raga_markup (fun _ _ => "50") (fun _ => "65")
       (mkCandidate "Kalyani" 65 0.5 ["Sa"] [injected; "Sa"]))
    injected = true /\
  JS.includes
    (raga_markup (fun _ _ => "50") (fun _ => "65")
       (mkCandidate injected 65 0.5 ["Sa"] ["Sa"]))
    injected = false /\
  JS.includes
    (raga_markup (fun _ _ => "50") (fun _ => "65")
       (mkCandidate injected 65 0.5 ["Sa"] ["Sa"]))
    "&lt;img src=x onerror=alert(1)&gt;" = true.
Proof.
  split; [exact esc_no_angle_bracket|].
  split; [intros upperCase; vm_compute; reflexivity|].
  repeat split; vm_compute; reflexivity.
Qed.

End MarkupFacts.
(* ================================================================== *)
(** * Further properties of the recorder *)
(* ================================================================== *)

Section CaptureFacts.
Import JS AudioRecorder.
Local Open Scope list_scope.

Ltac unfold_recorder :=
  cbv [deliver when timer_callback stop _cleanup onstop ondataavailable _drawLoop
       start deliver_all bind ret this assign emit is_recording
       set_mediaRecorder set_audioChunks set_stream set_analyserNode set_audioCtx
       set_startTime set_timerInterval set_frameRequested
       effects_of recorder_of clips_due handler_queued expires consistent
       maxDurationMs mimeType mediaRecorder audioChunks stream analyserNode audioCtx
       startTime timerInterval frameRequested mr_state mr_onstop mr_stop_queued
       fst snd negb orb andb].

Ltac look :=
  repeat (match goal with
          | |- context [match ?x with _ => _ end] => is_var x; destruct x
          | |- context [if ?b then _ else _] => is_var b; destruct b
          | |- context [(?a <=? ?b)%Z] => destruct (a <=? b)%Z eqn:?
          | |- context [(?a <? ?b)%Z] => destruct (a <? b)%Z eqn:?
          end; cbn).

Ltac each_step e r :=
  destruct r as [max mime mr chunks st an ctx t0 timer frame];
  destruct e as [now| | |data|];
  unfold_recorder; cbn; look.

Ltac over_events evs r :=
  revert r; induction evs as [|e evs IH]; intros r;
  [ cbn
  | let Hr := fresh in
    let He := fresh in
    destruct (deliver_all_cons e evs r) as [Hr He];
    rewrite ?Hr, ?He; clear Hr He ].

(** ** The codec *)

(** X1.  [_selectMimeType] returns the first type of its list that the
    platform supports: the type returned is supported and every type
    before it in the list is not; it returns the empty string exactly
    when none of the four is supported, and also when there is no
    [MediaRecorder]. *)
Theorem selectMimeType_prefers_in_order :
  _selectMimeType None = "" /\
  forall isTypeSupported : string -> bool,
    let chosen := _selectMimeType (Some isTypeSupported) in
    let types := [ "audio/webm;codecs=opus"; "audio/webm";
                   "audio/ogg;codecs=opus"; "audio/mp4" ]%string in
    (chosen = "" <-> forall t, In t types -> isTypeSupported t = false) /\
    (chosen <> "" ->
     isTypeSupported chosen = true /\
     exists earlier later,
       types = earlier ++ chosen :: later /\
       forall t, In t earlier -> isTypeSupported t = false).
Proof.
  split; [reflexivity|]. intros f chosen types. subst chosen types.
  unfold _selectMimeType. cbn [find].
  destruct (f "audio/webm;codecs=opus") eqn:E1;
    [|destruct (f "audio/webm") eqn:E2;
      [|destruct (f "audio/ogg;codecs=opus") eqn:E3;
        [|destruct (f "audio/mp4") eqn:E4]]].
  - split; [split; [discriminate | intros H; rewrite H in E1; [discriminate | left; reflexivity]]|].
    intros _. split; [exact E1|]. exists [], [ "audio/webm"; "audio/ogg;codecs=opus"; "audio/mp4" ]%string.
    split; [reflexivity | intros t []].
  - split; [split; [discriminate | intros H; rewrite H in E2; [discriminate | right; left; reflexivity]]|].
    intros _. split; [exact E2|].
    exists [ "audio/webm;codecs=opus" ]%string, [ "audio/ogg;codecs=opus"; "audio/mp4" ]%string.
    split; [reflexivity|]. intros t [<- | []]. exact E1.
  - split; [split; [discriminate | intros H; rewrite H in E3; [discriminate | right; right; left; reflexivity]]|].
    intros _. split; [exact E3|].
    exists [ "audio/webm;codecs=opus"; "audio/webm" ]%string, [ "audio/mp4" ]%string.
    split; [reflexivity|]. intros t [<- | [<- | []]]; assumption.
  - split; [split; [discriminate | intros H; rewrite H in E4; [discriminate | right; right; right; left; reflexivity]]|].
    intros _. split; [exact E4|].
    exists [ "audio/webm;codecs=opus"; "audio/webm"; "audio/ogg;codecs=opus" ]%string, [].
    split; [reflexivity|]. intros t [<- | [<- | [<- | []]]]; assumption.
  - split; [split; [|reflexivity]|intros H; contradiction H; reflexivity].
    intros _ t [<- | [<- | [<- | [<- | []]]]]; assumption.
Qed.

(** The theorem where only mp4 is supported. *)
Lemma selectMimeType_prefers_in_order_witness :
  String.eqb (_selectMimeType (Some (fun t => String.eqb t "audio/mp4"))) "audio/mp4" = true.
Proof.
  exact (proj1 (proj2 (proj2 selectMimeType_prefers_in_order
                         (fun t => String.eqb t "audio/mp4"))
                  ltac:(discriminate))).
Defined.

(** ** Callbacks *)

Lemma deliver_timer_stays_off e r :
  timerInterval r = false -> timerInterval (recorder_of (deliver e r)) = false.
Proof. each_step e r; intros H; try discriminate; try reflexivity; assumption. Qed.

Lemma deliver_silent e r :
  timerInterval r = false -> is_recording r = false ->
  count is_duration_update (effects_of (deliver e r)) = 0 /\
  count is_waveform (effects_of (deliver e r)) = 0.
Proof. each_step e r; intros H1 H2; try discriminate; split; reflexivity. Qed.

Lemma deliver_all_silent evs r :
  timerInterval r = false -> is_recording r = false ->
  count is_duration_update (effects_of (deliver_all evs r)) = 0 /\
  count is_waveform (effects_of (deliver_all evs r)) = 0.
Proof.
  over_events evs r; [split; reflexivity|].
  intros Ht Hr. rewrite !count_app.
  destruct (deliver_silent e r Ht Hr) as [-> ->].
  apply IH; [apply deliver_timer_stays_off, Ht | apply deliver_not_recording, Hr].
Qed.

Lemma deliver_StopCall_timer_off r :
  timerInterval (recorder_of (deliver StopCall r)) = false.
Proof.
  destruct r as [max mime mr chunks st an ctx t0 timer frame].
  unfold_recorder; cbn; look; reflexivity.
Qed.

Lemma deliver_expiry_timer_off now r :
  expires r (Tick now) = true ->
  timerInterval (recorder_of (deliver (Tick now) r)) = false.
Proof.
  destruct r as [max mime mr chunks st an ctx t0 timer frame].
  unfold_recorder; cbn; look; intros H; try discriminate; reflexivity.
Qed.

(** X2.  Once [stop()] has been called on a recorder, in whatever state,
    no event makes it call [onDurationUpdate] or [onWaveformData]
    again; the same holds after the tick at which the maximum
    duration is reached. *)
Theorem callbacks_silent_after_stop :
  forall (r : Recorder) (evs : list Event),
    (let stopped := recorder_of (deliver StopCall r) in
     count is_duration_update (effects_of (deliver_all evs stopped)) = 0 /\
     count is_waveform (effects_of (deliver_all evs stopped)) = 0) /\
    (forall now,
        consistent r -> expires r (Tick now) = true ->
        let stopped := recorder_of (deliver (Tick now) r) in
        count is_duration_update (effects_of (deliver_all evs stopped)) = 0 /\
        count is_waveform (effects_of (deliver_all evs stopped)) = 0).
Proof.
  intros r evs. split.
  - cbv zeta. apply deliver_all_silent;
      [apply deliver_StopCall_timer_off | apply deliver_StopCall_not_recording].
  - intros now Hc Hx. cbv zeta. apply deliver_all_silent;
      [apply deliver_expiry_timer_off, Hx | apply deliver_expiry_not_recording; assumption].
Qed.

(** The theorem at a capturing recorder whose maximum is reached. *)
Lemma callbacks_silent_after_stop_witness :
  count is_waveform
    (effects_of (deliver_all [AnimationFrame; Tick 30100%Z; AnimationFrame]
                   (recorder_of (deliver (Tick 30000%Z)
                                   (capturing None (Some (fun _ => false)) 1 1 0%Z))))) = 0.
Proof.
  exact (proj2 (proj2 (callbacks_silent_after_stop
                         (capturing None (Some (fun _ => false)) 1 1 0%Z)
                         [AnimationFrame; Tick 30100%Z; AnimationFrame])
                  30000%Z ltac:(repeat split) eq_refl)).
Defined.

Lemma deliver_frame_while_capturing r :
  is_recording r = true -> analyserNode r = true -> frameRequested r = true ->
  let r' := recorder_of (deliver AnimationFrame r) in
  effects_of (deliver AnimationFrame r) = [OnWaveformData] /\
  is_recording r' = true /\ analyserNode r' = true /\ frameRequested r' = true.
Proof.
  destruct r as [max mime mr chunks st an ctx t0 timer frame].
  unfold_recorder; cbn; look; intros H1 H2 H3; try discriminate; repeat split.
Qed.

(** X3.  While a capture is active every display refresh brings one
    [onWaveformData] call: a session whose [start()] resolved and that
    sees [n] animation frames and nothing else has called it [n + 1]
    times, once from [start()] and once per frame.  In a session
    whose [start()] was denied or threw it is never called. *)
Theorem waveform_once_per_frame :
  forall (maxDuration : option Z) (supported : option (string -> bool))
         (granted : option MediaStream) (fault : option Fault)
         (ctx : AudioContext) (now : Z) (n : nat),
    let x := session maxDuration supported granted fault ctx now (repeat AnimationFrame n) in
    count is_waveform (effects_of x)
    = match result_of x with Started => n + 1 | _ => 0 end.
Proof.
  intros md sup granted fault ctx now n. cbv zeta.
  destruct (session_unfold md sup granted fault ctx now (repeat AnimationFrame n))
    as (-> & _ & ->).
  rewrite count_app.
  destruct (started_or_not
              (result_of (start (defined sup) granted fault ctx now (constructor md sup))))
    as [Hs | Hs].
  - destruct (proj2 (start_resolves md sup granted fault ctx now) Hs) as (s & _ & -> & ->).
    rewrite Hs. cbn [count filter is_waveform List.length].
    assert (H : forall r,
               is_recording r = true -> analyserNode r = true -> frameRequested r = true ->
               count is_waveform (effects_of (deliver_all (repeat AnimationFrame n) r)) = n).
    { induction n as [|n IH]; intros r H1 H2 H3; [reflexivity|].
      cbn [repeat].
      destruct (deliver_all_cons AnimationFrame (repeat AnimationFrame n) r) as [_ ->].
      destruct (deliver_frame_while_capturing r H1 H2 H3) as (-> & H1' & H2' & H3').
      rewrite count_app, (IH _ H1' H2' H3'). reflexivity. }
    rewrite H by reflexivity. lia.
  - destruct (start_fails md sup granted fault ctx now Hs) as ((Hr & Ht & _) & _ & _ & _ & Hc).
    destruct (deliver_all_silent (repeat AnimationFrame n) _ Ht Hr) as [_ ->].
    destruct (result_of (start (defined sup) granted fault ctx now (constructor md sup)))
      as [| |f]; [congruence | |].
    + destruct Hc as (_ & _ & ->). reflexivity.
    + destruct f; destruct Hc as (s & _ & _ & ->); reflexivity.
Qed.

End CaptureFacts.

Section ClipFacts.
Import JS AudioRecorder.
Local Open Scope list_scope.

Ltac unfold_recorder :=
  cbv [deliver when timer_callback stop _cleanup onstop ondataavailable _drawLoop
       start deliver_all bind ret this assign emit is_recording
       set_mediaRecorder set_audioChunks set_stream set_analyserNode set_audioCtx
       set_startTime set_timerInterval set_frameRequested
       effects_of recorder_of clips_due handler_queued expires consistent kept_chunks
       maxDurationMs mimeType mediaRecorder audioChunks stream analyserNode audioCtx
       startTime timerInterval frameRequested mr_state mr_onstop mr_stop_queued
       flat_map fst snd negb orb andb].

Ltac look :=
  repeat (match goal with
          | |- context [match ?x with _ => _ end] => is_var x; destruct x
          | |- context [if ?b then _ else _] => is_var b; destruct b
          | |- context [(?a <=? ?b)%Z] => destruct (a <=? b)%Z eqn:?
          | |- context [(?a <? ?b)%Z] => destruct (a <? b)%Z eqn:?
          end; cbn).

Ltac each_step e r :=
  destruct r as [max mime mr chunks st an ctx t0 timer frame];
  destruct e as [now| | |data|];
  unfold_recorder; cbn; look.

Ltac over_events evs r :=
  revert r; induction evs as [|e evs IH]; intros r;
  [ cbn
  | let Hr := fresh in
    let He := fresh in
    destruct (deliver_all_cons e evs r) as [Hr He];
    rewrite ?Hr, ?He; clear Hr He ].

(** ** The clip *)

Lemma deliver_clips_due e r :
  count hands_over_clip (effects_of (deliver e r)) + clips_due (recorder_of (deliver e r))
  <= clips_due r.
Proof. each_step e r; lia. Qed.

Lemma deliver_all_clips_due evs r :
  count hands_over_clip (effects_of (deliver_all evs r))
    + clips_due (recorder_of (deliver_all evs r)) <= clips_due r.
Proof.
  over_events evs r; [lia|].
  rewrite count_app.
  pose proof (deliver_clips_due e r). pose proof (IH (recorder_of (deliver e r))). lia.
Qed.

Lemma session_clips_due md sup granted fault ctx now evs :
  count hands_over_clip (effects_of (session md sup granted fault ctx now evs)) <= 1.
Proof.
  destruct (session_unfold md sup granted fault ctx now evs) as (_ & _ & ->).
  rewrite count_app.
  pose proof (deliver_all_clips_due evs
                (recorder_of (start (defined sup) granted fault ctx now (constructor md sup))))
    as H.
  destruct granted as [s|], fault as [[]|], sup as [f|]; cbn in H |- *; lia.
Qed.

(** X4.  In every capture session the clip is handed over at most once:
    either [onMaxReached] is called once, or one [stop()] promise of a
    caller resolves with a clip, never both and never twice. *)
Theorem clip_handed_over_at_most_once :
  forall (maxDuration : option Z) (supported : option (string -> bool))
         (granted : option MediaStream) (fault : option Fault)
         (ctx : AudioContext) (now : Z) (evs : list Event),
    count hands_over_clip
      (effects_of (session maxDuration supported granted fault ctx now evs)) <= 1.
Proof. exact session_clips_due. Qed.

Lemma deliver_chunks e r :
  mediaRecorder r <> None ->
  audioChunks (recorder_of (deliver e r)) = audioChunks r ++ kept_chunks [e] /\
  mediaRecorder (recorder_of (deliver e r)) <> None /\
  mimeType (recorder_of (deliver e r)) = mimeType r.
Proof.
  each_step e r; intros H; try congruence;
    rewrite ?app_nil_r; repeat split; first [reflexivity | discriminate | assumption].
Qed.

Lemma deliver_blob e r w b :
  In (StopResolved w (Some b)) (effects_of (deliver e r)) ->
  e = StopEvent /\
  mediaRecorder r <> None /\
  b = blob_of_chunks (audioChunks r) (or_str (Some (mimeType r)) "audio/webm").
Proof.
  each_step e r; cbn; intros H;
    repeat match goal with
      | H : _ \/ _ |- _ => destruct H as [H | H]
      | H : False |- _ => destruct H
      | H : _ = StopResolved _ _ |- _ => inversion H; subst; clear H
      end;
    repeat split; discriminate.
Qed.

Lemma kept_chunks_cons e evs : kept_chunks (e :: evs) = kept_chunks [e] ++ kept_chunks evs.
Proof. unfold kept_chunks. cbn [flat_map]. rewrite app_nil_r. reflexivity. Qed.

Lemma deliver_all_blob evs r w b :
  mediaRecorder r <> None ->
  In (StopResolved w (Some b)) (effects_of (deliver_all evs r)) ->
  exists evs1 evs2,
    evs = evs1 ++ StopEvent :: evs2 /\
    b = blob_of_chunks (audioChunks r ++ kept_chunks evs1)
          (or_str (Some (mimeType r)) "audio/webm").
Proof.
  over_events evs r; [intros _ []|].
  intros Hmr H. apply in_app_or in H. destruct H as [H | H].
  - destruct (deliver_blob e r w b H) as (-> & _ & ->).
    exists [], evs. rewrite app_nil_r. split; reflexivity.
  - destruct (deliver_chunks e r Hmr) as (Hch & Hmr' & Hty).
    destruct (IH _ Hmr' H) as (evs1 & evs2 & Hevs & Hb).
    exists (e :: evs1), evs2. split; [rewrite Hevs; reflexivity|].
    rewrite Hb, Hch, Hty, (kept_chunks_cons e evs1), app_assoc. reflexivity.
Qed.

Lemma deliver_all_no_blob evs r w b :
  mediaRecorder r = None ->
  ~ In (StopResolved w (Some b)) (effects_of (deliver_all evs r)).
Proof.
  over_events evs r; [intros _ []|].
  intros Hmr H. apply in_app_or in H. destruct H as [H | H].
  - destruct (deliver_blob e r w b H) as (_ & Hsome & _). contradiction.
  - apply (IH _ (proj1 (deliver_never_started e r Hmr)) H).
Qed.

Lemma kept_chunks_positive evs : Forall (fun b => (0 < blob_size b)%Z) (kept_chunks evs).
Proof.
  induction evs as [|e evs IH]; [constructor|].
  rewrite kept_chunks_cons. apply Forall_app. split; [|exact IH].
  destruct e; cbn; try constructor.
  destruct (Z.ltb_spec 0 (blob_size data)); repeat constructor. assumption.
Qed.

Lemma blob_size_positive chunks type :
  Forall (fun b => (0 < blob_size b)%Z) chunks ->
  (0 <= blob_size (blob_of_chunks chunks type))%Z /\
  ((0 < blob_size (blob_of_chunks chunks type))%Z <-> chunks <> []).
Proof.
  unfold blob_of_chunks. cbn [blob_size].
  induction 1 as [|b chunks Hb Hall [IH1 IH2]]; cbn.
  - split; [lia|]. split; [lia | congruence].
  - split; [lia|]. split; [discriminate | lia].
Qed.

Lemma clip_type_not_empty supported : clip_type supported <> "".
Proof.
  unfold clip_type, or_str. destruct (_selectMimeType supported); cbn; discriminate.
Qed.

(** X5.  The clip with which a [stop()] promise resolves is built from
    the chunks of positive size that arrived between [start()] and the
    stop event, in order: its size is the sum of their sizes, it is
    empty exactly when no such chunk arrived, and its media type is
    the negotiated type, or "audio/webm" when none was negotiated,
    never the empty string. *)
Theorem clip_holds_chunks_before_stop_event :
  forall (maxDuration : option Z) (supported : option (string -> bool))
         (granted : option MediaStream) (fault : option Fault)
         (ctx : AudioContext) (now : Z)
         (evs : list Event) (w : Waiter) (blob : Blob),
    In (StopResolved w (Some blob))
       (effects_of (session maxDuration supported granted fault ctx now evs)) ->
    exists evs1 evs2,
      evs = evs1 ++ StopEvent :: evs2 /\
      blob = blob_of_chunks (kept_chunks evs1) (clip_type supported) /\
      blob_size blob = fold_right Z.add 0%Z (map blob_size (kept_chunks evs1)) /\
      ((0 < blob_size blob)%Z <-> kept_chunks evs1 <> []) /\
      blob_type blob <> "".
Proof.
  intros md sup granted fault ctx now evs w blob H.
  destruct (session_unfold md sup granted fault ctx now evs) as (_ & _ & E).
  rewrite E in H. clear E.
  apply in_app_or in H. destruct H as [H | H].
  { destruct granted as [s|], fault as [[]|], sup as [f|]; cbn in H;
      repeat match goal with
        | H : _ \/ _ |- _ => destruct H as [H | H]
        | H : False |- _ => destruct H
        | H : _ = StopResolved _ _ |- _ => discriminate H
        end. }
  set (r0 := recorder_of (start (defined sup) granted fault ctx now (constructor md sup)))
    in *.
  assert (Hr0 : mimeType r0 = _selectMimeType sup /\ audioChunks r0 = []).
  { subst r0. destruct granted as [s|], fault as [[]|], sup as [f|]; split; reflexivity. }
  destruct Hr0 as [Hty Hch].
  destruct (mediaRecorder r0) as [mr|] eqn:Hmr.
  - destruct (deliver_all_blob evs r0 w blob ltac:(congruence) H) as (evs1 & evs2 & -> & ->).
    exists evs1, evs2. rewrite Hty, Hch. cbn [app].
    fold (clip_type sup).
    repeat split; try reflexivity.
    + apply blob_size_positive, kept_chunks_positive.
    + apply blob_size_positive, kept_chunks_positive.
    + apply clip_type_not_empty.
  - exfalso. apply (deliver_all_no_blob evs r0 w blob Hmr H).
Qed.

(** The theorem at a session stopped by hand after two chunks, one of
    them empty, on a platform that supports none of the four types. *)
Lemma clip_holds_chunks_before_stop_event_witness :
  exists evs1 evs2,
    [DataAvailable (mkBlob 0 "audio/webm"); DataAvailable (mkBlob 512 "audio/webm");
     StopCall; StopEvent] = evs1 ++ StopEvent :: evs2 /\
    mkBlob 512 "audio/webm"
    = blob_of_chunks (kept_chunks evs1) (clip_type (Some (fun _ => false))).
Proof.
  destruct (clip_holds_chunks_before_stop_event None (Some (fun _ => false)) (Some 1) None
              1 0%Z
              [DataAvailable (mkBlob 0 "audio/webm"); DataAvailable (mkBlob 512 "audio/webm");
               StopCall; StopEvent]
              ByCaller (mkBlob 512 "audio/webm")
              ltac:(vm_compute; tauto))
    as (evs1 & evs2 & H1 & H2 & _).
  exists evs1, evs2. split; assumption.
Defined.

End ClipFacts.

(* ================================================================== *)
(** * Further properties of the api client and of the controller *)
(* ================================================================== *)

Section UploadFacts.
Import JS CRJApi.
Local Open Scope list_scope.

(** X6.  The file name given to a recorded clip ends in one of three
    extensions, and for the clips the recorder produces it follows the
    negotiated codec: [.ogg] for ogg, [.m4a] for mp4, and [.webm] for
    the two webm types and when no type was negotiated. *)
Theorem clip_extension_follows_codec :
  (forall b : Blob, In (ext b) [".webm"; ".ogg"; ".m4a"]%string) /\
  (forall (supported : option (string -> bool)) (chunks : list Blob),
      let mime := AudioRecorder._selectMimeType supported in
      ext (AudioRecorder.blob_of_chunks chunks (clip_type supported))
      = if String.eqb mime "audio/ogg;codecs=opus" then ".ogg"
        else if String.eqb mime "audio/mp4" then ".m4a"
        else ".webm").
Proof.
  split.
  - intros b. unfold ext.
    destruct (includes _ "webm"); [left; reflexivity|].
    destruct (includes _ "ogg"); [right; left; reflexivity|].
    destruct (includes _ "mp4"); [right; right; left; reflexivity | left; reflexivity].
  - intros supported chunks. cbv zeta. unfold clip_type, AudioRecorder._selectMimeType.
    destruct supported as [f|]; [|reflexivity]. cbn [find].
    destruct (f "audio/webm;codecs=opus"); [reflexivity|].
    destruct (f "audio/webm"); [reflexivity|].
    destruct (f "audio/ogg;codecs=opus"); [reflexivity|].
    destruct (f "audio/mp4"); reflexivity.
Qed.

Section Responses.
Import ApiResponse.

Variable Doc : Type.
Variable is_null : Doc -> bool.
Variable Value : Type.
Variable truthy : Value -> bool.
Variable to_string : Value -> string.
Variable detail : Doc -> option Value.

Local Abbreviation settle := (settle Doc is_null Value truthy to_string detail).

(** X7.  For a response that is not ok, [analyze] and [analyzeFile]
    always throw and never return the body.  When the body does not
    parse the error's message is "Server error".  When the body is
    [null], reading its [detail] throws a [TypeError].  The message
    of the error is empty in one case only: the body has a [detail]
    that is truthy and whose string form is empty (as an empty array
    is); a missing or falsy [detail] gives "HTTP " and the status. *)
Theorem failure_response_always_throws :
  forall r : Response Doc,
    ok Doc r = false ->
    exists thrown,
      settle r = inr thrown /\
      (json Doc r = None -> thrown = Error "Server error") /\
      (forall doc, json Doc r = Some doc -> is_null doc = true -> thrown = TypeError) /\
      (thrown = Error "" ->
       exists doc v,
         json Doc r = Some doc /\ is_null doc = false /\
         detail doc = Some v /\ truthy v = true /\ to_string v = "") /\
      (forall doc,
         json Doc r = Some doc -> is_null doc = false ->
         match detail doc with
         | Some v => truthy v = false
         | None => True
         end ->
         thrown = Error ("HTTP " ++ NotationRenderer.string_of_nat (status Doc r))).
Proof.
  intros [o st body] Hok. cbn in Hok. subst o. unfold ApiResponse.settle. cbn.
  destruct body as [doc|].
  - destruct (is_null doc) eqn:Hnull.
    + eexists. split; [reflexivity|]. split; [discriminate|].
      split; [reflexivity|]. split; [discriminate|].
      intros doc' E. injection E as <-. congruence.
    + destruct (detail doc) as [v|] eqn:Hd.
      * destruct (truthy v) eqn:Ht; eexists; (split; [reflexivity|]);
          (split; [discriminate|]);
          (split; [intros doc' E Hn; injection E as <-; congruence|]); split.
        -- intros E. injection E as E. exists doc, v. repeat split; assumption.
        -- intros doc' E _ H. injection E as <-. rewrite Hd in H. congruence.
        -- discriminate.
        -- intros doc' E _ _. reflexivity.
      * eexists. split; [reflexivity|]. split; [discriminate|].
        split; [intros doc' E Hn; injection E as <-; congruence|].
        split; [discriminate|].
        intros doc' E _ _. reflexivity.
  - eexists. split; [reflexivity|]. split; [reflexivity|].
    split; [discriminate|]. split; [discriminate|].
    intros doc' E. discriminate.
Qed.

End Responses.

End UploadFacts.

(** The theorem at a 422 response whose body has an empty string as
    its detail. *)
Lemma failure_response_always_throws_witness :
  exists thrown,
    ApiResponse.settle (option string) (fun _ => false) string
      (fun s => negb (String.eqb s "")) (fun s => s) (fun d => d)
      (ApiResponse.mkResponse (option string) false 422 (Some (Some "")))
    = inr thrown /\
    thrown = ApiResponse.Error "HTTP 422".
Proof.
  destruct (failure_response_always_throws (option string) (fun _ => false) string
              (fun s => negb (String.eqb s "")) (fun s => s) (fun d => d)
              (ApiResponse.mkResponse (option string) false 422 (Some (Some ""))) eq_refl)
    as (thrown & H1 & _ & _ & _ & H2).
  exists thrown. split; [exact H1|].
  exact (H2 (Some "") eq_refl eq_refl eq_refl).
Defined.

Section SessionFacts.
Import JS UI Capture.
Local Open Scope list_scope.

Variable parseFloat : string -> float.
Variable Result : Type.
Variable seconds : Z -> string.

Local Abbreviation Page := (Page Result).
Local Abbreviation getOptions := (getOptions parseFloat).
Local Abbreviation runAnalysis := (runAnalysis parseFloat Result).
Local Abbreviation runAnalysis_settled := (runAnalysis_settled Result).
Local Abbreviation request_for := (request_for parseFloat).
Local Abbreviation btnStop_click := (btnStop_click parseFloat Result).
Local Abbreviation onMaxReached := (onMaxReached parseFloat Result).
Local Abbreviation react := (react parseFloat Result seconds).
Local Abbreviation react_all := (react_all parseFloat Result seconds).

(** X8.  Whatever the controls hold, the request the controller builds
    carries a tolerance of 40 cents (the controller sets none) and a
    reference frequency that is neither zero nor NaN: with the custom
    preset it is the custom value, or 261.63 when that does not parse
    to a usable number; an empty algorithm or script selector is sent
    as "pyin" or "iast". *)
Theorem request_from_controls :
  forall (v : Variant) (c : Controls) (clip : Clip),
    let fd := CRJApi.req_body (request_for v c clip) in
    CRJApi.form_get "tolerance_cents" fd = Some (CRJApi.FNumber 40%float) /\
    (exists hz,
        CRJApi.form_get "reference_sa_hz" fd = Some (CRJApi.FNumber hz) /\
        truthy_num hz = true /\
        (saPreset_value c = "custom" ->
         hz = if truthy_num (parseFloat (saCustom_value c))
              then parseFloat (saCustom_value c) else 261.63%float) /\
        (saPreset_value c <> "custom" ->
         hz = if truthy_num (parseFloat (saPreset_value c))
              then parseFloat (saPreset_value c) else 261.63%float)) /\
    CRJApi.form_get "algorithm" fd
    = Some (CRJApi.FString (if String.eqb (algorithm_value c) "" then "pyin"
                            else algorithm_value c)) /\
    CRJApi.form_get "script" fd
    = Some (CRJApi.FString (if String.eqb (script_value c) "" then "iast"
                            else script_value c)).
Proof.
  intros v c clip fd. subst fd.
  assert (Hfd : forall k, k <> "file"%string ->
                 CRJApi.form_get k (CRJApi.req_body (request_for v c clip))
                 = CRJApi.form_get k (CRJApi.option_fields (getOptions v c))).
  { intros k Hk. destruct clip; [apply analyze_fields | apply analyzeFile_fields]; exact Hk. }
  rewrite !Hfd by discriminate.
  assert (Hstr : forall s d, or_str (Some s) d = if String.eqb s "" then d else s).
  { intros [|a s] d; reflexivity. }
  split; [destruct v; reflexivity|]. split; [|split].
  2: { transitivity (Some (CRJApi.FString (or_str (Some (algorithm_value c)) "pyin")));
         [destruct v; reflexivity | rewrite Hstr; reflexivity]. }
  2: { transitivity (Some (CRJApi.FString (or_str (Some (script_value c)) "iast")));
         [destruct v; reflexivity | rewrite Hstr; reflexivity]. }
  exists (or_num (CRJApi.referenceSaHz (getOptions v c)) 261.63%float).
  split; [destruct v; reflexivity|]. split; [apply or_num_truthy; reflexivity|].
  split.
  - intros Hcustom. unfold UI.getOptions. rewrite Hcustom. cbn [String.eqb].
    replace (String.eqb "custom" "custom") with true by reflexivity.
    destruct v; cbn [CRJApi.referenceSaHz or_num];
      destruct (truthy_num (parseFloat (saCustom_value c))) eqn:E; cbn; rewrite ?E; reflexivity.
  - intros Hcustom. unfold UI.getOptions.
    destruct (String.eqb_spec (saPreset_value c) "custom"); [contradiction|].
    destruct v; reflexivity.
Qed.

(** X9.  A submission issues exactly one request, however it ends
    (nothing is retried).  When the api call returns a document and
    [displayResults] renders it, the controller ends in Results and
    the status line is untouched.  When the api call throws, the
    controller ends in Idle showing "Analysis failed: " and the
    message, and what was displayed before is left as it was.  When
    [displayResults] throws, the controller also ends in Idle with
    that status line, although the document was received (and, in the
    primary controller, is kept as the last result). *)
Theorem submission_issues_one_request :
  forall (v : Variant) (c : Controls) (clip : Clip) (p : Page) (outcome : Outcome Result),
    let p' := runAnalysis_settled v outcome (runAnalysis v c clip p) in
    fetches p' = fetches p ++ [request_for v c clip] /\
    match outcome with
    | Rendered _ result =>
        state p' = results /\ displayed p' = Some result /\
        recordingStatus_text p' = recordingStatus_text p
    | RenderThrew _ result message =>
        state p' = idle /\
        recordingStatus_text p' = ("Analysis failed: " ++ message)%string /\
        recordingStatus_class p' = "recording-status error-msg"%string /\
        displayed p' = Some result /\
        lastResult p' = match v with Primary => Some result | Legacy => lastResult p end
    | ApiThrew _ message =>
        state p' = idle /\
        recordingStatus_text p' = ("Analysis failed: " ++ message)%string /\
        recordingStatus_class p' = "recording-status error-msg"%string /\
        displayed p' = displayed p /\ lastResult p' = lastResult p
    end.
Proof.
  intros v c clip p outcome p'. subst p'.
  destruct outcome as [message | result message | result]; destruct v, clip; repeat split.
Qed.

Lemma btnStop_click_fetches v c blob (p : Page) :
  fetches (btnStop_click v c blob p)
  = fetches p ++ match blob with
                 | Some b => if (0 <? blob_size b)%Z then [request_for v c (Recorded b)] else []
                 | None => []
                 end.
Proof.
  unfold Capture.btnStop_click. destruct blob as [b|]; [|cbn; rewrite app_nil_r; reflexivity].
  destruct (0 <? blob_size b)%Z; [apply runAnalysis_fetches|].
  cbn. rewrite app_nil_r. reflexivity.
Qed.

(** X10.  When [recorder.stop()] resolves with no clip or with an empty
    one, the stop handler submits nothing, shows "No audio recorded."
    and leaves the controller in Idle; with a clip of positive size it
    moves to Processing and issues one request, whose file part is
    that clip under the name "recording" plus its extension. *)
Theorem stop_handler_submits_nonempty_clip :
  forall (v : Variant) (c : Controls) (blob : option Blob) (p : Page),
    let p' := btnStop_click v c blob p in
    match blob with
    | Some b =>
        if (0 <? blob_size b)%Z then
          state p' = processing /\
          exists r,
            fetches p' = fetches p ++ [r] /\
            CRJApi.form_get "file" (CRJApi.req_body r)
            = Some (CRJApi.FBlob b ("recording" ++ CRJApi.ext b)%string)
        else
          state p' = idle /\ fetches p' = fetches p /\
          recordingStatus_text p' = "No audio recorded."%string
    | None =>
        state p' = idle /\ fetches p' = fetches p /\
        recordingStatus_text p' = "No audio recorded."%string
    end.
Proof.
  intros v c blob p p'. subst p'. unfold Capture.btnStop_click.
  destruct blob as [b|]; [|repeat split].
  destruct (0 <? blob_size b)%Z; [|repeat split].
  split; [apply runAnalysis_state|].
  exists (request_for v c (Recorded b)). split; [apply runAnalysis_fetches | reflexivity].
Qed.

Lemma react_fetches v c e (p : Page) :
  List.length (fetches (react v c e p))
  <= List.length (fetches p) + (if hands_over_clip e then 1 else 0).
Proof.
  destruct e as [s|s|ctx|ctx|elapsed|blob| |w blob]; cbn [Capture.react hands_over_clip];
    try lia.
  - destruct v; cbn; lia.
  - unfold Capture.onMaxReached. rewrite runAnalysis_fetches, length_app. cbn. lia.
  - destruct w; [cbn; lia|]. rewrite btnStop_click_fetches, length_app.
    destruct blob as [b|]; [destruct (0 <? blob_size b)%Z|]; cbn; lia.
Qed.

Lemma react_all_fetches v c tr (p : Page) :
  List.length (fetches (react_all v c tr p))
  <= List.length (fetches p) + AudioRecorder.count hands_over_clip tr.
Proof.
  revert p. induction tr as [|e tr IH]; intros p; [cbn; lia|].
  unfold Capture.react_all in *. cbn [fold_left].
  pose proof (IH (react v c e p)) as H1. pose proof (react_fetches v c e p) as H2.
  unfold AudioRecorder.count in *. cbn [filter].
  destruct (hands_over_clip e); cbn [List.length] in *; lia.
Qed.

(** X11.  One capture session leads to at most one analysis request,
    however its events fall: the controller, reacting to every
    callback and every resolved [stop()] of the session's recorder,
    fetches at most once. *)
Theorem session_submits_at_most_once :
  forall (v : Variant) (c : Controls) (p : Page)
         (maxDuration : option Z) (supported : option (string -> bool))
         (granted : option AudioRecorder.MediaStream) (fault : option AudioRecorder.Fault)
         (ctx : AudioRecorder.AudioContext)
         (now : Z) (evs : list AudioRecorder.Event),
    List.length
      (fetches (react_all v c
                  (effects_of (AudioRecorder.session maxDuration supported granted fault
                                 ctx now evs))
                  p))
    <= List.length (fetches p) + 1.
Proof.
  intros v c p md sup granted fault ctx now evs.
  pose proof (react_all_fetches v c
                (effects_of (AudioRecorder.session md sup granted fault ctx now evs)) p) as H1.
  pose proof (session_clips_due md sup granted fault ctx now evs) as H2. lia.
Qed.

End SessionFacts.

(** The theorem at the custom preset with a custom field left empty
    (which [parseFloat] reads as NaN). *)
Lemma request_from_controls_witness :
  exists hz,
    CRJApi.form_get "reference_sa_hz"
      (CRJApi.req_body
         (request_for (fun _ => nan) UI.Primary (UI.mkControls "custom" "" "pyin" "iast")
            (UI.Recorded (JS.mkBlob 1 "audio/webm"))))
    = Some (CRJApi.FNumber hz) /\ hz = 261.63%float.
Proof.
  destruct (proj1 (proj2 (request_from_controls (fun _ => nan) UI.Primary
                            (UI.mkControls "custom" "" "pyin" "iast")
                            (UI.Recorded (JS.mkBlob 1 "audio/webm")))))
    as (hz & H1 & _ & H2 & _).
  exists hz. split; [exact H1 | exact (H2 eq_refl)].
Defined.

Section WaveformFacts.
Import Canvas Capture.
Local Open Scope list_scope.

Lemma waveform_loop_run data i x slice h k P s :
  ctx_path k = P ++ [s] ->
  run (waveform_loop data (S i) x slice h) k
  = with_path k (P ++ [s ++ waveform_points data x slice h]).
Proof.
  revert i x k s. induction data as [|d data IH]; intros i x k s Hk.
  - cbn. rewrite app_nil_r. destruct k; cbn in Hk |- *. rewrite Hk. reflexivity.
  - cbn [waveform_loop waveform_points Nat.eqb]. rewrite run_cons.
    rewrite (IH _ _ _ (s ++ [(x, (NotationRenderer.float_of_nat d / 128.0 * (h / 2))%float)])).
    + rewrite <- app_assoc. destruct k; reflexivity.
    + cbn. rewrite Hk. apply extend_snoc.
Qed.

Lemma waveform_points_spec data x slice h :
  List.length (waveform_points data x slice h) = List.length data /\
  map snd (waveform_points data x slice h)
  = map (fun d => (NotationRenderer.float_of_nat d / 128.0 * (h / 2))%float) data.
Proof.
  revert x. induction data as [|d data IH]; intros x; [split; reflexivity|].
  cbn. destruct (IH (x + slice)%float) as [-> ->]. split; reflexivity.
Qed.

(** X12.  [drawWaveform] paints the background over the whole canvas and
    then strokes one path: for a non-empty sample window a single
    sub-path with one point per sample, in order, each at the height
    [sample / 128 * (h / 2)]; for an empty window the path is empty. *)
Theorem waveform_is_one_line :
  forall (data : list nat) (canvas : NotationRenderer.CanvasElement),
    let w := NotationRenderer.width canvas in
    let h := NotationRenderer.height canvas in
    let slice := (w / NotationRenderer.float_of_nat (List.length data))%float in
    let line := waveform_points data 0%float slice h in
    painted (drawWaveform data canvas)
    = [ Rect "#0d1b2a" 0 0 w h;
        Stroked waveform_style (match data with [] => [] | _ => [line] end) ] /\
    List.length line = List.length data /\
    map snd line
    = map (fun d => (NotationRenderer.float_of_nat d / 128.0 * (h / 2))%float) data.
Proof.
  intros data canvas w h slice line.
  split; [|apply waveform_points_spec].
  unfold painted, drawWaveform. fold w h slice.
  rewrite run_app, run_app.
  destruct data as [|d data]; [reflexivity|].
  cbn [waveform_loop Nat.eqb]. rewrite (run_cons (moveTo _ _)).
  erewrite (waveform_loop_run data 0 _ _ _ _ [] [_]) by reflexivity.
  reflexivity.
Qed.

End WaveformFacts.

(* ================================================================== *)
(** * Further properties of the notation renderer *)
(* ================================================================== *)

Section ViewFacts.
Import Canvas NotationRenderer.
Local Open Scope list_scope.

(** ** Raga candidates *)

Lemma raga_candidates_from_nth toFixed toString k cs i :
  nth_error (raga_candidates_from toFixed toString k cs) i
  = option_map (raga_candidate toFixed toString (k + i)) (nth_error cs i).
Proof.
  revert k i. induction cs as [|c cs IH]; intros k i.
  - destruct i; reflexivity.
  - destruct i as [|i]; cbn [raga_candidates_from nth_error option_map].
    + rewrite Nat.add_0_r. reflexivity.
    + rewrite IH. replace (S k + i) with (k + S i) by lia. reflexivity.
Qed.

Lemma raga_candidates_from_rows toFixed toString k cs :
  List.length (raga_candidates_from toFixed toString k cs) = List.length cs /\
  Forall (fun e => className e = "raga-candidate"%string)
    (raga_candidates_from toFixed toString k cs).
Proof.
  revert k. induction cs as [|c cs IH]; intros k; [split; [reflexivity | constructor]|].
  destruct (IH (S k)) as [H1 H2]. cbn [raga_candidates_from List.length].
  split; [rewrite H1; reflexivity | constructor; [reflexivity | exact H2]].
Qed.

(** X13.  For no candidates [renderRagas] leaves the empty-state message
    and no row; otherwise it appends exactly one row per candidate, in
    the order given, the row at position [i] being the one ranked
    [i + 1]. *)
Theorem ragas_one_row_per_candidate :
  forall (toFixed : float -> nat -> string) (toString : float -> string)
         (candidates : list Candidate),
    match renderRagas toFixed toString candidates with
    | Markup html =>
        candidates = [] /\
        html = ("<p " ++ attr "style" "color:var(--text-muted)"
                  ++ ">No raga candidates identified.</p>")%string
    | Children rows =>
        candidates <> [] /\
        List.length rows = List.length candidates /\
        Forall (fun e => className e = "raga-candidate"%string) rows /\
        forall i, nth_error rows i
                  = option_map (raga_candidate toFixed toString i) (nth_error candidates i)
    end.
Proof.
  intros toFixed toString [|c cs]; [split; reflexivity|].
  unfold renderRagas.
  split; [discriminate|].
  destruct (raga_candidates_from_rows toFixed toString 0 (c :: cs)) as [H1 H2].
  split; [exact H1|]. split; [exact H2|].
  intros i. apply (raga_candidates_from_nth toFixed toString 0).
Qed.

(** ** Gamaka tally *)

Lemma tally_snoc gamakas g :
  tally (gamakas ++ [g]) = increment (gamaka_type g) (tally gamakas).
Proof. unfold tally. rewrite fold_left_app. reflexivity. Qed.

Lemma lookup_increment_same k counts :
  lookup k (increment k counts)
  = Some (S (match lookup k counts with Some n => n | None => 0 end)).
Proof.
  induction counts as [|[k' n] counts IH]; cbn [increment lookup].
  - rewrite String.eqb_refl. reflexivity.
  - destruct (String.eqb k k') eqn:E; cbn [lookup]; rewrite E; [reflexivity | exact IH].
Qed.

Lemma lookup_increment_other k k' counts :
  k' <> k -> lookup k' (increment k counts) = lookup k' counts.
Proof.
  intros Hne. induction counts as [|[k0 n] counts IH]; cbn [increment lookup].
  - destruct (String.eqb_spec k' k); [contradiction | reflexivity].
  - destruct (String.eqb_spec k k0) as [<- | Hk]; cbn [lookup].
    + destruct (String.eqb_spec k' k); [contradiction | reflexivity].
    + destruct (String.eqb k' k0); [reflexivity | exact IH].
Qed.

Lemma labels_increment k counts :
  labels (increment k counts)
  = labels counts ++ (if in_dec string_dec k (labels counts) then [] else [k]).
Proof.
  induction counts as [|[k' n] counts IH]; cbn [increment labels map fst]; [reflexivity|].
  destruct (String.eqb_spec k k') as [<- | Hk].
  - cbn [map fst]. destruct (in_dec string_dec k (k :: map fst counts)) as [_ | Hn].
    + rewrite app_nil_r. reflexivity.
    + exfalso. apply Hn. left. reflexivity.
  - cbn [map fst app]. fold (labels (increment k counts)). rewrite IH. fold (labels counts).
    destruct (in_dec string_dec k (labels counts)) as [Hin | Hn];
      destruct (in_dec string_dec k (k' :: labels counts)) as [Hin' | Hn']; try reflexivity.
    + exfalso. apply Hn'. right. exact Hin.
    + exfalso. destruct Hin' as [E | Hin']; [congruence | contradiction].
Qed.

Lemma total_increment k counts :
  fold_right Nat.add 0 (map snd (increment k counts))
  = S (fold_right Nat.add 0 (map snd counts)).
Proof.
  induction counts as [|[k' n] counts IH]; cbn [increment map snd fold_right]; [reflexivity|].
  destruct (String.eqb k k'); cbn [map snd fold_right]; [reflexivity|].
  rewrite IH. lia.
Qed.

Lemma tally_counts gamakas label :
  lookup label (tally gamakas)
  = (if Nat.eqb (occurrences label gamakas) 0 then None
     else Some (occurrences label gamakas)) /\
  fold_right Nat.add 0 (map snd (tally gamakas)) = List.length gamakas.
Proof.
  induction gamakas as [|g gamakas [IH1 IH2]] using rev_ind.
  - split; reflexivity.
  - rewrite tally_snoc. split.
    + unfold occurrences in *. rewrite map_app, count_occ_app. cbn [map count_occ].
      destruct (string_dec (gamaka_type g) label) as [<- | Hne].
      * rewrite lookup_increment_same, IH1.
        destruct (count_occ string_dec (map gamaka_type gamakas) (gamaka_type g)) as [|n];
          cbn [Nat.eqb]; [reflexivity|].
        replace (S n + 1) with (S (S n)) by lia. reflexivity.
      * rewrite lookup_increment_other by congruence. rewrite IH1, Nat.add_0_r. reflexivity.
    + rewrite total_increment, IH2, length_app. cbn. lia.
Qed.

(** X14.  The tally of [renderGamakas] counts every gamaka once.  For
    gamakas whose type labels are plain (no property name that an
    object inherits, no run of digits): a label that occurs [n > 0]
    times has count [n], a label that does not occur has no entry, and
    the counts add up to the number of gamakas. *)
Theorem tally_counts_occurrences :
  forall (gamakas : list Gamaka) (label : string),
    plain_labels gamakas ->
    lookup label (tally gamakas)
    = (if Nat.eqb (occurrences label gamakas) 0 then None
       else Some (occurrences label gamakas)) /\
    fold_right Nat.add 0 (map snd (tally gamakas)) = List.length gamakas.
Proof. intros gamakas label _. apply tally_counts. Qed.

Lemma labels_tally gamakas :
  NoDup (labels (tally gamakas)) /\
  forall label, In label (labels (tally gamakas)) <-> In label (map gamaka_type gamakas).
Proof.
  induction gamakas as [|g gamakas [IH1 IH2]] using rev_ind.
  - split; [constructor | intros label; split; intros []].
  - rewrite tally_snoc, labels_increment.
    destruct (in_dec string_dec (gamaka_type g) (labels (tally gamakas))) as [Hin | Hn].
    + rewrite app_nil_r. split; [exact IH1|].
      intros label. rewrite map_app, in_app_iff, IH2. cbn.
      split; [tauto|]. intros [H | [<- | []]]; [exact H | apply IH2, Hin].
    + split.
      * apply NoDup_app; [exact IH1 | repeat constructor; intros [] |].
        intros a Ha [<- | []]. contradiction.
      * intros label. rewrite map_app, !in_app_iff, IH2. reflexivity.
Qed.

(** X15.  [renderGamakas] shows one item per distinct type label, the
    labels in the order in which they first occur.  For gamakas whose
    type labels are plain: no label is shown twice, exactly the labels
    that occur are shown, and a further gamaka with a plain label adds
    an item at the end when its label is new and leaves the items in
    place otherwise. *)
Theorem gamaka_items_in_order_of_first_occurrence :
  forall (upperCase : string -> string) (gamakas : list Gamaka),
    plain_labels gamakas ->
    List.length (renderGamakas upperCase gamakas) = List.length (labels (tally gamakas)) /\
    NoDup (labels (tally gamakas)) /\
    (forall label,
        In label (labels (tally gamakas)) <-> In label (map gamaka_type gamakas)) /\
    (forall g,
        plain_label (gamaka_type g) = true ->
        labels (tally (gamakas ++ [g]))
        = labels (tally gamakas)
            ++ (if in_dec string_dec (gamaka_type g) (labels (tally gamakas))
                then [] else [gamaka_type g])).
Proof.
  intros upperCase gamakas _.
  split; [unfold renderGamakas, labels; rewrite !length_map; reflexivity|].
  destruct (labels_tally gamakas) as [H1 H2].
  split; [exact H1|]. split; [exact H2|].
  intros g _. rewrite tally_snoc. apply labels_increment.
Qed.

(** ** Escaping *)

(** X16.  [_esc] returns unchanged any text that holds no ampersand, no
    angle bracket and no no-break space. *)
Theorem esc_keeps_plain_text :
  forall s : string,
    has_char "&" s = false -> has_char "<" s = false -> has_char ">" s = false ->
    has_nbsp s = false ->
    _esc s = s.
Proof.
  induction s as [|c rest IH]; [reflexivity|].
  cbn [has_char]. intros Ha Hl Hg Hn.
  apply orb_false_iff in Ha, Hl, Hg.
  destruct Ha as [Ha Ha'], Hl as [Hl Hl'], Hg as [Hg Hg'].
  cbn [_esc]. rewrite Ha, Hl, Hg.
  destruct rest as [|c' rest']; [reflexivity|].
  cbn [has_nbsp] in Hn. apply orb_false_iff in Hn. destruct Hn as [Hn Hn'].
  rewrite Hn. rewrite (IH Ha' Hl' Hg' Hn'). reflexivity.
Qed.

End ViewFacts.

(** The theorem at a raga name. *)
Lemma esc_keeps_plain_text_witness :
  NotationRenderer._esc "Mayamalavagowla" = "Mayamalavagowla".
Proof.
  exact (esc_keeps_plain_text "Mayamalavagowla" eq_refl eq_refl eq_refl eq_refl).
Defined.

(** The theorem at two kampita and one jaru. *)
Lemma tally_counts_occurrences_witness :
  NotationRenderer.lookup "kampita"
    (NotationRenderer.tally
       [ NotationRenderer.mkGamaka "kampita"; NotationRenderer.mkGamaka "jaru";
         NotationRenderer.mkGamaka "kampita" ])
  = Some 2.
Proof.
  exact (proj1 (tally_counts_occurrences
                  [ NotationRenderer.mkGamaka "kampita"; NotationRenderer.mkGamaka "jaru";
                    NotationRenderer.mkGamaka "kampita" ]
                  "kampita" ltac:(repeat constructor))).
Defined.

(** The theorem at the same gamakas, followed by a steady one. *)
Lemma gamaka_items_in_order_of_first_occurrence_witness :
  labels (NotationRenderer.tally
            ([ NotationRenderer.mkGamaka "kampita"; NotationRenderer.mkGamaka "jaru";
               NotationRenderer.mkGamaka "kampita" ]
               ++ [ NotationRenderer.mkGamaka "steady" ])%list)
  = [ "kampita"; "jaru"; "steady" ].
Proof.
  exact (proj2 (proj2 (proj2 (gamaka_items_in_order_of_first_occurrence
                                (fun s => s)
                                [ NotationRenderer.mkGamaka "kampita";
                                  NotationRenderer.mkGamaka "jaru";
                                  NotationRenderer.mkGamaka "kampita" ]
                                ltac:(repeat constructor))))
           (NotationRenderer.mkGamaka "steady") eq_refl).
Defined.

(* ================================================================== *)
(** * Further properties of the contour plot *)
(* ================================================================== *)

Section PlotFacts.
Import Canvas NotationRenderer.
Local Open Scope list_scope.

(** ** Outlines of the shading *)

Lemma shape_tail_snoc contour canvas lastX body l :
  shape_tail contour canvas lastX (body ++ [l])
  = map (point contour canvas) (body ++ [l])
      ++ [(xScale contour canvas (timestamp_ms l), bottom canvas)].
Proof.
  revert lastX. induction body as [|f body IH]; intros lastX; [reflexivity|].
  cbn [app shape_tail map]. rewrite IH. reflexivity.
Qed.

(** X17.  Every outline that [renderContour] fills under the curve is
    that of one run of frames that are not unvoiced: it starts on the
    bottom edge of the plotting rectangle below the run's first frame,
    follows the points of the run, and ends on the bottom edge below
    the run's last frame. *)
Theorem shading_outline_closes_on_bottom_edge :
  forall (toFixed : float -> nat -> string) (toString : float -> string)
         (contour : list Frame) (referenceSaHz : float) (canvas : CanvasElement)
         (path : Path),
    In path (filled_in shading_style
               (painted (renderContour toFixed toString (Some contour)
                           referenceSaHz canvas))) ->
    exists r first last,
      In r (runs contour) /\ hd_error r = Some first /\ hd_error (rev r) = Some last /\
      path = [ (xScale contour canvas (timestamp_ms first), bottom canvas)
                 :: map (point contour canvas) r
                 ++ [(xScale contour canvas (timestamp_ms last), bottom canvas)] ].
Proof.
  intros toFixed toString contour referenceSaHz canvas path Hin.
  rewrite (proj2 (renderContour_paints toFixed toString contour referenceSaHz canvas)) in Hin.
  destruct (existsb voiced contour); [|destruct Hin].
  apply in_map_iff in Hin. destruct Hin as (r & <- & Hr).
  destruct (Segmented_contiguous _ _ (runs_Segmented contour) r Hr) as (Hne & _ & _).
  destruct (exists_last Hne) as (body & l & ->).
  destruct body as [|f body].
  - exists [l], l, l. split; [exact Hr|]. repeat split.
  - exists ((f :: body) ++ [l]), f, l. split; [exact Hr|]. split; [reflexivity|].
    split; [rewrite rev_app_distr; reflexivity|].
    cbn [app shape]. f_equal. f_equal.
    change (f :: body ++ [l]) with ((f :: body) ++ [l]).
    apply shape_tail_snoc.
Qed.

(** ** What a plot paints *)

Lemma painted_flat_map {A} (f : A -> list Call) (g : A -> list Painted)
      (Inv : Context -> Prop) (l : list A) :
  (forall x k, Inv k ->
     ctx_painted (run (f x) k) = ctx_painted k ++ g x /\ Inv (run (f x) k)) ->
  forall k, Inv k ->
    ctx_painted (run (flat_map f l) k) = ctx_painted k ++ flat_map g l.
Proof.
  intros Hf. induction l as [|x l IH]; intros k Hk; cbn [flat_map].
  - rewrite app_nil_r. reflexivity.
  - rewrite run_app. destruct (Hf x k Hk) as [E HI].
    rewrite (IH _ HI), E, app_assoc. reflexivity.
Qed.

Lemma reference_line_painted toString contour referenceSaHz canvas k :
  ctx_painted (run (reference_line toString contour referenceSaHz canvas) k)
  = ctx_painted k ++ reference_mark toString contour referenceSaHz canvas.
Proof.
  unfold reference_line, reference_mark, in_bounds.
  destruct ((fMin contour <=? referenceSaHz)%float && (referenceSaHz <=? fMax contour)%float).
  - destruct k. cbn. rewrite <- app_assoc. reflexivity.
  - cbn. rewrite app_nil_r. reflexivity.
Qed.

Lemma octave_lines_painted contour referenceSaHz canvas k :
  ctx_painted (run (octave_lines contour referenceSaHz canvas) k)
  = ctx_painted k
      ++ flat_map (octave_mark contour canvas)
           [ (referenceSaHz * 1.5)%float; (referenceSaHz * 2)%float ].
Proof.
  unfold octave_lines.
  apply (painted_flat_map _ _ (fun _ => True)); [|exact I].
  intros hz k' _. split; [|exact I].
  unfold octave_line, octave_mark, in_bounds.
  destruct ((fMin contour <=? hz)%float && (hz <=? fMax contour)%float).
  - destruct k'. reflexivity.
  - cbn. rewrite app_nil_r. reflexivity.
Qed.

Lemma time_axis_painted toFixed contour canvas k :
  ctx_painted (run (time_axis toFixed contour canvas) k)
  = ctx_painted k ++ flat_map (time_mark toFixed contour canvas) (seq 0 7).
Proof.
  unfold time_axis. rewrite run_app.
  rewrite (painted_flat_map _ (time_mark toFixed contour canvas)
             (fun k => ctx_fillStyle k = label_style)).
  - destruct k. reflexivity.
  - intros i k' Hk'. destruct k' as [fs ss path painted]. cbn in Hk'. subst fs.
    split; [|reflexivity].
    cbn. rewrite <- app_assoc. reflexivity.
  - destruct k. reflexivity.
Qed.

Lemma frequency_axis_painted toFixed contour canvas k :
  ctx_painted (run (frequency_axis toFixed contour canvas) k)
  = ctx_painted k ++ flat_map (frequency_mark toFixed contour canvas) (seq 0 5).
Proof.
  unfold frequency_axis. rewrite run_app.
  rewrite (painted_flat_map _ (frequency_mark toFixed contour canvas) (fun _ => True)).
  - destruct k. reflexivity.
  - intros i k' _. split; [|exact I]. destruct k'. reflexivity.
  - exact I.
Qed.

Lemma plot_layers toFixed toString contour referenceSaHz canvas :
  painted (plot toFixed toString contour referenceSaHz canvas)
  = if existsb voiced contour
    then layers toFixed toString contour referenceSaHz canvas
    else [background canvas].
Proof.
  unfold plot, painted.
  destruct (existsb voiced contour) eqn:Hv.
  - destruct (filter voiced contour) eqn:Hf.
    + apply filter_voiced_nil in Hf. congruence.
    + rewrite !run_app.
      rewrite frequency_axis_painted, time_axis_painted, shading_run, contour_line_run,
        octave_lines_painted, reference_line_painted.
      unfold layers, curve. cbn [run fold_left exec fresh ctx_painted ctx_fillStyle app].
      rewrite <- !app_assoc. reflexivity.
  - apply filter_voiced_nil in Hv. rewrite Hv. reflexivity.
Qed.

(** X18.  [renderContour] paints the following, in this order and
    nothing else.  For a missing or empty series: the whole canvas in
    the background colour, then the message in the middle of the
    canvas.  For a series with no voiced frame: the background only.
    Otherwise: the background; the reference line with its label, when
    the reference frequency is within the frequency bounds; the lines
    at 1.5 and 2 times the reference frequency that are within the
    bounds; the curve; the shading under each run; seven time labels,
    each followed by its grid line; five frequency labels. *)
Theorem contour_painting_order :
  forall (toFixed : float -> nat -> string) (toString : float -> string)
         (contour : option (list Frame)) (referenceSaHz : float)
         (canvas : CanvasElement),
    painted (renderContour toFixed toString contour referenceSaHz canvas)
    = match contour with
      | None | Some [] => [ background canvas; no_contour_message canvas ]
      | Some frames =>
          if existsb voiced frames
          then layers toFixed toString frames referenceSaHz canvas
          else [ background canvas ]
      end.
Proof.
  intros toFixed toString [[|f frames]|] referenceSaHz canvas; try reflexivity.
  apply plot_layers.
Qed.

(** ** Lines other than the curve *)

Lemma stroked_in_flat_map {A} style (g : A -> list Painted) l :
  stroked_in style (flat_map g l) = flat_map (fun x => stroked_in style (g x)) l.
Proof.
  induction l as [|x l IH]; [reflexivity|].
  cbn [flat_map]. rewrite stroked_in_app, IH. reflexivity.
Qed.

Lemma flat_map_nil {A B} (l : list A) : flat_map (fun _ => @nil B) l = [].
Proof. induction l; [reflexivity | assumption]. Qed.

Lemma flat_map_singleton {A B} (g : A -> B) (l : list A) :
  flat_map (fun x => [g x]) l = map g l.
Proof. induction l as [|x l IH]; [reflexivity | cbn; rewrite IH; reflexivity]. Qed.

Lemma stroked_in_layers style toFixed toString contour referenceSaHz canvas :
  stroked_in style (layers toFixed toString contour referenceSaHz canvas)
  = (if in_bounds contour referenceSaHz && String.eqb reference_style style
     then [level contour canvas referenceSaHz] else [])
    ++ flat_map (fun hz => if in_bounds contour hz && String.eqb octave_style style
                           then [level contour canvas hz] else [])
         [ (referenceSaHz * 1.5)%float; (referenceSaHz * 2)%float ]
    ++ (if String.eqb contour_style style
        then [map (map (point contour canvas)) (runs contour)] else [])
    ++ (if String.eqb grid_style style
        then map (fun i => upright canvas
                             (xScale contour canvas
                                (tick_value (tMin contour) (tMax contour) nTicks i)))
               (seq 0 7)
        else []).
Proof.
  unfold layers, background, curve.
  cbn [stroked_in]. rewrite !stroked_in_app, !stroked_in_flat_map.
  cbn [stroked_in]. rewrite stroked_in_fills.
  apply (f_equal2 (@app _)); [|apply (f_equal2 (@app _)); [|apply (f_equal2 (@app _))]].
  - unfold reference_mark. destruct (in_bounds contour referenceSaHz); [|reflexivity].
    cbn [stroked_in andb]. destruct (String.eqb reference_style style); reflexivity.
  - apply flat_map_ext. intros hz. unfold octave_mark.
    destruct (in_bounds contour hz); [|reflexivity].
    cbn [stroked_in andb]. destruct (String.eqb octave_style style); reflexivity.
  - destruct (String.eqb contour_style style); reflexivity.
  - assert (Hf : forall l, flat_map (fun x => stroked_in style
                                        (frequency_mark toFixed contour canvas x)) l = [])
      by (intros l; apply flat_map_nil).
    rewrite Hf, app_nil_r. unfold time_mark. cbn [stroked_in].
    destruct (String.eqb grid_style style).
    + apply flat_map_singleton.
    + apply flat_map_nil.
Qed.

(** X19.  Beside the curve, a plot strokes only straight lines: in the
    style of the reference line, one horizontal line across the
    plotting rectangle at the reference frequency, and only when that
    frequency is within the frequency bounds; in the style of the
    octave lines, such a line at 1.5 times and at twice the reference
    frequency, each only when within the bounds; and in the style of
    the grid, seven vertical lines from the top to the bottom of the
    plotting rectangle, one at each time tick.  A series with no voiced
    frame gets none of them. *)
Theorem guide_lines_within_bounds :
  forall (toFixed : float -> nat -> string) (toString : float -> string)
         (contour : list Frame) (referenceSaHz : float) (canvas : CanvasElement),
    let ps := painted (renderContour toFixed toString (Some contour) referenceSaHz canvas) in
    stroked_in reference_style ps
    = (if existsb voiced contour && in_bounds contour referenceSaHz
       then [level contour canvas referenceSaHz] else []) /\
    stroked_in octave_style ps
    = (if existsb voiced contour
       then flat_map (fun hz => if in_bounds contour hz
                                then [level contour canvas hz] else [])
              [ (referenceSaHz * 1.5)%float; (referenceSaHz * 2)%float ]
       else []) /\
    stroked_in grid_style ps
    = (if existsb voiced contour
       then map (fun i => upright canvas
                            (xScale contour canvas
                               (tick_value (tMin contour) (tMax contour) nTicks i)))
              (seq 0 7)
       else []).
Proof.
  intros toFixed toString contour referenceSaHz canvas ps.
  assert (Hps : ps = if existsb voiced contour
                     then layers toFixed toString contour referenceSaHz canvas
                     else match contour with
                          | [] => [background canvas; no_contour_message canvas]
                          | _ => [background canvas]
                          end).
  { unfold ps. destruct contour as [|f frames]; [reflexivity|].
    change (renderContour toFixed toString (Some (f :: frames)) referenceSaHz canvas)
      with (plot toFixed toString (f :: frames) referenceSaHz canvas).
    rewrite plot_layers. destruct (existsb voiced (f :: frames)); reflexivity. }
  rewrite Hps. clear Hps ps.
  destruct (existsb voiced contour).
  - rewrite !stroked_in_layers.
    change (String.eqb reference_style reference_style) with true.
    change (String.eqb octave_style reference_style) with false.
    change (String.eqb contour_style reference_style) with false.
    change (String.eqb grid_style reference_style) with false.
    change (String.eqb reference_style octave_style) with false.
    change (String.eqb octave_style octave_style) with true.
    change (String.eqb contour_style octave_style) with false.
    change (String.eqb grid_style octave_style) with false.
    change (String.eqb reference_style grid_style) with false.
    change (String.eqb octave_style grid_style) with false.
    change (String.eqb contour_style grid_style) with false.
    change (String.eqb grid_style grid_style) with true.
    cbn [flat_map]. rewrite !andb_false_r, !andb_true_r. cbn [app].
    rewrite ?app_nil_r.
    repeat split;
      repeat match goal with |- context [if ?b then _ else _] => destruct b end;
      reflexivity.
  - destruct contour; repeat split.
Qed.

End PlotFacts.

(** The theorem at a series of two voiced frames. *)
Lemma shading_outline_closes_on_bottom_edge_witness :
  exists r first last,
    In r (runs two_frames) /\
    hd_error r = Some first /\ hd_error (rev r) = Some last /\
    [ shape two_frames (NotationRenderer.mkCanvas 800 300)
        two_frames ]
    = [ (NotationRenderer.xScale two_frames (NotationRenderer.mkCanvas 800 300)
           (NotationRenderer.timestamp_ms first),
         bottom (NotationRenderer.mkCanvas 800 300))
          :: map (NotationRenderer.point two_frames
                    (NotationRenderer.mkCanvas 800 300)) r
          ++ [(NotationRenderer.xScale two_frames
                 (NotationRenderer.mkCanvas 800 300) (NotationRenderer.timestamp_ms last),
               bottom (NotationRenderer.mkCanvas 800 300))] ]%list.
Proof.
  apply (shading_outline_closes_on_bottom_edge (fun _ _ => "") (fun _ => "")
           two_frames 261.63%float (NotationRenderer.mkCanvas 800 300)).
  vm_compute. left. reflexivity.
Defined.
